(** * Multi-cloud transfer manager: a shallow embedding of the transfer core

    The development follows the Python sources:

    - [connectors/base.py]      the result record and the exception classes;
    - [utils.py]                [with_retry], [retry_operation], [CircuitBreaker];
    - [connectors/*_connector.py] the S3, Azure and GCP connectors;
    - [transfer_manager.py]     URL parsing, the direct / via-temp copy, the batch.

    Python code that threads effects (the clock, the local file system, the
    connector cache of the manager, the log, the calls made to the cloud SDKs)
    is written in a state-and-exception monad [M].  What the SDK clients and
    the operating system answer is not part of the repository: it is a section
    variable [sdk], an arbitrary function of the environment. *)

From Stdlib Require Import ZArith String Ascii List Bool Lia DecimalString.
From stdpp Require Import base option gmap strings.

Local Open Scope string_scope.
Local Open Scope Z_scope.

(** ** Python strings *)

Module Str.

(** [c.lower()] on one ASCII character. *)
Definition lower_ascii (c : ascii) : ascii :=
  let n := nat_of_ascii c in
  if (Nat.leb 65 n && Nat.leb n 90)%bool then ascii_of_nat (n + 32)%nat else c.

(** [s.lower()]. *)
Fixpoint lower (s : string) : string :=
  match s with
  | EmptyString => EmptyString
  | String c r => String (lower_ascii c) (lower r)
  end.

(** [s.lstrip('/')]: every leading slash is dropped. *)
Fixpoint lstrip_slash (s : string) : string :=
  match s with
  | String "/" r => lstrip_slash r
  | _ => s
  end.

(** [c.isspace()] on one ASCII character: the blank, the controls 9 to 13
    (tab, line feed, vertical tab, form feed, carriage return) and the
    separators 28 to 31. *)
Definition is_space (c : ascii) : bool :=
  let n := nat_of_ascii c in
  (Nat.eqb n 32 || (Nat.leb 9 n && Nat.leb n 13) || (Nat.leb 28 n && Nat.leb n 31))%bool.

(** [s.lstrip()], [s.rstrip()] and [s.strip()]. *)

Fixpoint lstrip (s : string) : string :=
  match s with
  | String c r => if is_space c then lstrip r else s
  | EmptyString => EmptyString
  end.

Fixpoint rstrip (s : string) : string :=
  match s with
  | EmptyString => EmptyString
  | String c r =>
      match rstrip r with
      | EmptyString => if is_space c then EmptyString else String c EmptyString
      | r' => String c r'
      end
  end.

Definition strip (s : string) : string := rstrip (lstrip s).

(** [os.path.basename(p)]: what follows the last slash. *)
Fixpoint basename_from (acc s : string) : string :=
  match s with
  | EmptyString => acc
  | String "/" r => basename_from r r
  | String _ r => basename_from acc r
  end.

Definition basename (p : string) : string := basename_from p p.

(** [str(n)] for an integer. *)
Definition of_Z (n : Z) : string := NilZero.string_of_int (Z.to_int n).

(** [x in [a, b, ...]] for strings. *)
Definition mem (x : string) (l : list string) : bool :=
  existsb (String.eqb x) l.

(** Truth value of an [Optional[str]]: [None] and the empty string are false. *)
Definition truthy (o : option string) : bool :=
  match o with
  | Some EmptyString | None => false
  | Some _ => true
  end.

End Str.

(** ** Exceptions *)

(** The exception classes the sources name.  [ConnectionError],
    [FileNotFoundError] and [PermissionError] are the classes of
    [connectors/base.py] (subclasses of [CloudStorageError]) which shadow the
    builtins inside the connectors; [utils.py] does not import them, so its
    [ConnectionError] and [TimeoutError] are the builtins, written
    [builtins_ConnectionError] and [builtins_TimeoutError] here. *)
Inductive exc_class : Type :=
| Exception
| ValueError
| TypeError
| KeyError
| OSError
| builtins_ConnectionError
| builtins_TimeoutError
| CloudStorageError
| AuthenticationError
| ConnectionError
| FileNotFoundError
| PermissionError
| ClientError (code : string)
| BotoCoreError
| NoCredentialsError
| PartialCredentialsError
| AzureError
| HttpResponseError (status_code : Z)
| ResourceNotFoundError
| ClientAuthenticationError
| GoogleCloudError
| NotFound
| Forbidden
| DefaultCredentialsError.

(** An exception object: its class and [str(e)]; [RetryError] is tenacity's
    wrapper around the last failed attempt. *)
Inductive exc : Type :=
| Exc (cls : exc_class) (msg : string)
| RetryError (last_attempt : exc).

Definition str_exc (e : exc) : string :=
  match e with
  | Exc _ msg => msg
  | RetryError _ => "RetryError[<Future state=finished raised>]"
  end.

Definition class_of (e : exc) : option exc_class :=
  match e with
  | Exc c _ => Some c
  | RetryError _ => None
  end.

(** [isinstance] tests, one per [except] clause of the sources. *)
Definition is_builtin_ConnectionError (e : exc) : bool :=
  match e with Exc builtins_ConnectionError _ => true | _ => false end.

Definition is_builtin_TimeoutError (e : exc) : bool :=
  match e with Exc builtins_TimeoutError _ => true | _ => false end.

Definition is_ClientError (e : exc) : bool :=
  match e with Exc (ClientError _) _ => true | _ => false end.

Definition error_code (e : exc) : string :=
  match e with Exc (ClientError c) _ => c | _ => "" end.

Definition is_credentials_error (e : exc) : bool :=
  match e with
  | Exc NoCredentialsError _ | Exc PartialCredentialsError _ => true
  | _ => false
  end.

Definition is_ResourceNotFoundError (e : exc) : bool :=
  match e with Exc ResourceNotFoundError _ => true | _ => false end.

Definition is_ClientAuthenticationError (e : exc) : bool :=
  match e with Exc ClientAuthenticationError _ => true | _ => false end.

Definition is_NotFound (e : exc) : bool :=
  match e with Exc NotFound _ => true | _ => false end.

Definition is_DefaultCredentialsError (e : exc) : bool :=
  match e with Exc DefaultCredentialsError _ => true | _ => false end.

(** [RETRIABLE_EXCEPTIONS] of [utils.py]: the builtin [ConnectionError] and
    [TimeoutError]. *)
Definition RETRIABLE_EXCEPTIONS (e : exc) : bool :=
  (is_builtin_ConnectionError e || is_builtin_TimeoutError e)%bool.


(** ** Outcome of a call *)

(** A call returns, raises, or never comes back ([Hangs]: the only unbounded
    loop of the sources is the status poll of the Azure copy). *)
Inductive outcome (A : Type) : Type :=
| Returns (a : A)
| Raises (e : exc)
| Hangs.

Arguments Returns {A} a.
Arguments Raises {A} e.
Arguments Hangs {A}.

(** ** [connectors/base.py] *)

Inductive CloudProvider : Type := AWS_S3 | AZURE_BLOB | GCP_STORAGE.

Record TransferResult : Type := mkTransferResult {
  success : bool;
  source_path : string;
  destination_path : string;
  bytes_transferred : Z;
  duration_seconds : Z;
  error_message : option string
}.

(** The two ways the sources build a result: with the byte count and the
    duration, or with an error message and the dataclass defaults. *)
Definition result_ok (src dst : string) (bytes duration : Z) : TransferResult :=
  mkTransferResult true src dst bytes duration None.

Definition result_failed (src dst msg : string) : TransferResult :=
  mkTransferResult false src dst 0 0 (Some msg).

(** ** [config.py] *)

Record Config : Type := mkConfig {
  aws_access_key_id : option string;
  aws_secret_access_key : option string;
  azure_storage_account_name : option string;
  azure_storage_account_key : option string;
  azure_storage_connection_string : option string;
  google_application_credentials : option string;
  google_cloud_project_id : option string;
  max_retries : Z;
  retry_delay : Z
}.

Definition validate_aws_config (c : Config) : bool :=
  (Str.truthy (aws_access_key_id c) && Str.truthy (aws_secret_access_key c))%bool.

Definition validate_azure_config (c : Config) : bool :=
  (Str.truthy (azure_storage_connection_string c)
   || (Str.truthy (azure_storage_account_name c)
       && Str.truthy (azure_storage_account_key c)))%bool.

(** ** The boundary to the SDK clients and the operating system *)

(** Keyword arguments handed through to the SDK without being read. *)
Definition kwargs : Type := list (string * string).

(** What [get_blob_properties()] answers, as far as the connector reads it. *)
Record BlobProperties : Type := mkBlobProperties {
  blob_size : Z;
  copy_status : string
}.

(** One constructor per call the connectors make on a client handle, on the
    local file system on behalf of a transfer, or on the clock.  Building a
    handle ([bucket()], [blob()], [get_blob_client()]) sends no request and
    stands in the same [try] block as the request that follows it; it is part
    of that request here. *)
Inductive sdk_op : Type :=
| Boto3Client
| Boto3Resource
| S3ListBuckets
| S3UploadFile (local_path bucket key : string) (kw : kwargs)
| S3HeadObject (bucket key : string)
| S3DownloadFile (bucket key local_path : string)
| S3CopyObject (source_bucket source_key dest_bucket dest_key : string) (kw : kwargs)
| S3DeleteObject (bucket key : string)
| AzureFromConnectionString
| AzureBlobServiceClient
| AzureListContainers
| AzureUploadBlob (local_path container blob : string) (kw : kwargs)
| AzureGetBlobProperties (container blob : string)
| AzureDownloadBlob (container blob local_path : string)
| AzureStartCopyFromUrl (source_container source_blob dest_container dest_blob : string)
| AzureDeleteBlob (container blob : string)
| AzureBlobExists (container blob : string)
| GcpClient
| GcpListBuckets
| GcpBlobExists (bucket blob : string)
| GcpBlobReload (bucket blob : string)
| GcpDownloadToFilename (bucket blob local_path : string)
| GcpUploadFromFilename (local_path bucket blob : string) (kw : kwargs)
| GcpCopyBlob (source_bucket source_blob dest_bucket dest_blob : string)
| GcpBlobDelete (bucket blob : string)
| OsMkdirParents (local_path : string)
| OsOpen (local_path mode : string)
| OsWrite (local_path : string)
| TimeSleep (seconds : Z).

(** The type of the answer of each call. *)
Definition sdk_ret (op : sdk_op) : Type :=
  match op with
  | S3HeadObject _ _ => Z
  | AzureGetBlobProperties _ _ => BlobProperties
  | AzureBlobExists _ _ | GcpBlobExists _ _ => bool
  | GcpBlobReload _ _ => option Z
  | _ => unit
  end.

Inductive log_level : Type := DEBUG | INFO | WARNING | ERROR.

(** What an observer of a run sees: the calls that crossed the boundary and
    the log events, in order. *)
Inductive Event : Type :=
| EvCall (op : sdk_op)
| EvLog (level : log_level) (event operation : string).

(** A connector object: its provider and whether its client handle
    ([_s3_client], [_blob_service_client], [_storage_client]) is set. *)
Record Connector : Type := mkConnector {
  provider : CloudProvider;
  client : bool
}.

(** ** [utils.py]: the circuit breaker's data *)

Inductive CircuitState : Type := CLOSED | OPEN | HALF_OPEN.

Record CircuitBreaker : Type := mkCircuitBreaker {
  failure_threshold : Z;
  timeout : Z;
  failure_count : Z;
  last_failure_time : option Z;
  state : CircuitState
}.

(** [CircuitBreaker.__init__]. *)
Definition CircuitBreaker_init (failure_threshold timeout : Z) : CircuitBreaker :=
  mkCircuitBreaker failure_threshold timeout 0 None CLOSED.

Definition set_state (s : CircuitState) (cb : CircuitBreaker) : CircuitBreaker :=
  mkCircuitBreaker (failure_threshold cb) (timeout cb) (failure_count cb)
    (last_failure_time cb) s.

Definition set_failure_count (n : Z) (cb : CircuitBreaker) : CircuitBreaker :=
  mkCircuitBreaker (failure_threshold cb) (timeout cb) n
    (last_failure_time cb) (state cb).

Definition set_last_failure_time (t : Z) (cb : CircuitBreaker) : CircuitBreaker :=
  mkCircuitBreaker (failure_threshold cb) (timeout cb) (failure_count cb)
    (Some t) (state cb).

(** [x or d] on an optional number: [None] and [0] give [d]. *)
Definition py_or (x : option Z) (d : Z) : Z :=
  match x with
  | None | Some 0 => d
  | Some v => v
  end.

(** ** tenacity's policies, as [with_retry] configures them *)

(** [stop_after_attempt(n)]: stop once the attempt number has reached [n]. *)
Definition stop_after_attempt (max_attempt_number attempt_number : Z) : bool :=
  max_attempt_number <=? attempt_number.

(** [wait_exponential(multiplier, max)] with the defaults [min=0],
    [exp_base=2]. *)
Definition wait_exponential (multiplier max attempt_number : Z) : Z :=
  Z.max 0 (Z.min (multiplier * 2 ^ (attempt_number - 1)) max).

(** ** [urllib.parse] *)

Module Url.

(** The named tuple [urlparse] returns. *)
Record ParseResult : Type := mkParseResult {
  scheme : string;
  netloc : string;
  path : string;
  params : string;
  query : string;
  fragment : string
}.

(** A reference instance of the library function, used for the concrete
    runs below: the split of a URL as [urllib.parse.urlsplit] and [urlparse]
    perform it on ASCII text.  Hosts in brackets and authorities outside
    ASCII, which the library validates further, do not occur in those runs. *)

Definition is_alpha (c : ascii) : bool :=
  let n := nat_of_ascii c in
  ((Nat.leb 65 n && Nat.leb n 90) || (Nat.leb 97 n && Nat.leb n 122))%bool.

Definition is_digit (c : ascii) : bool :=
  let n := nat_of_ascii c in (Nat.leb 48 n && Nat.leb n 57)%bool.

(** [scheme_chars]: letters, digits, and [+-.]. *)
Definition scheme_char (c : ascii) : bool :=
  (is_alpha c || is_digit c
   || Ascii.eqb c "+" || Ascii.eqb c "-" || Ascii.eqb c ".")%bool.

Fixpoint all_chars (p : ascii -> bool) (s : string) : bool :=
  match s with
  | EmptyString => true
  | String c r => (p c && all_chars p r)%bool
  end.

(** [s.partition(sep)] on the first character satisfying [p]: what stands
    before it and what stands after it, [None] when there is none. *)
Fixpoint split_at (p : ascii -> bool) (s : string) : option (string * string) :=
  match s with
  | EmptyString => None
  | String c r =>
      if p c then Some (EmptyString, r)
      else
        match split_at p r with
        | Some (a, b) => Some (String c a, b)
        | None => None
        end
  end.

(** The text up to the first character satisfying [p], and the rest from
    that character on. *)
Fixpoint span_until (p : ascii -> bool) (s : string) : string * string :=
  match s with
  | EmptyString => (EmptyString, EmptyString)
  | String c r =>
      if p c then (EmptyString, s)
      else let '(a, b) := span_until p r in (String c a, b)
  end.

Fixpoint contains (c : ascii) (s : string) : bool :=
  match s with
  | EmptyString => false
  | String d r => (Ascii.eqb c d || contains c r)%bool
  end.

(** [url.lstrip(_WHATWG_C0_CONTROL_OR_SPACE)]. *)
Fixpoint lstrip_c0 (s : string) : string :=
  match s with
  | String c r => if Nat.leb (nat_of_ascii c) 32 then lstrip_c0 r else s
  | EmptyString => EmptyString
  end.

(** Removal of the characters of [_UNSAFE_URL_BYTES_TO_REMOVE]. *)
Fixpoint remove_unsafe (s : string) : string :=
  match s with
  | EmptyString => EmptyString
  | String c r =>
      let n := nat_of_ascii c in
      if (Nat.eqb n 9 || Nat.eqb n 10 || Nat.eqb n 13)%bool
      then remove_unsafe r
      else String c (remove_unsafe r)
  end.

Definition is_netloc_delim (c : ascii) : bool :=
  (Ascii.eqb c "/" || Ascii.eqb c "?" || Ascii.eqb c "#")%bool.

Definition split_scheme (url : string) : string * string :=
  match split_at (Ascii.eqb ":") url with
  | Some (String c0 r0, rest) =>
      if (is_alpha c0 && all_chars scheme_char (String c0 r0))%bool
      then (Str.lower (String c0 r0), rest)
      else (EmptyString, url)
  | _ => (EmptyString, url)
  end.

Definition urlsplit (url : string) : exc + ParseResult :=
  let url := remove_unsafe (lstrip_c0 url) in
  let '(scheme, url) := split_scheme url in
  let '(netloc, url) :=
    match url with
    | String "/" (String "/" r) => span_until is_netloc_delim r
    | _ => (EmptyString, url)
    end in
  if xorb (contains "[" netloc) (contains "]" netloc)
  then inl (Exc ValueError "Invalid IPv6 URL")
  else
    let '(url, fragment) :=
      match split_at (Ascii.eqb "#") url with
      | Some (a, b) => (a, b)
      | None => (url, EmptyString)
      end in
    let '(url, query) :=
      match split_at (Ascii.eqb "?") url with
      | Some (a, b) => (a, b)
      | None => (url, EmptyString)
      end in
    inr (mkParseResult scheme netloc url EmptyString query fragment).

Definition uses_params : list string :=
  [""; "ftp"; "hdl"; "prospero"; "http"; "imap"; "https"; "shttp"; "rtsp";
   "rtspu"; "sip"; "sips"; "mms"; "sftp"; "tel"].

(** [_splitparams]: the parameters of the last path segment. *)
Fixpoint last_segment_split (url : string) : string * string :=
  match url with
  | EmptyString => (EmptyString, EmptyString)
  | String c r =>
      if contains "/" r
      then let '(a, b) := last_segment_split r in (String c a, b)
      else
        match split_at (Ascii.eqb ";") url with
        | Some (x, y) => (x, y)
        | None => (url, EmptyString)
        end
  end.

Definition urlparse (url : string) : exc + ParseResult :=
  match urlsplit url with
  | inl e => inl e
  | inr r =>
      if (Str.mem (scheme r) uses_params && contains ";" (path r))%bool
      then
        let '(p, ps) := last_segment_split (path r) in
        inr (mkParseResult (scheme r) (netloc r) p ps (query r) (fragment r))
      else inr r
  end.

End Url.

Section Model.

(** The state of the cloud backends and of the network, whatever it is. *)
Context {Remote : Type}.

(** The environment: the clock [time.time()] reads (timestamps and durations
    are integers in one fixed unit), the local files with their sizes, the
    paths whose [unlink()] the operating system refuses, and the backends. *)
Record Env : Type := mkEnv {
  clock : Z;
  files : gmap string Z;
  undeletable : gset string;
  remote : Remote
}.

(** The state a run threads: the environment, the manager's [_connectors]
    dict (connector objects are mutated in place and referred to by their
    key), and the trace. *)
Record State : Type := mkState {
  env : Env;
  connectors : gmap string Connector;
  events : list Event
}.

(** The answer of the outside world to each call: an exception or a value,
    and the environment after the call. *)
Variable sdk : forall op : sdk_op, Env -> (exc + sdk_ret op) * Env.

(** The global [config] instance, read-only. *)
Variable config : Config.

(** *** The monad *)

Definition M (A : Type) : Type := State -> outcome A * State.

Definition ret {A : Type} (a : A) : M A := fun st => (Returns a, st).

Definition raise {A : Type} (e : exc) : M A := fun st => (Raises e, st).

Definition bind {A B : Type} (m : M A) (k : A -> M B) : M B :=
  fun st =>
    match m st with
    | (Returns a, st') => k a st'
    | (Raises e, st') => (Raises e, st')
    | (Hangs, st') => (Hangs, st')
    end.

(** [try: body  except Exception as e: handler e]; a handler that does not
    match re-raises. *)
Definition try_except {A : Type} (body : M A) (handler : exc -> M A) : M A :=
  fun st =>
    match body st with
    | (Raises e, st') => handler e st'
    | r => r
    end.

(** [try: body  finally: cleanup]: the cleanup runs after a return and after
    a raise; an exception of the cleanup replaces the outcome of the body. *)
Definition try_finally {A : Type} (body : M A) (cleanup : M unit) : M A :=
  fun st =>
    match body st with
    | (Hangs, st') => (Hangs, st')
    | (r, st') =>
        match cleanup st' with
        | (Returns _, st'') => (r, st'')
        | (Raises e, st'') => (Raises e, st'')
        | (Hangs, st'') => (Hangs, st'')
        end
    end.

Notation "x <- m ;; k" := (bind m (fun x => k))
  (at level 100, m at next level, right associativity, only parsing).
Notation "m ;;; k" := (bind m (fun _ => k))
  (at level 100, right associativity, only parsing).

(** *** Primitive effects *)

Definition with_env (e : Env) (st : State) : State :=
  mkState e (connectors st) (events st).

Definition record (ev : Event) (st : State) : State :=
  mkState (env st) (connectors st) (events st ++ [ev]).

(** [time.time()]. *)
Definition time_time : M Z := fun st => (Returns (clock (env st)), st).

(** A call across the boundary: asked, answered, recorded. *)
Definition call (op : sdk_op) : M (sdk_ret op) :=
  fun st =>
    let '(r, e') := sdk op (env st) in
    (match r with inl x => Raises x | inr v => Returns v end,
     record (EvCall op) (with_env e' st)).

(** [time.sleep(seconds)]: a negative length is refused with [ValueError]
    before anything happens; otherwise the call comes back without raising. *)
Definition time_sleep (seconds : Z) : M unit :=
  fun st =>
    if seconds <? 0
    then (Raises (Exc ValueError "sleep length must be non-negative"), st)
    else
      let '(_, e') := sdk (TimeSleep seconds) (env st) in
      (Returns tt, record (EvCall (TimeSleep seconds)) (with_env e' st)).

(** The structlog calls and the helpers of [logger.py]: an event, no failure. *)
Definition log (level : log_level) (event operation : string) : M unit :=
  fun st => (Returns tt, record (EvLog level event operation) st).

Definition log_operation_start (operation : string) : M unit :=
  log INFO "Operation started" operation.

Definition log_operation_success (operation : string) : M unit :=
  log INFO "Operation completed successfully" operation.

Definition log_operation_error (operation : string) : M unit :=
  log ERROR "Operation failed" operation.

Definition log_retry_attempt (operation : string) : M unit :=
  log WARNING "Retry attempt" operation.

(** [Path(p).exists()], [Path(p).stat().st_size] and [Path(p).unlink()]. *)
Definition path_exists (p : string) : M bool :=
  fun st => (Returns (bool_decide (is_Some (files (env st) !! p))), st).

Definition stat_size (p : string) : M Z :=
  fun st =>
    match files (env st) !! p with
    | Some n => (Returns n, st)
    | None => (Raises (Exc OSError "No such file or directory"), st)
    end.

Definition unlink (p : string) : M unit :=
  fun st =>
    let e := env st in
    match files e !! p with
    | None => (Raises (Exc OSError "No such file or directory"), st)
    | Some _ =>
        if bool_decide (p ∈ undeletable e)
        then (Raises (Exc OSError "Permission denied"), st)
        else (Returns tt,
              with_env (mkEnv (clock e) (delete p (files e)) (undeletable e) (remote e)) st)
    end.

(** [Config.validate_gcp_config]: it also looks for the credentials file. *)
Definition validate_gcp_config (c : Config) : M bool :=
  if (Str.truthy (google_application_credentials c)
      && Str.truthy (google_cloud_project_id c))%bool
  then path_exists (default "" (google_application_credentials c))
  else ret false.

(** *** [utils.with_retry] *)

(** The hook [before_sleep_log(logger, "WARNING")].  tenacity calls
    [logger.log(log_level, ...)] with the level it was given; [logger] is
    the structlog logger of [utils.py] and the level is the string
    ["WARNING"], not the number [logging.WARNING]: the [log] of
    structlog's default logger compares the level with its minimum level,
    and the comparison of a string with a number raises [TypeError].
    Nothing is logged. *)
Definition before_sleep_error : exc :=
  Exc TypeError "'<' not supported between instances of 'str' and 'int'".

Definition before_sleep_log : M unit := raise before_sleep_error.

(** tenacity's [Retrying] loop under the policies [with_retry] passes:
    an exception outside [retry_on] leaves as it is; one inside it ends the
    loop with [RetryError] once [stop_after_attempt] says so ([reraise] keeps
    its default [False]); otherwise the [before_sleep] hook runs, the loop
    sleeps and calls again.  An exception of the hook is not caught by the
    loop: it leaves the decorated call.  [fuel] bounds the [while True]. *)
Fixpoint retrying {A : Type} (fuel : nat) (max_attempts delay : Z)
    (retry_on : exc -> bool) (func : M A) (attempt_number : Z) : M A :=
  fun st =>
    match func st with
    | (Raises e, st') =>
        if negb (retry_on e) then (Raises e, st')
        else if stop_after_attempt max_attempts attempt_number
        then (Raises (RetryError e), st')
        else
          match fuel with
          | O => (Hangs, st')
          | S fuel' =>
              (before_sleep_log ;;;
               time_sleep (wait_exponential delay 60 attempt_number) ;;;
               retrying fuel' max_attempts delay retry_on func (attempt_number + 1)) st'
          end
    | r => r
    end.

(** [with_retry(max_attempts, delay, exceptions=RETRIABLE_EXCEPTIONS)(func)]. *)
Definition with_retry {A : Type} (max_attempts delay : option Z)
    (exceptions : exc -> bool) (func : M A) : M A :=
  let max_attempts := py_or max_attempts (max_retries config) in
  let delay := py_or delay (retry_delay config) in
  retrying (Z.to_nat (max_attempts - 1)) max_attempts delay exceptions func 1.

(** *** [utils.retry_operation] *)

(** The body of [for attempt in range(1, max_attempts + 1)], over the
    attempt numbers still to come. *)
Fixpoint retry_loop {A : Type} (operation : M A) (operation_name : string)
    (max_attempts delay : Z) (attempts : list Z) (last_exception : option exc)
    : M A :=
  match attempts with
  | [] =>
      match last_exception with
      | Some e => raise e
      | None => raise (Exc TypeError "exceptions must derive from BaseException")
      end
  | attempt :: rest =>
      try_except
        (result <- operation ;;
         (if 1 <? attempt
          then log INFO "Operation succeeded after retries" operation_name
          else ret tt) ;;;
         ret result)
        (fun e =>
           log_retry_attempt operation_name ;;;
           if attempt =? max_attempts
           then log ERROR "Operation failed after all retries" operation_name ;;;
                raise e
           else time_sleep (Z.min (delay * 2 ^ (attempt - 1)) 60) ;;;
                retry_loop operation operation_name max_attempts delay rest (Some e))
  end.

Definition retry_operation {A : Type} (operation : M A) (operation_name : string)
    (max_attempts delay : option Z) : M A :=
  let max_attempts := py_or max_attempts (max_retries config) in
  let delay := py_or delay (retry_delay config) in
  retry_loop operation operation_name max_attempts delay
    (seqZ 1 max_attempts) None.

(** *** [utils.CircuitBreaker.call] *)

(** The gate at the head of [call]: [inr] is the error raised without
    calling [func], [inl] the breaker with which [func] is called. *)
Definition circuit_gate (self : CircuitBreaker) (now : Z) : CircuitBreaker + exc :=
  match state self with
  | OPEN =>
      match last_failure_time self with
      | None => inr (Exc TypeError "unsupported operand type(s) for -")
      | Some t =>
          if timeout self <? now - t
          then inl (set_state HALF_OPEN self)
          else inr (Exc builtins_ConnectionError "Circuit breaker is OPEN")
      end
  | _ => inl self
  end.

Definition on_success (self : CircuitBreaker) : CircuitBreaker :=
  match state self with
  | HALF_OPEN => set_failure_count 0 (set_state CLOSED self)
  | _ => self
  end.

Definition on_failure (self : CircuitBreaker) (now : Z) : CircuitBreaker :=
  let self := set_failure_count (failure_count self + 1) self in
  let self := set_last_failure_time now self in
  if failure_threshold self <=? failure_count self
  then set_state OPEN self
  else self.

Definition CircuitBreaker_call {A : Type} (self : CircuitBreaker) (func : M A)
    (st : State) : outcome A * CircuitBreaker * State :=
  match circuit_gate self (clock (env st)) with
  | inr e => (Raises e, self, st)
  | inl self =>
      match func st with
      | (Returns result, st') => (Returns result, on_success self, st')
      | (Raises e, st') =>
          let self' := on_failure self (clock (env st')) in
          (Raises e, self',
           if failure_threshold self' <=? failure_count self'
           then record (EvLog WARNING "Circuit breaker opened" "") st'
           else st')
      | (Hangs, st') => (Hangs, self, st')
      end
  end.

(** A client that calls through one breaker, one callable after the other;
    a call that never comes back ends the run. *)
Fixpoint run_calls {A : Type} (self : CircuitBreaker) (funcs : list (M A))
    (st : State) : list (outcome A) * CircuitBreaker * State :=
  match funcs with
  | [] => ([], self, st)
  | func :: rest =>
      match CircuitBreaker_call self func st with
      | (Hangs, self', st') => ([Hangs], self', st')
      | (o, self', st') =>
          let '(os, self'', st'') := run_calls self' rest st' in
          (o :: os, self'', st'')
      end
  end.

(** The breakers a program can hold: a fresh one, one that passed the gate
    of a call, one a call left behind. *)
Inductive reachable : CircuitBreaker -> Prop :=
| reachable_init (failure_threshold timeout : Z) :
    reachable (CircuitBreaker_init failure_threshold timeout)
| reachable_gate (self self' : CircuitBreaker) (now : Z) :
    reachable self -> circuit_gate self now = inl self' -> reachable self'
| reachable_call (A : Type) (self : CircuitBreaker) (func : M A) (st : State) :
    reachable self -> reachable (snd (fst (CircuitBreaker_call self func st))).

Definition is_raise {A : Type} (o : outcome A) : bool :=
  match o with Raises _ => true | _ => false end.

(** The number of calls of a run that raised. *)
Fixpoint failures {A : Type} (os : list (outcome A)) : Z :=
  match os with
  | [] => 0
  | o :: rest => (if is_raise o then 1 else 0) + failures rest
  end.

(** *** Connector objects *)

Variable poll_fuel : nat.

Definition hang {A : Type} : M A := fun st => (Hangs, st).

(** [self], for a connector the manager holds under the key [self]. *)
Definition get_self (self : string) : M Connector :=
  fun st =>
    match connectors st !! self with
    | Some c => (Returns c, st)
    | None => (Raises (Exc KeyError self), st)
    end.

(** The assignment of a fresh client handle to [self]. *)
Definition set_client (self : string) : M unit :=
  fun st =>
    (Returns tt,
     mkState (env st)
       (alter (fun c => mkConnector (provider c) true) self (connectors st))
       (events st)).

(** [if not self._client: self.authenticate()]. *)
Definition ensure_client (authenticate : string -> M bool) (self : string) : M unit :=
  c <- get_self self ;;
  if client c then ret tt else authenticate self ;;; ret tt.

Definition elapsed_since (start_time : Z) : M Z :=
  now <- time_time ;; ret (now - start_time).

(** The guard of the three [upload_file] methods: the local file must exist;
    its size is the byte count of the transfer. *)
Definition local_file_size (local_path : string) : M Z :=
  ex <- path_exists local_path ;;
  if ex then stat_size local_path
  else raise (Exc FileNotFoundError ("Local file '" +:+ local_path +:+ "' not found")).

(** *** [connectors/s3_connector.py] *)

Definition s3_url (bucket key : string) : string :=
  "s3://" +:+ bucket +:+ "/" +:+ key.

Definition S3_authenticate (self : string) : M bool :=
  try_except
    ((if validate_aws_config config then ret tt
      else raise (Exc AuthenticationError "AWS credentials not configured properly")) ;;;
     call Boto3Client ;;;
     set_client self ;;;
     call Boto3Resource ;;;
     call S3ListBuckets ;;;
     log INFO "AWS S3 authentication successful" "" ;;;
     ret true)
    (fun e =>
       if is_credentials_error e
       then raise (Exc AuthenticationError ("AWS credentials error: " +:+ str_exc e))
       else if is_ClientError e
       then
         if Str.mem (error_code e) ["InvalidAccessKeyId"; "SignatureDoesNotMatch"]
         then raise (Exc AuthenticationError ("AWS authentication failed: " +:+ str_exc e))
         else raise (Exc ConnectionError ("AWS connection error: " +:+ str_exc e))
       else raise (Exc ConnectionError ("AWS connection failed: " +:+ str_exc e))).

Definition S3_upload_file (self local_path bucket remote_path : string) (kw : kwargs)
    : M TransferResult :=
  with_retry None None RETRIABLE_EXCEPTIONS
    (ensure_client S3_authenticate self ;;;
     start_time <- time_time ;;
     file_size <- local_file_size local_path ;;
     log_operation_start "s3_upload" ;;;
     try_except
       (call (S3UploadFile local_path bucket remote_path kw) ;;;
        duration <- elapsed_since start_time ;;
        log_operation_success "s3_upload" ;;;
        ret (result_ok local_path (s3_url bucket remote_path) file_size duration))
       (fun e =>
          if is_ClientError e
          then log_operation_error "s3_upload" ;;;
               ret (result_failed local_path (s3_url bucket remote_path)
                      ("S3 upload failed: " +:+ str_exc e))
          else raise e)).

Definition S3_download_file (self bucket remote_path local_path : string)
    : M TransferResult :=
  with_retry None None RETRIABLE_EXCEPTIONS
    (ensure_client S3_authenticate self ;;;
     start_time <- time_time ;;
     call (OsMkdirParents local_path) ;;;
     log_operation_start "s3_download" ;;;
     try_except
       (file_size <- call (S3HeadObject bucket remote_path) ;;
        call (S3DownloadFile bucket remote_path local_path) ;;;
        duration <- elapsed_since start_time ;;
        log_operation_success "s3_download" ;;;
        ret (result_ok (s3_url bucket remote_path) local_path file_size duration))
       (fun e =>
          if is_ClientError e
          then
            let error_msg :=
              if String.eqb (error_code e) "NoSuchKey"
              then "File '" +:+ s3_url bucket remote_path +:+ "' not found"
              else "S3 download failed: " +:+ str_exc e in
            log_operation_error "s3_download" ;;;
            ret (result_failed (s3_url bucket remote_path) local_path error_msg)
          else raise e)).

Definition S3_copy_file (self source_bucket source_path dest_bucket dest_path : string)
    (kw : kwargs) : M TransferResult :=
  with_retry None None RETRIABLE_EXCEPTIONS
    (ensure_client S3_authenticate self ;;;
     start_time <- time_time ;;
     log_operation_start "s3_copy" ;;;
     try_except
       (file_size <- call (S3HeadObject source_bucket source_path) ;;
        call (S3CopyObject source_bucket source_path dest_bucket dest_path kw) ;;;
        duration <- elapsed_since start_time ;;
        log_operation_success "s3_copy" ;;;
        ret (result_ok (s3_url source_bucket source_path)
               (s3_url dest_bucket dest_path) file_size duration))
       (fun e =>
          if is_ClientError e
          then log_operation_error "s3_copy" ;;;
               ret (result_failed (s3_url source_bucket source_path)
                      (s3_url dest_bucket dest_path)
                      ("S3 copy failed: " +:+ str_exc e))
          else raise e)).

Definition S3_delete_file (self bucket remote_path : string) : M bool :=
  with_retry None None RETRIABLE_EXCEPTIONS
    (ensure_client S3_authenticate self ;;;
     try_except
       (call (S3DeleteObject bucket remote_path) ;;;
        log INFO "File deleted from S3" "" ;;;
        ret true)
       (fun e =>
          if is_ClientError e
          then log ERROR "S3 delete failed" "" ;;; ret false
          else raise e)).

Definition S3_file_exists (self bucket remote_path : string) : M bool :=
  ensure_client S3_authenticate self ;;;
  try_except
    (call (S3HeadObject bucket remote_path) ;;;
     ret true)
    (fun e =>
       if is_ClientError e
       then if String.eqb (error_code e) "404" then ret false else raise e
       else raise e).

(** *** [connectors/azure_connector.py] *)

Definition azure_url (container blob : string) : string :=
  "azure://" +:+ container +:+ "/" +:+ blob.

Definition Azure_authenticate (self : string) : M bool :=
  try_except
    ((if validate_azure_config config then ret tt
      else raise (Exc AuthenticationError
                    "Azure Blob Storage credentials not configured properly")) ;;;
     (if Str.truthy (azure_storage_connection_string config)
      then call AzureFromConnectionString
      else call AzureBlobServiceClient) ;;;
     set_client self ;;;
     call AzureListContainers ;;;
     log INFO "Azure Blob Storage authentication successful" "" ;;;
     ret true)
    (fun e =>
       if is_ClientAuthenticationError e
       then raise (Exc AuthenticationError ("Azure authentication failed: " +:+ str_exc e))
       else raise (Exc ConnectionError ("Azure connection failed: " +:+ str_exc e))).

Definition Azure_upload_file (self local_path container remote_path : string)
    (kw : kwargs) : M TransferResult :=
  with_retry None None RETRIABLE_EXCEPTIONS
    (ensure_client Azure_authenticate self ;;;
     start_time <- time_time ;;
     file_size <- local_file_size local_path ;;
     log_operation_start "azure_upload" ;;;
     try_except
       (call (OsOpen local_path "rb") ;;;
        call (AzureUploadBlob local_path container remote_path kw) ;;;
        duration <- elapsed_since start_time ;;
        log_operation_success "azure_upload" ;;;
        ret (result_ok local_path (azure_url container remote_path) file_size duration))
       (fun e =>
          log_operation_error "azure_upload" ;;;
          ret (result_failed local_path (azure_url container remote_path)
                 ("Azure upload failed: " +:+ str_exc e)))).

Definition Azure_download_file (self container remote_path local_path : string)
    : M TransferResult :=
  with_retry None None RETRIABLE_EXCEPTIONS
    (ensure_client Azure_authenticate self ;;;
     start_time <- time_time ;;
     call (OsMkdirParents local_path) ;;;
     log_operation_start "azure_download" ;;;
     try_except
       (properties <- call (AzureGetBlobProperties container remote_path) ;;
        let file_size := blob_size properties in
        call (OsOpen local_path "wb") ;;;
        call (AzureDownloadBlob container remote_path local_path) ;;;
        call (OsWrite local_path) ;;;
        duration <- elapsed_since start_time ;;
        log_operation_success "azure_download" ;;;
        ret (result_ok (azure_url container remote_path) local_path file_size duration))
       (fun e =>
          let error_msg :=
            if is_ResourceNotFoundError e
            then "File '" +:+ azure_url container remote_path +:+ "' not found"
            else "Azure download failed: " +:+ str_exc e in
          log_operation_error "azure_download" ;;;
          ret (result_failed (azure_url container remote_path) local_path error_msg))).

(** [while copy_properties.copy.status == 'pending': time.sleep(1); ...]. *)
Fixpoint poll_copy (fuel : nat) (dest_container dest_path : string)
    (copy_properties : BlobProperties) : M BlobProperties :=
  if String.eqb (copy_status copy_properties) "pending"
  then
    match fuel with
    | O => hang
    | S fuel' =>
        time_sleep 1 ;;;
        copy_properties <- call (AzureGetBlobProperties dest_container dest_path) ;;
        poll_copy fuel' dest_container dest_path copy_properties
    end
  else ret copy_properties.

Definition Azure_copy_file
    (self source_container source_path dest_container dest_path : string)
    : M TransferResult :=
  with_retry None None RETRIABLE_EXCEPTIONS
    (ensure_client Azure_authenticate self ;;;
     start_time <- time_time ;;
     log_operation_start "azure_copy" ;;;
     try_except
       (source_properties <- call (AzureGetBlobProperties source_container source_path) ;;
        let file_size := blob_size source_properties in
        call (AzureStartCopyFromUrl source_container source_path dest_container dest_path) ;;;
        copy_properties <- call (AzureGetBlobProperties dest_container dest_path) ;;
        copy_properties <- poll_copy poll_fuel dest_container dest_path copy_properties ;;
        (if String.eqb (copy_status copy_properties) "success" then ret tt
         else raise (Exc CloudStorageError
                       ("Copy failed with status: " +:+ copy_status copy_properties))) ;;;
        duration <- elapsed_since start_time ;;
        log_operation_success "azure_copy" ;;;
        ret (result_ok (azure_url source_container source_path)
               (azure_url dest_container dest_path) file_size duration))
       (fun e =>
          log_operation_error "azure_copy" ;;;
          ret (result_failed (azure_url source_container source_path)
                 (azure_url dest_container dest_path)
                 ("Azure copy failed: " +:+ str_exc e)))).

Definition Azure_delete_file (self container remote_path : string) : M bool :=
  with_retry None None RETRIABLE_EXCEPTIONS
    (ensure_client Azure_authenticate self ;;;
     try_except
       (call (AzureDeleteBlob container remote_path) ;;;
        log INFO "File deleted from Azure" "" ;;;
        ret true)
       (fun e => log ERROR "Azure delete failed" "" ;;; ret false)).

Definition Azure_file_exists (self container remote_path : string) : M bool :=
  ensure_client Azure_authenticate self ;;;
  try_except
    (call (AzureBlobExists container remote_path))
    (fun e => ret false).

(** *** [connectors/gcp_connector.py] *)

Definition gcs_url (bucket blob : string) : string :=
  "gcs://" +:+ bucket +:+ "/" +:+ blob.

Definition GCP_authenticate (self : string) : M bool :=
  try_except
    (valid <- validate_gcp_config config ;;
     (if valid then ret tt
      else raise (Exc AuthenticationError "GCP credentials not configured properly")) ;;;
     call GcpClient ;;;
     set_client self ;;;
     call GcpListBuckets ;;;
     log INFO "Google Cloud Storage authentication successful" "" ;;;
     ret true)
    (fun e =>
       if is_DefaultCredentialsError e
       then raise (Exc AuthenticationError ("GCP credentials error: " +:+ str_exc e))
       else raise (Exc ConnectionError ("GCP connection failed: " +:+ str_exc e))).

Definition GCP_upload_file (self local_path bucket_name remote_path : string)
    (kw : kwargs) : M TransferResult :=
  with_retry None None RETRIABLE_EXCEPTIONS
    (ensure_client GCP_authenticate self ;;;
     start_time <- time_time ;;
     file_size <- local_file_size local_path ;;
     log_operation_start "gcp_upload" ;;;
     try_except
       (call (GcpUploadFromFilename local_path bucket_name remote_path kw) ;;;
        duration <- elapsed_since start_time ;;
        log_operation_success "gcp_upload" ;;;
        ret (result_ok local_path (gcs_url bucket_name remote_path) file_size duration))
       (fun e =>
          log_operation_error "gcp_upload" ;;;
          ret (result_failed local_path (gcs_url bucket_name remote_path)
                 ("GCP upload failed: " +:+ str_exc e)))).

(** [blob.size or 0]. *)
Definition size_or_0 (size : option Z) : Z := default 0 size.

Definition GCP_download_file (self bucket_name remote_path local_path : string)
    : M TransferResult :=
  with_retry None None RETRIABLE_EXCEPTIONS
    (ensure_client GCP_authenticate self ;;;
     start_time <- time_time ;;
     call (OsMkdirParents local_path) ;;;
     log_operation_start "gcp_download" ;;;
     try_except
       (ex <- call (GcpBlobExists bucket_name remote_path) ;;
        (if ex then ret tt
         else raise (Exc FileNotFoundError
                       ("File '" +:+ gcs_url bucket_name remote_path +:+ "' not found"))) ;;;
        size <- call (GcpBlobReload bucket_name remote_path) ;;
        let file_size := size_or_0 size in
        call (GcpDownloadToFilename bucket_name remote_path local_path) ;;;
        duration <- elapsed_since start_time ;;
        log_operation_success "gcp_download" ;;;
        ret (result_ok (gcs_url bucket_name remote_path) local_path file_size duration))
       (fun e =>
          let error_msg :=
            if is_NotFound e
            then "File '" +:+ gcs_url bucket_name remote_path +:+ "' not found"
            else "GCP download failed: " +:+ str_exc e in
          log_operation_error "gcp_download" ;;;
          ret (result_failed (gcs_url bucket_name remote_path) local_path error_msg))).

Definition GCP_copy_file (self source_bucket source_path dest_bucket dest_path : string)
    : M TransferResult :=
  with_retry None None RETRIABLE_EXCEPTIONS
    (ensure_client GCP_authenticate self ;;;
     start_time <- time_time ;;
     log_operation_start "gcp_copy" ;;;
     try_except
       (ex <- call (GcpBlobExists source_bucket source_path) ;;
        (if ex then ret tt
         else raise (Exc FileNotFoundError
                       ("Source file '" +:+ gcs_url source_bucket source_path
                        +:+ "' not found"))) ;;;
        size <- call (GcpBlobReload source_bucket source_path) ;;
        let file_size := size_or_0 size in
        call (GcpCopyBlob source_bucket source_path dest_bucket dest_path) ;;;
        duration <- elapsed_since start_time ;;
        log_operation_success "gcp_copy" ;;;
        ret (result_ok (gcs_url source_bucket source_path)
               (gcs_url dest_bucket dest_path) file_size duration))
       (fun e =>
          log_operation_error "gcp_copy" ;;;
          ret (result_failed (gcs_url source_bucket source_path)
                 (gcs_url dest_bucket dest_path)
                 ("GCP copy failed: " +:+ str_exc e)))).

Definition GCP_delete_file (self bucket_name remote_path : string) : M bool :=
  with_retry None None RETRIABLE_EXCEPTIONS
    (ensure_client GCP_authenticate self ;;;
     try_except
       (call (GcpBlobDelete bucket_name remote_path) ;;;
        log INFO "File deleted from GCP" "" ;;;
        ret true)
       (fun e => log ERROR "GCP delete failed" "" ;;; ret false)).

Definition GCP_file_exists (self bucket_name remote_path : string) : M bool :=
  ensure_client GCP_authenticate self ;;;
  try_except
    (call (GcpBlobExists bucket_name remote_path))
    (fun e => ret false).

(** *** Method dispatch on the class of [self] *)

Definition authenticate (self : string) : M bool :=
  c <- get_self self ;;
  match provider c with
  | AWS_S3 => S3_authenticate self
  | AZURE_BLOB => Azure_authenticate self
  | GCP_STORAGE => GCP_authenticate self
  end.

Definition upload_file (self local_path container remote_path : string) (kw : kwargs)
    : M TransferResult :=
  c <- get_self self ;;
  match provider c with
  | AWS_S3 => S3_upload_file self local_path container remote_path kw
  | AZURE_BLOB => Azure_upload_file self local_path container remote_path kw
  | GCP_STORAGE => GCP_upload_file self local_path container remote_path kw
  end.

Definition download_file (self container remote_path local_path : string)
    : M TransferResult :=
  c <- get_self self ;;
  match provider c with
  | AWS_S3 => S3_download_file self container remote_path local_path
  | AZURE_BLOB => Azure_download_file self container remote_path local_path
  | GCP_STORAGE => GCP_download_file self container remote_path local_path
  end.

Definition copy_file (self source_container source_path dest_container dest_path : string)
    (kw : kwargs) : M TransferResult :=
  c <- get_self self ;;
  match provider c with
  | AWS_S3 => S3_copy_file self source_container source_path dest_container dest_path kw
  | AZURE_BLOB => Azure_copy_file self source_container source_path dest_container dest_path
  | GCP_STORAGE => GCP_copy_file self source_container source_path dest_container dest_path
  end.

Definition delete_file (self container remote_path : string) : M bool :=
  c <- get_self self ;;
  match provider c with
  | AWS_S3 => S3_delete_file self container remote_path
  | AZURE_BLOB => Azure_delete_file self container remote_path
  | GCP_STORAGE => GCP_delete_file self container remote_path
  end.

Definition file_exists (self container remote_path : string) : M bool :=
  c <- get_self self ;;
  match provider c with
  | AWS_S3 => S3_file_exists self container remote_path
  | AZURE_BLOB => Azure_file_exists self container remote_path
  | GCP_STORAGE => GCP_file_exists self container remote_path
  end.

(** *** [connectors/__init__.py] *)

Definition get_connector_by_name (provider_name : string) : exc + Connector :=
  let provider_name := Str.strip (Str.lower provider_name) in
  if Str.mem provider_name ["aws"; "s3"; "aws_s3"]
  then inr (mkConnector AWS_S3 false)
  else if Str.mem provider_name ["azure"; "blob"; "azure_blob"]
  then inr (mkConnector AZURE_BLOB false)
  else if Str.mem provider_name ["gcp"; "gcs"; "google"; "gcp_storage"]
  then inr (mkConnector GCP_STORAGE false)
  else inl (Exc ValueError
              ("Unsupported provider '" +:+ provider_name
               +:+ "'. Supported: ['aws/s3', 'azure/blob', 'gcp/gcs']")).

(** *** [transfer_manager.py] *)

(** [urllib.parse.urlparse], whatever the installed library computes. *)
Variable urlparse : string -> exc + Url.ParseResult.

(** [self._temp_dir]. *)
Definition _temp_dir : string := "temp_transfers".

(** [MultiCloudTransferManager._parse_cloud_url]: it reads no state. *)
Definition _parse_cloud_url (url : string) : exc + (string * string * string) :=
  match urlparse url with
  | inl e => inl e
  | inr parsed =>
      let scheme := Str.lower (Url.scheme parsed) in
      let provider :=
        if Str.mem scheme ["s3"] then inr "aws"
        else if Str.mem scheme ["azure"] then inr "azure"
        else if Str.mem scheme ["gcs"; "gs"] then inr "gcp"
        else inl (Exc ValueError ("Unsupported URL scheme: " +:+ scheme)) in
      match provider with
      | inl e => inl e
      | inr provider =>
          let container := Url.netloc parsed in
          let path := Str.lstrip_slash (Url.path parsed) in
          inr (provider, container, path)
      end
  end.

(** A computation without effects, as a step of [M]. *)
Definition lift {A : Type} (r : exc + A) : M A :=
  match r with
  | inl e => raise e
  | inr a => ret a
  end.

Definition store_connector (provider : string) (c : Connector) : M unit :=
  fun st =>
    (Returns tt, mkState (env st) (<[provider := c]> (connectors st)) (events st)).

(** [_get_connector]: the connector is stored before it authenticates, and
    the object returned is the one the dict holds. *)
Definition _get_connector (provider : string) : M string :=
  (fun st =>
     match connectors st !! provider with
     | Some _ => ret tt st
     | None =>
         (c <- lift (get_connector_by_name provider) ;;
          store_connector provider c ;;;
          ok <- authenticate provider ;;
          if ok then ret tt
          else raise (Exc Exception ("Failed to authenticate with " +:+ provider))) st
     end) ;;;
  get_self provider ;;;
  ret provider.

Definition cloud_url (provider container path : string) : string :=
  provider +:+ "://" +:+ container +:+ "/" +:+ path.

(** The [finally] block of [_copy_via_temp]. *)
Definition cleanup_temp (temp_file_path : string) : M unit :=
  ex <- path_exists temp_file_path ;;
  if ex
  then try_except (unlink temp_file_path)
         (fun e => log WARNING "Failed to delete temp file" temp_file_path)
  else ret tt.

(** The name of the staging file of a transfer that starts at [now]. *)
Definition temp_path (now : Z) (source_path : string) : string :=
  _temp_dir +:+ "/" +:+ ("temp_" +:+ Str.of_Z now +:+ "_" +:+ Str.basename source_path).

Definition _copy_via_temp
    (source_provider source_container source_path : string)
    (dest_provider dest_container dest_path : string) (kw : kwargs)
    : M TransferResult :=
  start_time <- time_time ;;
  now <- time_time ;;
  let temp_file_path := temp_path now source_path in
  try_finally
    (source_connector <- _get_connector source_provider ;;
     download_result <-
       download_file source_connector source_container source_path temp_file_path ;;
     if negb (success download_result)
     then ret (result_failed
                 (cloud_url source_provider source_container source_path)
                 (cloud_url dest_provider dest_container dest_path)
                 ("Download failed: " +:+ default "None" (error_message download_result)))
     else
       let total_bytes_transferred := bytes_transferred download_result in
       dest_connector <- _get_connector dest_provider ;;
       upload_result <-
         upload_file dest_connector temp_file_path dest_container dest_path kw ;;
       if negb (success upload_result)
       then ret (result_failed
                   (cloud_url source_provider source_container source_path)
                   (cloud_url dest_provider dest_container dest_path)
                   ("Upload failed: " +:+ default "None" (error_message upload_result)))
       else
         total_duration <- elapsed_since start_time ;;
         ret (result_ok
                (cloud_url source_provider source_container source_path)
                (cloud_url dest_provider dest_container dest_path)
                total_bytes_transferred total_duration))
    (cleanup_temp temp_file_path).

(** The [try] block of [copy_file_direct], after both URLs are parsed. *)
Definition copy_parsed
    (source_provider source_container source_path : string)
    (dest_provider dest_container dest_path : string) (kw : kwargs)
    : M TransferResult :=
  result <-
    (if String.eqb source_provider dest_provider
     then
       connector <- _get_connector source_provider ;;
       copy_file connector source_container source_path dest_container dest_path kw
     else
       _copy_via_temp source_provider source_container source_path
         dest_provider dest_container dest_path kw) ;;
  (if success result
   then log_operation_success "multi_cloud_copy"
   else log_operation_error "multi_cloud_copy") ;;;
  ret result.

Definition copy_file_direct (source_url dest_url : string) (kw : kwargs)
    : M TransferResult :=
  start_time <- time_time ;;
  source <- lift (_parse_cloud_url source_url) ;;
  dest <- lift (_parse_cloud_url dest_url) ;;
  let '(source_provider, source_container, source_path) := source in
  let '(dest_provider, dest_container, dest_path) := dest in
  log_operation_start "multi_cloud_copy" ;;;
  try_except
    (copy_parsed source_provider source_container source_path
       dest_provider dest_container dest_path kw)
    (fun e =>
       let error_msg := "Multi-cloud copy failed: " +:+ str_exc e in
       log_operation_error "multi_cloud_copy" ;;;
       duration <- elapsed_since start_time ;;
       ret (mkTransferResult false source_url dest_url 0 duration (Some error_msg))).

(** The [for] loop of [batch_copy] over the transfers still to run. *)
Fixpoint batch_loop (transfers : list (string * string)) (kw : kwargs)
    (results : list TransferResult) : M (list TransferResult) :=
  match transfers with
  | [] => ret results
  | (source_url, dest_url) :: rest =>
      log INFO "Processing transfer" source_url ;;;
      result <- copy_file_direct source_url dest_url kw ;;
      let results := (results ++ [result])%list in
      (if success result then ret tt
       else log ERROR "Transfer failed" source_url) ;;;
      batch_loop rest kw results
  end.

Definition batch_copy (transfers : list (string * string)) (kw : kwargs)
    : M (list TransferResult) :=
  results <- batch_loop transfers kw [] ;;
  log INFO "Batch transfer completed" "" ;;;
  ret results.

(** * Properties *)

(** ** The circuit breaker *)

(** A breaker that is not closed has reached its threshold and has a
    failure time. *)
Definition tripped (self : CircuitBreaker) : Prop :=
  state self <> CLOSED ->
  failure_threshold self <= failure_count self /\ is_Some (last_failure_time self).

Lemma gate_cases (self self' : CircuitBreaker) (now : Z) :
  circuit_gate self now = inl self' ->
  (state self <> OPEN /\ self' = self)
  \/ (state self = OPEN /\ self' = set_state HALF_OPEN self).
Proof.
  unfold circuit_gate. destruct (state self) eqn:Hs.
  - intros [= <-]. left. split; congruence.
  - destruct (last_failure_time self); [|discriminate].
    destruct (_ <? _); [|discriminate]. intros [= <-]. now right.
  - intros [= <-]. left. split; congruence.
Qed.

Lemma gate_not_open (self self' : CircuitBreaker) (now : Z) :
  circuit_gate self now = inl self' -> state self' <> OPEN.
Proof.
  intros H. destruct (gate_cases _ _ _ H) as [[Hs ->]|[_ ->]]; [exact Hs|discriminate].
Qed.

Lemma tripped_gate (self self' : CircuitBreaker) (now : Z) :
  tripped self -> circuit_gate self now = inl self' -> tripped self'.
Proof.
  intros Ht H. destruct (gate_cases _ _ _ H) as [[_ ->]|[Hs ->]]; [exact Ht|].
  intros _. apply Ht. congruence.
Qed.

Lemma tripped_on_success (self : CircuitBreaker) : tripped self -> tripped (on_success self).
Proof.
  unfold on_success, tripped. destruct (state self) eqn:Hs; simpl; try rewrite Hs; auto.
  intros _ H. congruence.
Qed.

Lemma on_failure_state (self : CircuitBreaker) (now : Z) :
  failure_count (on_failure self now) = failure_count self + 1
  /\ last_failure_time (on_failure self now) = Some now
  /\ failure_threshold (on_failure self now) = failure_threshold self
  /\ timeout (on_failure self now) = timeout self
  /\ state (on_failure self now) =
       if failure_threshold self <=? failure_count self + 1 then OPEN else state self.
Proof.
  unfold on_failure. simpl. destruct (_ <=? _); simpl; auto.
Qed.

Lemma tripped_on_failure (self : CircuitBreaker) (now : Z) :
  tripped self -> tripped (on_failure self now).
Proof.
  intros Ht. destruct (on_failure_state self now) as (Hc & Hl & Hth & _ & Hs).
  unfold tripped. rewrite Hc, Hl, Hth, Hs.
  destruct (Z.leb_spec (failure_threshold self) (failure_count self + 1)).
  - intros _. split; [lia|eauto].
  - intros Hn. destruct (Ht Hn). lia.
Qed.

Lemma reachable_tripped (self : CircuitBreaker) : reachable self -> tripped self.
Proof.
  induction 1 as [th to|self self' now _ IH Hg|A self func st _ IH].
  - intros H. now elim H.
  - eapply tripped_gate; eauto.
  - unfold CircuitBreaker_call.
    destruct (circuit_gate self (clock (env st))) as [self1|e] eqn:Hg; simpl; [|exact IH].
    pose proof (tripped_gate _ _ _ IH Hg) as H1.
    destruct (func st) as [[a|e|] st1]; simpl.
    + now apply tripped_on_success.
    + now apply tripped_on_failure.
    + exact H1.
Qed.

(** C5: the breaker is the state machine Closed / Open / HalfOpen.  From
    Closed a failing call opens it exactly when the count reaches the
    threshold; from Open, once more than [timeout] has passed since the last
    failure, the call is made as from HalfOpen; a success in HalfOpen closes
    it with the count at 0; a failure in HalfOpen opens it again with the
    failure time set to the time of that failure; and in Open before the
    timeout the call raises "Circuit breaker is OPEN", whatever [func] is,
    with the breaker and the state untouched. *)
Theorem circuit_breaker_state_machine (self : CircuitBreaker) :
  reachable self ->
  forall (A : Type) (func : M A) (st : State),
    let r := CircuitBreaker_call self func st in
    let self' := snd (fst r) in
    (state self = CLOSED -> forall e st1, func st = (Raises e, st1) ->
       failure_count self' = failure_count self + 1
       /\ (state self' = OPEN <-> failure_threshold self <= failure_count self'))
    /\ (state self = OPEN -> forall t, last_failure_time self = Some t ->
         timeout self < clock (env st) - t ->
         circuit_gate self (clock (env st)) = inl (set_state HALF_OPEN self)
         /\ r = CircuitBreaker_call (set_state HALF_OPEN self) func st)
    /\ (state self = HALF_OPEN -> forall a st1, func st = (Returns a, st1) ->
         r = (Returns a, set_failure_count 0 (set_state CLOSED self), st1))
    /\ (state self = HALF_OPEN -> forall e st1, func st = (Raises e, st1) ->
         fst (fst r) = Raises e
         /\ state self' = OPEN
         /\ last_failure_time self' = Some (clock (env st1)))
    /\ (state self = OPEN -> forall t, last_failure_time self = Some t ->
         clock (env st) - t <= timeout self ->
         forall (B : Type) (other : M B),
           r = (Raises (Exc builtins_ConnectionError "Circuit breaker is OPEN"), self, st)
           /\ CircuitBreaker_call self other st
              = (Raises (Exc builtins_ConnectionError "Circuit breaker is OPEN"), self, st)).
Proof.
  intros Hr A func st r self'. pose proof (reachable_tripped _ Hr) as Ht.
  subst self' r. unfold CircuitBreaker_call, circuit_gate.
  split; [|split; [|split; [|split]]].
  - intros Hs e st1 Hf. rewrite Hs, Hf. simpl.
    destruct (on_failure_state self (clock (env st1))) as (Hc & _ & _ & _ & Hst).
    rewrite Hst, Hc, Hs. split; [reflexivity|].
    destruct (Z.leb_spec (failure_threshold self) (failure_count self + 1));
      split; intros; (reflexivity || lia || discriminate).
  - intros Hs t Hl Hlt. rewrite Hs, Hl.
    destruct (Z.ltb_spec (timeout self) (clock (env st) - t)); [|lia].
    split; reflexivity.
  - intros Hs a st1 Hf. rewrite Hs, Hf. unfold on_success. rewrite Hs. reflexivity.
  - intros Hs e st1 Hf. rewrite Hs, Hf. simpl.
    destruct (on_failure_state self (clock (env st1))) as (_ & Hl & _ & _ & Hst).
    rewrite Hst, Hl. repeat split.
    destruct (Z.leb_spec (failure_threshold self) (failure_count self + 1)); [reflexivity|].
    destruct Ht as [Ht _]; [congruence|lia].
  - intros Hs t Hl Hle B other. rewrite Hs, Hl.
    destruct (Z.ltb_spec (timeout self) (clock (env st) - t)); [lia|].
    split; reflexivity.
Qed.

Lemma closed_call (A : Type) (self : CircuitBreaker) (func : M A) (st : State) :
  state self = CLOSED ->
  CircuitBreaker_call self func st =
    match func st with
    | (Returns a, st1) => (Returns a, self, st1)
    | (Raises e, st1) =>
        (Raises e, on_failure self (clock (env st1)),
         if failure_threshold self <=? failure_count self + 1
         then record (EvLog WARNING "Circuit breaker opened" "") st1
         else st1)
    | (Hangs, st1) => (Hangs, self, st1)
    end.
Proof.
  intros Hs. unfold CircuitBreaker_call, circuit_gate, on_success. rewrite Hs.
  destruct (func st) as [[a|e|] st1]; try reflexivity.
  - now rewrite Hs.
  - destruct (on_failure_state self (clock (env st1))) as (Hc & _ & Hth & _ & _).
    cbv zeta. now rewrite Hc, Hth.
Qed.

Lemma run_calls_closed (A : Type) (funcs : list (M A)) :
  forall (self : CircuitBreaker) (st : State),
    state self = CLOSED ->
    let r := run_calls self funcs st in
    failure_count self + failures (fst (fst r)) < failure_threshold self ->
    state (snd (fst r)) = CLOSED
    /\ failure_count (snd (fst r)) = failure_count self + failures (fst (fst r))
    /\ failure_threshold (snd (fst r)) = failure_threshold self.
Proof.
  induction funcs as [|func rest IH]; intros self st Hs; simpl.
  - intros _. repeat split; [assumption|lia].
  - rewrite (closed_call _ _ _ _ Hs).
    destruct (func st) as [[a|e|] st1]; simpl.
    + specialize (IH self st1 Hs). simpl in IH.
      destruct (run_calls self rest st1) as [[os self2] st2]; simpl in *.
      exact IH.
    + destruct (on_failure_state self (clock (env st1))) as (Hc & _ & Hth & _ & Hst).
      match goal with
      | |- context [run_calls ?c rest ?s] =>
          specialize (IH c s); simpl in IH;
          destruct (run_calls c rest s) as [[os self2] st2]
      end; simpl in *.
      intros Hlt. rewrite Hc, Hth, Hst, Hs in IH.
      assert (0 <= failures os) by (clear; induction os as [|o os IHos]; simpl;
                                    [lia|destruct (is_raise o); lia]).
      destruct (Z.leb_spec (failure_threshold self) (failure_count self + 1)) as [Hle|Hgt];
        [lia|].
      destruct IH as (H1 & H2 & H3); [reflexivity|lia|].
      repeat split; [assumption|lia|assumption].
    + intros _. repeat split; [assumption|lia].
Qed.

(** C10: a success while the breaker is Closed leaves the failure count as
    it is; a call lowers the count only as a success made in HalfOpen, to 0;
    hence through any run of calls that starts Closed (successes and failures
    in any order) the count is the count at the start plus the number of
    failures, and the failure that brings this sum to the threshold opens the
    breaker. *)
Theorem closed_success_keeps_failure_count
    (A : Type) (self : CircuitBreaker) (funcs : list (M A)) (st : State) :
  (forall (func : M A) a st1, state self = CLOSED -> func st = (Returns a, st1) ->
     CircuitBreaker_call self func st = (Returns a, self, st1))
  /\ (forall func : M A,
       let r := CircuitBreaker_call self func st in
       failure_count (snd (fst r)) = failure_count self
       \/ (failure_count (snd (fst r)) = failure_count self + 1
           /\ is_raise (fst (fst r)) = true)
       \/ (failure_count (snd (fst r)) = 0
           /\ exists self1 a st1,
                circuit_gate self (clock (env st)) = inl self1
                /\ state self1 = HALF_OPEN
                /\ func st = (Returns a, st1)))
  /\ (state self = CLOSED ->
      let r := run_calls self funcs st in
      failure_count self + failures (fst (fst r)) < failure_threshold self ->
      state (snd (fst r)) = CLOSED
      /\ failure_count (snd (fst r)) = failure_count self + failures (fst (fst r)))
  /\ (state self = CLOSED ->
      let r := run_calls self funcs st in
      failure_count self + failures (fst (fst r)) < failure_threshold self ->
      forall (func : M A) e st2, func (snd r) = (Raises e, st2) ->
        failure_threshold self <= failure_count self + failures (fst (fst r)) + 1 ->
        state (snd (fst (CircuitBreaker_call (snd (fst r)) func (snd r)))) = OPEN).
Proof.
  split; [|split; [|split]].
  - intros func a st1 Hs Hf. rewrite (closed_call _ _ _ _ Hs), Hf. reflexivity.
  - intros func r. subst r. unfold CircuitBreaker_call.
    destruct (circuit_gate self (clock (env st))) as [self1|e] eqn:Hg; simpl; [|now left].
    assert (failure_count self1 = failure_count self) as Hc
      by (destruct (gate_cases _ _ _ Hg) as [[_ ->]|[_ ->]]; reflexivity).
    destruct (func st) as [[a|e|] st1] eqn:Hf; simpl.
    + unfold on_success. destruct (state self1) eqn:Hs1; simpl; auto.
      right. right. split; [reflexivity|]. now exists self1, a, st1.
    + right. left. split; [|reflexivity].
      rewrite <- Hc. apply (on_failure_state self1).
    + now left.
  - intros Hs r Hlt. destruct (run_calls_closed A funcs self st Hs Hlt) as (H1 & H2 & _).
    now split.
  - intros Hs r Hlt func e st2 Hf Hle.
    destruct (run_calls_closed A funcs self st Hs Hlt) as (H1 & H2 & H3).
    fold r in H1, H2, H3. rewrite (closed_call _ _ _ _ H1), Hf. simpl.
    destruct (on_failure_state (snd (fst r)) (clock (env st2))) as (_ & _ & _ & _ & Hst).
    rewrite Hst, H2, H3.
    destruct (Z.leb_spec (failure_threshold self)
                (failure_count self + failures (fst (fst r)) + 1)); [reflexivity|lia].
Qed.

(** ** The retry wrappers *)

Lemma time_sleep_nonneg (seconds : Z) (st : State) :
  0 <= seconds ->
  time_sleep seconds st
  = (Returns tt,
     record (EvCall (TimeSleep seconds))
       (with_env (snd (sdk (TimeSleep seconds) (env st))) st)).
Proof.
  intros H. unfold time_sleep. destruct (Z.ltb_spec seconds 0); [lia|].
  now destruct (sdk _ _).
Qed.

Lemma time_sleep_negative (seconds : Z) (st : State) :
  seconds < 0 ->
  time_sleep seconds st = (Raises (Exc ValueError "sleep length must be non-negative"), st).
Proof. intros H. unfold time_sleep. now destruct (Z.ltb_spec seconds 0); [|lia]. Qed.


Lemma backoff_negative (delay attempt : Z) :
  delay < 0 -> 1 <= attempt -> Z.min (delay * 2 ^ (attempt - 1)) 60 < 0.
Proof.
  intros H Ha. assert (0 < 2 ^ (attempt - 1)) by (apply Z.pow_pos_nonneg; lia). nia.
Qed.

Lemma retrying_unfold (A : Type) (fuel : nat) (max_attempts delay : Z)
    (retry_on : exc -> bool) (func : M A) (attempt_number : Z) (st : State) :
  retrying fuel max_attempts delay retry_on func attempt_number st =
    match func st with
    | (Raises e, st') =>
        if negb (retry_on e) then (Raises e, st')
        else if stop_after_attempt max_attempts attempt_number
        then (Raises (RetryError e), st')
        else
          match fuel with
          | O => (Hangs, st')
          | S fuel' =>
              (before_sleep_log ;;;
               time_sleep (wait_exponential delay 60 attempt_number) ;;;
               retrying fuel' max_attempts delay retry_on func (attempt_number + 1)) st'
          end
    | r => r
    end.
Proof. destruct fuel; reflexivity. Qed.

(** The hook raises before the loop sleeps: a decorated call is one call of
    [func], and what it ends with is decided by the outcome of that call. *)
Lemma with_retry_unfold (A : Type) (max_attempts delay : option Z)
    (exceptions : exc -> bool) (func : M A) (st : State) :
  with_retry max_attempts delay exceptions func st =
    match func st with
    | (Raises e, st') =>
        if negb (exceptions e) then (Raises e, st')
        else if stop_after_attempt (py_or max_attempts (max_retries config)) 1
        then (Raises (RetryError e), st')
        else (Raises before_sleep_error, st')
    | r => r
    end.
Proof.
  unfold with_retry. rewrite retrying_unfold.
  destruct (func st) as [[a|e|] st']; try reflexivity.
  destruct (negb (exceptions e)); [reflexivity|].
  unfold stop_after_attempt.
  destruct (Z.leb_spec (py_or max_attempts (max_retries config)) 1); [reflexivity|].
  destruct (Z.to_nat (py_or max_attempts (max_retries config) - 1)) eqn:Hfuel; [lia|].
  reflexivity.
Qed.

(** What a decorated call can end with: a value or an exception of [func],
    [RetryError] around a retriable exception of [func], or the exception
    of the hook after a retriable exception of [func]; it hangs only if
    [func] does. *)
Lemma with_retry_outcome (A : Type) (max_attempts delay : option Z)
    (exceptions : exc -> bool) (func : M A) (st : State) :
  match fst (with_retry max_attempts delay exceptions func st) with
  | Returns a => exists s, fst (func s) = Returns a
  | Raises x =>
      (exceptions x = false /\ exists s, fst (func s) = Raises x)
      \/ (exists e s, x = RetryError e /\ exceptions e = true /\ fst (func s) = Raises e)
      \/ (x = before_sleep_error
          /\ exists e s, exceptions e = true /\ fst (func s) = Raises e)
  | Hangs => exists s, fst (func s) = Hangs
  end.
Proof.
  rewrite with_retry_unfold. destruct (func st) as [[a|e|] st'] eqn:Hf; simpl;
    try (exists st; now rewrite Hf).
  destruct (exceptions e) eqn:He; simpl.
  - destruct (stop_after_attempt _ 1); simpl.
    + right. left. exists e, st. now rewrite Hf.
    + right. right. split; [reflexivity|]. exists e, st. now rewrite Hf.
  - left. split; [assumption|]. exists st. now rewrite Hf.
Qed.

Lemma with_retry_first_attempt (A : Type) (max_attempts delay : option Z)
    (exceptions : exc -> bool) (func : M A) (st : State) :
  match func st with
  | (Returns a, st') => with_retry max_attempts delay exceptions func st = (Returns a, st')
  | (Raises e, st') =>
      exceptions e = false ->
      with_retry max_attempts delay exceptions func st = (Raises e, st')
  | (Hangs, st') => with_retry max_attempts delay exceptions func st = (Hangs, st')
  end.
Proof.
  rewrite with_retry_unfold. destruct (func st) as [[a|e|] st']; try reflexivity.
  intros He. now rewrite He.
Qed.


Lemma seqZ_head (m n : Z) : 0 < n -> seqZ m n = m :: seqZ (m + 1) (n - 1).
Proof. intros H. rewrite seqZ_cons by lia. f_equal. Qed.





(** ** Reasoning on computations of [M] *)

(** Every value [m] returns satisfies [P]. *)
Definition rets {A : Type} (P : A -> Prop) (m : M A) : Prop :=
  forall st, match fst (m st) with Returns a => P a | _ => True end.

(** [m] comes back, from every state. *)
Definition halts {A : Type} (m : M A) : Prop :=
  forall st, fst (m st) <> Hangs.

Lemma rets_ret (A : Type) (P : A -> Prop) (a : A) : P a -> rets P (ret a).
Proof. intros H st. exact H. Qed.

Lemma rets_raise (A : Type) (P : A -> Prop) (e : exc) : rets P (raise e).
Proof. intros st. exact I. Qed.

Lemma rets_bind_with (A B : Type) (Q : A -> Prop) (P : B -> Prop)
    (m : M A) (k : A -> M B) :
  rets Q m -> (forall a, Q a -> rets P (k a)) -> rets P (bind m k).
Proof.
  intros Hm Hk st. unfold bind. specialize (Hm st).
  destruct (m st) as [[a|e|] st']; simpl in *; try exact I.
  apply (Hk a Hm).
Qed.

Lemma rets_bind (A B : Type) (P : B -> Prop) (m : M A) (k : A -> M B) :
  (forall a, rets P (k a)) -> rets P (bind m k).
Proof.
  intros Hk. apply (rets_bind_with A B (fun _ => True)); [|auto].
  intros st. now destruct (fst (m st)).
Qed.

Lemma rets_try_except (A : Type) (P : A -> Prop) (body : M A) (handler : exc -> M A) :
  rets P body -> (forall e, rets P (handler e)) -> rets P (try_except body handler).
Proof.
  intros Hb Hh st. unfold try_except. specialize (Hb st).
  destruct (body st) as [[a|e|] st']; simpl in *; try assumption.
  apply Hh.
Qed.

Lemma rets_try_finally (A : Type) (P : A -> Prop) (body : M A) (cleanup : M unit) :
  rets P body -> rets P (try_finally body cleanup).
Proof.
  intros Hb st. unfold try_finally. specialize (Hb st).
  destruct (body st) as [[a|e|] st']; simpl in *; try exact I;
    destruct (cleanup st') as [[u|e'|] st'']; simpl; auto.
Qed.

Lemma rets_with_retry (A : Type) (P : A -> Prop) (max_attempts delay : option Z)
    (exceptions : exc -> bool) (func : M A) :
  rets P func -> rets P (with_retry max_attempts delay exceptions func).
Proof.
  intros Hf st. pose proof (with_retry_outcome A max_attempts delay exceptions func st) as H.
  destruct (fst (with_retry max_attempts delay exceptions func st)); try exact I.
  destruct H as [s Hs]. specialize (Hf s). now rewrite Hs in Hf.
Qed.

Lemma halts_ret (A : Type) (a : A) : halts (ret a).
Proof. intros st. discriminate. Qed.

Lemma halts_raise (A : Type) (e : exc) : halts (@raise A e).
Proof. intros st. discriminate. Qed.

Lemma halts_bind (A B : Type) (m : M A) (k : A -> M B) :
  halts m -> (forall a, halts (k a)) -> halts (bind m k).
Proof.
  intros Hm Hk st. unfold bind. specialize (Hm st).
  destruct (m st) as [[a|e|] st']; simpl in *; try discriminate; [apply Hk|contradiction].
Qed.

Lemma halts_try_except (A : Type) (body : M A) (handler : exc -> M A) :
  halts body -> (forall e, halts (handler e)) -> halts (try_except body handler).
Proof.
  intros Hb Hh st. unfold try_except. specialize (Hb st).
  destruct (body st) as [[a|e|] st']; simpl in *; try discriminate; [apply Hh|contradiction].
Qed.

Lemma halts_try_finally (A : Type) (body : M A) (cleanup : M unit) :
  halts body -> halts cleanup -> halts (try_finally body cleanup).
Proof.
  intros Hb Hc st. unfold try_finally. specialize (Hb st).
  destruct (body st) as [[a|e|] st']; simpl in *; try contradiction;
    specialize (Hc st'); destruct (cleanup st') as [[u|e'|] st'']; simpl in *;
    (discriminate || contradiction).
Qed.

Lemma halts_with_retry (A : Type) (max_attempts delay : option Z)
    (exceptions : exc -> bool) (func : M A) :
  halts func -> halts (with_retry max_attempts delay exceptions func).
Proof.
  intros Hf st Hh. pose proof (with_retry_outcome A max_attempts delay exceptions func st) as H.
  rewrite Hh in H. destruct H as [s Hs]. exact (Hf s Hs).
Qed.

Lemma halts_call (op : sdk_op) : halts (call op).
Proof. intros st. unfold call. destruct (sdk op (env st)) as [[e|v] env']; discriminate. Qed.

Lemma halts_time_sleep (seconds : Z) : halts (time_sleep seconds).
Proof.
  intros st. unfold time_sleep. destruct (seconds <? 0); [discriminate|].
  destruct (sdk _ (env st)); discriminate.
Qed.

Lemma halts_log (level : log_level) (event operation : string) :
  halts (log level event operation).
Proof. intros st. discriminate. Qed.

Lemma halts_time_time : halts time_time.
Proof. intros st. discriminate. Qed.

Lemma halts_path_exists (p : string) : halts (path_exists p).
Proof. intros st. discriminate. Qed.

Lemma halts_stat_size (p : string) : halts (stat_size p).
Proof. intros st. unfold stat_size. destruct (files (env st) !! p); discriminate. Qed.

Lemma halts_unlink (p : string) : halts (unlink p).
Proof.
  intros st. unfold unlink. destruct (files (env st) !! p); [|discriminate].
  destruct (bool_decide _); discriminate.
Qed.

Lemma halts_get_self (self : string) : halts (get_self self).
Proof. intros st. unfold get_self. destruct (connectors st !! self); discriminate. Qed.

Lemma halts_set_client (self : string) : halts (set_client self).
Proof. intros st. discriminate. Qed.

Lemma halts_store_connector (provider : string) (c : Connector) :
  halts (store_connector provider c).
Proof. intros st. discriminate. Qed.

Lemma halts_lift (A : Type) (r : exc + A) : halts (lift r).
Proof. intros st. destruct r; discriminate. Qed.

Lemma halts_fun (A : Type) (m : M A) : halts m -> halts (fun st => m st).
Proof. intros H. exact H. Qed.

(** One step of a proof that a computation returns only values in [P]. *)
Ltac rets_step :=
  match goal with
  | |- rets _ (with_retry _ _ _ _) => apply rets_with_retry
  | |- rets _ (try_except _ _) => apply rets_try_except; [|intros ?]
  | |- rets _ (try_finally _ _) => apply rets_try_finally
  | |- rets _ (bind _ _) => apply rets_bind; intros ?
  | |- rets _ (ret _) => apply rets_ret
  | |- rets _ (raise _) => apply rets_raise
  | |- rets _ (if ?b then _ else _) => destruct b
  | |- rets _ (let _ := _ in _) => cbv zeta
  | |- rets _ (match provider ?c with _ => _ end) => destruct (provider c)
  end.

(** One step of a proof that a computation comes back. *)
Ltac halts_step :=
  match goal with
  | |- halts (with_retry _ _ _ _) => apply halts_with_retry
  | |- halts (try_except _ _) => apply halts_try_except; [|intros ?]
  | |- halts (try_finally _ _) => apply halts_try_finally
  | |- halts (bind _ _) => apply halts_bind; [|intros ?]
  | |- halts (ret _) => apply halts_ret
  | |- halts (raise _) => apply halts_raise
  | |- halts (call ?op) => exact (halts_call op)
  | |- halts (time_sleep _) => apply halts_time_sleep
  | |- halts (log _ _ _) => apply halts_log
  | |- halts (log_operation_start _) => apply halts_log
  | |- halts (log_operation_success _) => apply halts_log
  | |- halts (log_operation_error _) => apply halts_log
  | |- halts (log_retry_attempt _) => apply halts_log
  | |- halts time_time => apply halts_time_time
  | |- halts (path_exists _) => apply halts_path_exists
  | |- halts (stat_size _) => apply halts_stat_size
  | |- halts (unlink _) => apply halts_unlink
  | |- halts (get_self _) => apply halts_get_self
  | |- halts (set_client _) => apply halts_set_client
  | |- halts (store_connector _ _) => apply halts_store_connector
  | |- halts (lift _) => apply halts_lift
  | |- halts (if ?b then _ else _) => destruct b
  | |- halts (let _ := _ in _) => cbv zeta
  | |- halts (match provider ?c with _ => _ end) => destruct (provider c)
  end.

(** ** The shape of a [TransferResult] *)

(** Exactly one of: success without a message, failure with a message. *)
Definition well_formed (r : TransferResult) : Prop :=
  (success r = true /\ error_message r = None)
  \/ (success r = false /\ is_Some (error_message r)).

(** A well-formed result whose failure carries no bytes and no duration. *)
Definition outcome_inv (r : TransferResult) : Prop :=
  well_formed r
  /\ (success r = false -> bytes_transferred r = 0 /\ duration_seconds r = 0).

(** A well-formed result whose failure carries no bytes. *)
Definition orchestrated_inv (r : TransferResult) : Prop :=
  well_formed r /\ (success r = false -> bytes_transferred r = 0).

(** The result [copy_file_direct] builds in its [except] branch. *)
Definition caught_result (source_url dest_url : string) (r : TransferResult) : Prop :=
  success r = false /\ source_path r = source_url /\ destination_path r = dest_url
  /\ bytes_transferred r = 0
  /\ exists e, error_message r = Some ("Multi-cloud copy failed: " +:+ str_exc e).

Lemma outcome_inv_ok (src dst : string) (bytes duration : Z) :
  outcome_inv (result_ok src dst bytes duration).
Proof. split; [left; now split|discriminate]. Qed.

Lemma outcome_inv_failed (src dst msg : string) : outcome_inv (result_failed src dst msg).
Proof. split; [right; split; [reflexivity|eauto]|now split]. Qed.

Lemma outcome_inv_orchestrated (r : TransferResult) : outcome_inv r -> orchestrated_inv r.
Proof. intros [Hw Hf]. split; [assumption|]. intros H. now destruct (Hf H). Qed.

Lemma rets_weaken (A : Type) (P Q : A -> Prop) (m : M A) :
  (forall a, P a -> Q a) -> rets P m -> rets Q m.
Proof.
  intros HPQ Hm st. specialize (Hm st). destruct (fst (m st)); auto.
Qed.

Create HintDb transfer.
#[local] Hint Resolve outcome_inv_ok outcome_inv_failed : transfer.

Ltac rets_auto := repeat rets_step; auto with transfer.

Lemma S3_upload_file_inv self local_path bucket remote_path kw :
  rets outcome_inv (S3_upload_file self local_path bucket remote_path kw).
Proof. unfold S3_upload_file. rets_auto. Qed.

Lemma S3_download_file_inv self bucket remote_path local_path :
  rets outcome_inv (S3_download_file self bucket remote_path local_path).
Proof. unfold S3_download_file. rets_auto. Qed.

Lemma S3_copy_file_inv self sb sp db dp kw :
  rets outcome_inv (S3_copy_file self sb sp db dp kw).
Proof. unfold S3_copy_file. rets_auto. Qed.

Lemma Azure_upload_file_inv self local_path container remote_path kw :
  rets outcome_inv (Azure_upload_file self local_path container remote_path kw).
Proof. unfold Azure_upload_file. rets_auto. Qed.

Lemma Azure_download_file_inv self container remote_path local_path :
  rets outcome_inv (Azure_download_file self container remote_path local_path).
Proof. unfold Azure_download_file. rets_auto. Qed.

Lemma Azure_copy_file_inv self sc sp dc dp :
  rets outcome_inv (Azure_copy_file self sc sp dc dp).
Proof. unfold Azure_copy_file. rets_auto. Qed.

Lemma GCP_upload_file_inv self local_path bucket remote_path kw :
  rets outcome_inv (GCP_upload_file self local_path bucket remote_path kw).
Proof. unfold GCP_upload_file. rets_auto. Qed.

Lemma GCP_download_file_inv self bucket remote_path local_path :
  rets outcome_inv (GCP_download_file self bucket remote_path local_path).
Proof. unfold GCP_download_file. rets_auto. Qed.

Lemma GCP_copy_file_inv self sb sp db dp :
  rets outcome_inv (GCP_copy_file self sb sp db dp).
Proof. unfold GCP_copy_file. rets_auto. Qed.

#[local] Hint Resolve S3_upload_file_inv S3_download_file_inv S3_copy_file_inv
  Azure_upload_file_inv Azure_download_file_inv Azure_copy_file_inv
  GCP_upload_file_inv GCP_download_file_inv GCP_copy_file_inv : transfer.

Lemma upload_file_inv self local_path container remote_path kw :
  rets outcome_inv (upload_file self local_path container remote_path kw).
Proof. unfold upload_file. rets_auto. Qed.

Lemma download_file_inv self container remote_path local_path :
  rets outcome_inv (download_file self container remote_path local_path).
Proof. unfold download_file. rets_auto. Qed.

Lemma copy_file_inv self sc sp dc dp kw :
  rets outcome_inv (copy_file self sc sp dc dp kw).
Proof. unfold copy_file. rets_auto. Qed.

Lemma copy_via_temp_inv sp sc spath dp dc dpath kw :
  rets outcome_inv (_copy_via_temp sp sc spath dp dc dpath kw).
Proof.
  unfold _copy_via_temp, elapsed_since. rets_auto.
Qed.

Lemma copy_parsed_inv sp sc spath dp dc dpath kw :
  rets outcome_inv (copy_parsed sp sc spath dp dc dpath kw).
Proof.
  unfold copy_parsed.
  eapply rets_bind_with with (Q := outcome_inv).
  - destruct (String.eqb sp dp); [|apply copy_via_temp_inv].
    rets_step. apply copy_file_inv.
  - intros r Hr. rets_auto.
Qed.

Lemma copy_file_direct_inv source_url dest_url kw :
  rets (fun r => orchestrated_inv r
                 /\ (success r = false -> duration_seconds r <> 0 ->
                     caught_result source_url dest_url r))
    (copy_file_direct source_url dest_url kw).
Proof.
  unfold copy_file_direct. do 3 rets_step.
  destruct a0 as [[source_provider source_container] source_path].
  destruct a1 as [[dest_provider dest_container] dest_path].
  do 2 rets_step.
  - eapply rets_weaken; [|apply copy_parsed_inv].
    intros r Hr. split; [now apply outcome_inv_orchestrated|].
    intros Hs Hd. destruct Hr as [_ Hr]. destruct (Hr Hs). contradiction.
  - unfold elapsed_since. repeat rets_step.
    split; [split; [right; split; [reflexivity|eauto]|reflexivity]|].
    intros _ _. repeat split. eauto.
Qed.

Lemma batch_loop_inv transfers kw :
  forall results, Forall orchestrated_inv results ->
    rets (Forall orchestrated_inv) (batch_loop transfers kw results).
Proof.
  induction transfers as [|[source_url dest_url] rest IH]; intros results Hres; simpl.
  - now apply rets_ret.
  - rets_step.
    eapply rets_bind_with; [apply copy_file_direct_inv|]. intros r [Hr _].
    rets_step. apply IH. apply Forall_app. split; [assumption|]. now constructor.
Qed.

(** C6, as the code has it: every result an upload, a download, a copy, the
    staged copy, the orchestrated copy or the batch returns is well formed
    (success without a message, or failure with one) and carries 0 bytes
    when it failed; a failed result carries duration 0 as well, except the
    result [copy_file_direct] builds when it catches an exception, which
    carries the time elapsed since the call started. *)
Theorem transfer_result_invariant :
  (forall self local_path container remote_path kw,
     rets outcome_inv (upload_file self local_path container remote_path kw))
  /\ (forall self container remote_path local_path,
       rets outcome_inv (download_file self container remote_path local_path))
  /\ (forall self sc sp dc dp kw, rets outcome_inv (copy_file self sc sp dc dp kw))
  /\ (forall sp sc spath dp dc dpath kw,
       rets outcome_inv (_copy_via_temp sp sc spath dp dc dpath kw))
  /\ (forall source_url dest_url kw,
       rets (fun r => orchestrated_inv r
                      /\ (success r = false -> duration_seconds r <> 0 ->
                          caught_result source_url dest_url r))
         (copy_file_direct source_url dest_url kw))
  /\ (forall transfers kw,
       rets (Forall orchestrated_inv) (batch_copy transfers kw)).
Proof.
  repeat split; intros.
  - apply upload_file_inv.
  - apply download_file_inv.
  - apply copy_file_inv.
  - apply copy_via_temp_inv.
  - apply copy_file_direct_inv.
  - unfold batch_copy. eapply rets_bind_with; [apply batch_loop_inv; constructor|].
    intros results Hres. rets_auto.
Qed.

(** ** The staged copy *)

Ltac halts_auto := repeat halts_step.

Lemma halts_validate_gcp_config c : halts (validate_gcp_config c).
Proof. unfold validate_gcp_config. halts_auto. Qed.

Lemma halts_S3_authenticate self : halts (S3_authenticate self).
Proof. unfold S3_authenticate. halts_auto. Qed.

Lemma halts_Azure_authenticate self : halts (Azure_authenticate self).
Proof. unfold Azure_authenticate. halts_auto. Qed.

Lemma halts_GCP_authenticate self : halts (GCP_authenticate self).
Proof. unfold GCP_authenticate. halts_auto. apply halts_validate_gcp_config. Qed.

Lemma halts_ensure_client auth self :
  (forall s, halts (auth s)) -> halts (ensure_client auth self).
Proof. intros H. unfold ensure_client. halts_auto. apply H. Qed.

Lemma halts_local_file_size local_path : halts (local_file_size local_path).
Proof. unfold local_file_size. halts_auto. Qed.

Lemma halts_elapsed_since start_time : halts (elapsed_since start_time).
Proof. unfold elapsed_since. halts_auto. Qed.

#[local] Hint Resolve halts_S3_authenticate halts_Azure_authenticate
  halts_GCP_authenticate halts_ensure_client halts_local_file_size
  halts_elapsed_since : transfer.

Ltac halts_conn := halts_auto; auto with transfer.

Lemma halts_authenticate self : halts (authenticate self).
Proof. unfold authenticate. halts_conn. Qed.

Lemma halts_upload_file self local_path container remote_path kw :
  halts (upload_file self local_path container remote_path kw).
Proof.
  unfold upload_file, S3_upload_file, Azure_upload_file, GCP_upload_file. halts_conn.
Qed.

Lemma halts_download_file self container remote_path local_path :
  halts (download_file self container remote_path local_path).
Proof.
  unfold download_file, S3_download_file, Azure_download_file, GCP_download_file.
  halts_conn.
Qed.

Lemma halts_get_connector provider : halts (_get_connector provider).
Proof.
  unfold _get_connector. halts_step.
  - intros st. destruct (connectors st !! provider); [discriminate|].
    match goal with
    | |- fst (?m st) <> Hangs => cut (halts m); [intros H; apply H|]
    end.
    halts_auto. apply halts_authenticate.
  - halts_auto.
Qed.

Lemma halts_cleanup_temp p : halts (cleanup_temp p).
Proof. unfold cleanup_temp. halts_auto. Qed.

Lemma halts_copy_via_temp sp sc spath dp dc dpath kw :
  halts (_copy_via_temp sp sc spath dp dc dpath kw).
Proof.
  unfold _copy_via_temp. halts_auto;
    auto using halts_get_connector, halts_download_file, halts_upload_file,
      halts_cleanup_temp with transfer.
Qed.

(** After the [finally] block the staging file is gone, unless its unlink
    was refused; the block raises nothing and leaves the refusals as they
    are. *)
Lemma cleanup_temp_spec (p : string) (st : State) :
  let r := cleanup_temp p st in
  fst r = Returns tt
  /\ undeletable (env (snd r)) = undeletable (env st)
  /\ (files (env (snd r)) !! p = None
      \/ (p ∈ undeletable (env st) /\ files (env (snd r)) !! p = files (env st) !! p
          /\ is_Some (files (env st) !! p))).
Proof.
  unfold cleanup_temp, bind, path_exists, try_except, unlink, ret, log. simpl.
  destruct (files (env st) !! p) as [n|] eqn:Hp.
  - rewrite bool_decide_eq_true_2 by eauto. rewrite Hp.
    case_bool_decide as Hu; simpl.
    + repeat split. right. rewrite Hp. eauto.
    + repeat split. left. apply lookup_delete_eq.
  - rewrite bool_decide_eq_false_2 by (intros [x Hx]; discriminate).
    simpl. repeat split. now left.
Qed.

(** What [try: ... finally: ...] leaves behind is what the cleanup leaves
    behind, unless the body hangs. *)
Lemma try_finally_state (A : Type) (body : M A) (cleanup : M unit) (st : State) :
  fst (body st) <> Hangs ->
  snd (try_finally body cleanup st) = snd (cleanup (snd (body st))).
Proof.
  unfold try_finally. destruct (body st) as [[a|e|] st']; simpl; try contradiction;
    intros _; destruct (cleanup st') as [[u|e'|] st'']; reflexivity.
Qed.

Lemma copy_via_temp_state sp sc spath dp dc dpath kw (st : State) :
  exists st1,
    snd (_copy_via_temp sp sc spath dp dc dpath kw st)
    = snd (cleanup_temp (temp_path (clock (env st)) spath) st1).
Proof.
  unfold _copy_via_temp. unfold bind at 1 2, time_time. simpl.
  eexists. apply try_finally_state.
  pose proof (halts_copy_via_temp sp sc spath dp dc dpath kw st) as H.
  unfold _copy_via_temp in H. unfold bind at 1 2, time_time in H. simpl in H.
  unfold try_finally in H.
  match goal with |- fst (?b st) <> _ => destruct (b st) as [[a|e|] st'] end;
    simpl in *; congruence.
Qed.

(** A copy between two providers leaves the environment as its staged copy
    leaves it: what follows in [copy_file_direct] only logs and reads the
    clock. *)
Lemma copy_file_direct_staged source_url dest_url kw (st : State)
    sp sc spath dp dc dpath :
  _parse_cloud_url source_url = inr (sp, sc, spath) ->
  _parse_cloud_url dest_url = inr (dp, dc, dpath) ->
  String.eqb sp dp = false ->
  let staged :=
    _copy_via_temp sp sc spath dp dc dpath kw
      (record (EvLog INFO "Operation started" "multi_cloud_copy") st) in
  env (snd (copy_file_direct source_url dest_url kw st)) = env (snd staged)
  /\ (fst (copy_file_direct source_url dest_url kw st) = Hangs -> fst staged = Hangs).
Proof.
  intros Hs Hd Hne staged. subst staged.
  remember (copy_file_direct source_url dest_url kw st) as run eqn:Hrun.
  unfold copy_file_direct, bind at 1 2 3, time_time, lift in Hrun.
  rewrite Hs, Hd in Hrun. simpl in Hrun.
  unfold bind at 1, log_operation_start, log in Hrun. simpl in Hrun.
  unfold try_except, copy_parsed, bind at 1 in Hrun. rewrite Hne in Hrun.
  destruct (_copy_via_temp sp sc spath dp dc dpath kw _) as [[r|e|] st1];
    simpl in Hrun.
  - destruct (success r); simpl in Hrun; subst run; simpl;
      (split; [reflexivity|intros [=]]).
  - subst run; simpl. split; [reflexivity|intros [=]].
  - subst run; simpl. split; reflexivity.
Qed.

(** C1, as the code has it: a staged copy always comes back, and when it
    has, the staging file it allocated does not exist, unless the operating
    system refuses to unlink it: the [finally] block logs that failure and
    leaves the file.  The same holds after [copy_file_direct] on two URLs of
    different providers, whatever the download and the upload did. *)
Theorem copy_via_temp_removes_staging_file
    sp sc spath dp dc dpath kw (st : State) :
  (let r := _copy_via_temp sp sc spath dp dc dpath kw st in
   let staging := temp_path (clock (env st)) spath in
   fst r <> Hangs
   /\ (files (env (snd r)) !! staging = None
       \/ staging ∈ undeletable (env (snd r))))
  /\ (forall source_url dest_url,
       _parse_cloud_url source_url = inr (sp, sc, spath) ->
       _parse_cloud_url dest_url = inr (dp, dc, dpath) ->
       String.eqb sp dp = false ->
       let r := copy_file_direct source_url dest_url kw st in
       let staging := temp_path (clock (env st)) spath in
       fst r <> Hangs
       /\ (staging ∉ undeletable (env (snd r)) ->
           files (env (snd r)) !! staging = None)).
Proof.
  assert (forall st0 : State,
            let r := _copy_via_temp sp sc spath dp dc dpath kw st0 in
            files (env (snd r)) !! temp_path (clock (env st0)) spath = None
            \/ temp_path (clock (env st0)) spath ∈ undeletable (env (snd r))) as Hclean.
  { intros st0 r. subst r.
    destruct (copy_via_temp_state sp sc spath dp dc dpath kw st0) as [st1 Hst].
    rewrite Hst.
    destruct (cleanup_temp_spec (temp_path (clock (env st0)) spath) st1)
      as (_ & Hu & [H|(H & _)]); [now left|].
    right. now rewrite Hu. }
  split.
  - intros r staging. split; [apply halts_copy_via_temp|apply Hclean].
  - intros source_url dest_url Hs Hd Hne r staging. subst r staging.
    destruct (copy_file_direct_staged source_url dest_url kw st _ _ _ _ _ _ Hs Hd Hne)
      as [Henv Hhang].
    split.
    + intros Hh. exact (halts_copy_via_temp sp sc spath dp dc dpath kw _ (Hhang Hh)).
    + rewrite Henv. intros Hnot.
      destruct (Hclean (record (EvLog INFO "Operation started" "multi_cloud_copy") st))
        as [H|H]; [exact H|contradiction].
Qed.

(** ** URL parsing *)

(** The schemes [_parse_cloud_url] recognises. *)
Definition recognized_schemes : list string := ["s3"; "azure"; "gcs"; "gs"].

Fixpoint slashes (n : nat) : string :=
  match n with
  | O => EmptyString
  | S n' => String "/" (slashes n')
  end.

Lemma lstrip_slash_spec (s : string) :
  (forall r, Str.lstrip_slash s <> String "/" r)
  /\ exists n, s = slashes n +:+ Str.lstrip_slash s.
Proof.
  induction s as [|c r [IH1 [n IH2]]].
  - split; [discriminate|]. now exists O.
  - destruct (Ascii.eqb_spec c "/") as [->|Hc].
    + change (Str.lstrip_slash (String "/" r)) with (Str.lstrip_slash r).
      split; [exact IH1|]. exists (S n).
      change (String "/" r = String "/" (slashes n +:+ Str.lstrip_slash r)).
      now f_equal.
    + assert (Str.lstrip_slash (String c r) = String c r) as ->.
      { destruct c as [[] [] [] [] [] [] [] []]; try reflexivity. now elim Hc. }
      split; [intros r' [= -> _]; now elim Hc|]. now exists O.
Qed.

Lemma parse_cloud_url_unfold (url : string) (parsed : Url.ParseResult) :
  urlparse url = inr parsed ->
  _parse_cloud_url url =
    let scheme := Str.lower (Url.scheme parsed) in
    if String.eqb scheme "s3"
    then inr ("aws", Url.netloc parsed, Str.lstrip_slash (Url.path parsed))
    else if String.eqb scheme "azure"
    then inr ("azure", Url.netloc parsed, Str.lstrip_slash (Url.path parsed))
    else if (String.eqb scheme "gcs" || String.eqb scheme "gs")%bool
    then inr ("gcp", Url.netloc parsed, Str.lstrip_slash (Url.path parsed))
    else inl (Exc ValueError ("Unsupported URL scheme: " +:+ scheme)).
Proof.
  intros H. unfold _parse_cloud_url. rewrite H. unfold Str.mem. simpl.
  rewrite !orb_false_r.
  destruct (String.eqb _ "s3"); [reflexivity|].
  destruct (String.eqb _ "azure"); [reflexivity|].
  destruct (String.eqb _ "gcs" || String.eqb _ "gs")%bool; reflexivity.
Qed.

(** C7: with [parsed] the split of the URL, the scheme is compared in lower
    case; [s3] gives [aws], [azure] gives [azure], [gcs] and [gs] both give
    [gcp]; the container is the authority component and the path is the path
    component without its leading slashes (so it starts with none, and an
    empty path stays empty); a scheme outside the four is an error, never a
    default backend; and the function reads and writes no state: run from
    two states it gives the same result and leaves each as it was. *)
Theorem parse_cloud_url_spec (url : string) (parsed : Url.ParseResult) :
  urlparse url = inr parsed ->
  let scheme := Str.lower (Url.scheme parsed) in
  let container := Url.netloc parsed in
  let path := Str.lstrip_slash (Url.path parsed) in
  (scheme = "s3" -> _parse_cloud_url url = inr ("aws", container, path))
  /\ (scheme = "azure" -> _parse_cloud_url url = inr ("azure", container, path))
  /\ (scheme = "gcs" \/ scheme = "gs" ->
      _parse_cloud_url url = inr ("gcp", container, path))
  /\ (Str.mem scheme recognized_schemes = false ->
      _parse_cloud_url url = inl (Exc ValueError ("Unsupported URL scheme: " +:+ scheme)))
  /\ (forall r, path <> String "/" r)
  /\ (exists n, Url.path parsed = slashes n +:+ path)
  /\ (Url.path parsed = "" -> path = "")
  /\ (forall st st' : State,
       fst (lift (_parse_cloud_url url) st) = fst (lift (_parse_cloud_url url) st')
       /\ snd (lift (_parse_cloud_url url) st) = st).
Proof.
  intros H scheme container path.
  rewrite (parse_cloud_url_unfold url parsed H). fold scheme container path. cbv zeta.
  split; [|split; [|split; [|split; [|split; [|split; [|split]]]]]].
  - intros ->. reflexivity.
  - intros ->. reflexivity.
  - intros [-> | ->]; reflexivity.
  - unfold Str.mem, recognized_schemes. simpl. rewrite orb_false_r.
    intros Hm. apply orb_false_elim in Hm as [-> Hm].
    apply orb_false_elim in Hm as [-> Hm]. now rewrite Hm.
  - apply lstrip_slash_spec.
  - apply lstrip_slash_spec.
  - unfold path. now intros ->.
  - intros st st'.
    destruct (String.eqb scheme "s3"); [now split|].
    destruct (String.eqb scheme "azure"); [now split|].
    destruct (String.eqb scheme "gcs" || String.eqb scheme "gs")%bool; now split.
Qed.

(** ** Parse failures in the orchestrator *)

(** The error with which the parsing of a pair of URLs ends, if any: the
    source is parsed first. *)
Definition pair_error (source_url dest_url : string) : option exc :=
  match _parse_cloud_url source_url with
  | inl e => Some e
  | inr _ =>
      match _parse_cloud_url dest_url with
      | inl e => Some e
      | inr _ => None
      end
  end.

Lemma copy_file_direct_raises source_url dest_url kw (st : State) (e : exc) :
  pair_error source_url dest_url = Some e ->
  copy_file_direct source_url dest_url kw st = (Raises e, st).
Proof.
  unfold pair_error, copy_file_direct, bind, time_time, lift. simpl.
  destruct (_parse_cloud_url source_url) as [e1|x]; simpl; [now intros [= ->]|].
  destruct (_parse_cloud_url dest_url) as [e2|y]; simpl; [now intros [= ->]|discriminate].
Qed.

(** C3, as the code has it: when the source URL, or else the destination
    URL, does not parse (a scheme outside the recognised four in particular),
    [copy_file_direct] raises the parse error to its caller, and the state is
    what it was: no connector was created or called, nothing crossed the SDK
    boundary, nothing was logged.  No [TransferResult] is returned. *)
Theorem copy_file_direct_parse_failure source_url dest_url kw (st : State) (e : exc) :
  pair_error source_url dest_url = Some e ->
  copy_file_direct source_url dest_url kw st = (Raises e, st)
  /\ (forall r, fst (copy_file_direct source_url dest_url kw st) <> Returns r)
  /\ events (snd (copy_file_direct source_url dest_url kw st)) = events st
  /\ connectors (snd (copy_file_direct source_url dest_url kw st)) = connectors st
  /\ (forall parsed, urlparse source_url = inr parsed ->
       Str.mem (Str.lower (Url.scheme parsed)) recognized_schemes = false ->
       e = Exc ValueError ("Unsupported URL scheme: " +:+ Str.lower (Url.scheme parsed))).
Proof.
  intros H. rewrite (copy_file_direct_raises _ _ kw st e H). simpl.
  repeat split; try discriminate.
  intros parsed Hp Hm. unfold pair_error in H.
  rewrite (parse_cloud_url_unfold source_url parsed Hp) in H. cbv zeta in H.
  unfold Str.mem, recognized_schemes in Hm. simpl in Hm. rewrite orb_false_r in Hm.
  apply orb_false_elim in Hm as [H1 Hm]. apply orb_false_elim in Hm as [H2 Hm].
  rewrite H1, H2, Hm in H. now injection H as <-.
Qed.

(** ** The batch *)


(** *** When a batch comes back *)



















(** ** [delete_file] and [file_exists] *)

(** The request each connector sends to delete an object, to look for one,
    and the exceptions of that request its [except] clause catches. *)
Definition delete_request (p : CloudProvider) (container remote_path : string) : sdk_op :=
  match p with
  | AWS_S3 => S3DeleteObject container remote_path
  | AZURE_BLOB => AzureDeleteBlob container remote_path
  | GCP_STORAGE => GcpBlobDelete container remote_path
  end.

Definition exists_request (p : CloudProvider) (container remote_path : string) : sdk_op :=
  match p with
  | AWS_S3 => S3HeadObject container remote_path
  | AZURE_BLOB => AzureBlobExists container remote_path
  | GCP_STORAGE => GcpBlobExists container remote_path
  end.

Definition delete_catches (p : CloudProvider) (e : exc) : bool :=
  match p with
  | AWS_S3 => is_ClientError e
  | _ => true
  end.

Lemma ensure_client_set auth self (c : Connector) (st : State) :
  connectors st !! self = Some c -> client c = true ->
  ensure_client auth self st = (Returns tt, st).
Proof.
  intros Hc Hcl. unfold ensure_client, bind, get_self. now rewrite Hc, Hcl.
Qed.

Lemma ensure_client_unset auth self (c : Connector) (st st1 : State) (x : exc) :
  connectors st !! self = Some c -> client c = false ->
  auth self st = (Raises x, st1) ->
  ensure_client auth self st = (Raises x, st1).
Proof.
  intros Hc Hcl Ha. unfold ensure_client, bind, get_self. now rewrite Hc, Hcl, Ha.
Qed.

(** [authenticate] raises [AuthenticationError] or the connectors'
    [ConnectionError], neither of which is retriable. *)
Lemma authenticate_raises self (c : Connector) (st st1 : State) (x : exc) :
  connectors st !! self = Some c ->
  match provider c with
  | AWS_S3 => S3_authenticate self st
  | AZURE_BLOB => Azure_authenticate self st
  | GCP_STORAGE => GCP_authenticate self st
  end = (Raises x, st1) ->
  RETRIABLE_EXCEPTIONS x = false.
Proof.
  intros _. unfold S3_authenticate, Azure_authenticate, GCP_authenticate, try_except.
  destruct (provider c);
    match goal with
    | |- match ?b st with _ => _ end = _ -> _ => destruct (b st) as [[a|e|] st']
    end; try discriminate; unfold raise;
    repeat match goal with
      | |- context [if ?b then _ else _] => destruct b
      end;
    intros [= <- _]; reflexivity.
Qed.

Lemma dispatch_authenticate self (c : Connector) (st : State) :
  connectors st !! self = Some c ->
  authenticate self st =
    match provider c with
    | AWS_S3 => S3_authenticate self st
    | AZURE_BLOB => Azure_authenticate self st
    | GCP_STORAGE => GCP_authenticate self st
    end.
Proof.
  intros Hc. unfold authenticate, bind, get_self. rewrite Hc. now destruct (provider c).
Qed.

(** The first attempt of a decorated method decides the call when it
    returns or raises an exception that is not retriable. *)
Ltac first_attempt tac :=
  match goal with
  | |- fst (with_retry _ _ _ ?inner ?st) = _ =>
      let f := fresh "f" in
      set (f := inner);
      let H := fresh "Hfirst" in
      pose proof (with_retry_first_attempt _ None None RETRIABLE_EXCEPTIONS f st) as H;
      let Hrun := fresh "Hrun" in
      eassert (Hrun : f st = _) by (subst f; tac; reflexivity);
      rewrite Hrun in H; clear Hrun
  end.

(** C8, as the code has it.  With its client handle set, a connector whose
    delete request fails with an exception its [except] clause catches
    ([ClientError] for S3, any exception for Azure and GCP: the not-found
    error of an absent object is one) returns [False] and does not raise.
    What is not caught leaves [delete_file] as an exception: for S3 an
    exception that is not a [ClientError]; for every connector the failure
    of the authentication a call without a client handle starts with. *)
Theorem delete_file_outcomes self (c : Connector) container remote_path (st : State) :
  connectors st !! self = Some c ->
  (client c = true -> forall e env',
     sdk (delete_request (provider c) container remote_path) (env st) = (inl e, env') ->
     delete_catches (provider c) e = true ->
     fst (delete_file self container remote_path st) = Returns false)
  /\ (client c = true -> forall e env',
      sdk (delete_request (provider c) container remote_path) (env st) = (inl e, env') ->
      delete_catches (provider c) e = false ->
      RETRIABLE_EXCEPTIONS e = false ->
      fst (delete_file self container remote_path st) = Raises e)
  /\ (client c = false -> forall x st1,
      authenticate self st = (Raises x, st1) ->
      fst (delete_file self container remote_path st) = Raises x).
Proof.
  intros Hc. split; [|split].
  - intros Hcl e env' Hsdk Hcatch.
    unfold delete_file, bind at 1, get_self. rewrite Hc.
    destruct (provider c); simpl in Hsdk, Hcatch;
      [unfold S3_delete_file|unfold Azure_delete_file|unfold GCP_delete_file];
      first_attempt
        ltac:(unfold bind at 1; rewrite (ensure_client_set _ self c st Hc Hcl);
              unfold try_except, bind at 1, call; rewrite Hsdk; simpl;
              try rewrite Hcatch; simpl);
      now rewrite Hfirst.
  - intros Hcl e env' Hsdk Hcatch Hretry.
    unfold delete_file, bind at 1, get_self. rewrite Hc.
    destruct (provider c); simpl in Hsdk, Hcatch; try discriminate.
    unfold S3_delete_file.
    first_attempt
      ltac:(unfold bind at 1; rewrite (ensure_client_set _ self c st Hc Hcl);
            unfold try_except, bind at 1, call; rewrite Hsdk; simpl;
            rewrite Hcatch; simpl).
    now rewrite (Hfirst Hretry).
  - intros Hcl x st1 Hauth.
    rewrite (dispatch_authenticate self c st Hc) in Hauth.
    pose proof (authenticate_raises self c st st1 x Hc Hauth) as Hx.
    unfold delete_file, bind at 1, get_self. rewrite Hc.
    destruct (provider c);
      [unfold S3_delete_file|unfold Azure_delete_file|unfold GCP_delete_file];
      first_attempt
        ltac:(unfold bind at 1;
              rewrite (ensure_client_unset _ self c st st1 x Hc Hcl Hauth));
      now rewrite (Hfirst Hx).
Qed.

Lemma dispatch_file_exists self (c : Connector) container remote_path (st : State) :
  connectors st !! self = Some c ->
  file_exists self container remote_path st =
    match provider c with
    | AWS_S3 => S3_file_exists self container remote_path st
    | AZURE_BLOB => Azure_file_exists self container remote_path st
    | GCP_STORAGE => GCP_file_exists self container remote_path st
    end.
Proof.
  intros Hc. unfold file_exists, bind, get_self. rewrite Hc. now destruct (provider c).
Qed.

(** C9, as the code has it.  With its client handle set, the Azure and the
    GCP connector answer a boolean whatever the existence request does, and
    [False] when it raises (access denied and not found alike).  The S3
    connector answers [False] for a [ClientError] whose code is 404 and
    raises every other exception of the request again, an access-denied
    [ClientError] included.  For every connector the failure of the
    authentication a call without a client handle starts with is raised. *)
Theorem file_exists_outcomes self (c : Connector) container remote_path (st : State) :
  connectors st !! self = Some c ->
  (client c = true -> provider c <> AWS_S3 ->
     (exists b, fst (file_exists self container remote_path st) = Returns b)
     /\ forall e env',
         sdk (exists_request (provider c) container remote_path) (env st) = (inl e, env') ->
         fst (file_exists self container remote_path st) = Returns false)
  /\ (client c = true -> provider c = AWS_S3 -> forall e env',
      sdk (S3HeadObject container remote_path) (env st) = (inl e, env') ->
      fst (file_exists self container remote_path st) =
        if (is_ClientError e && String.eqb (error_code e) "404")%bool
        then Returns false else Raises e)
  /\ (client c = false -> forall x st1,
      authenticate self st = (Raises x, st1) ->
      fst (file_exists self container remote_path st) = Raises x).
Proof.
  intros Hc. rewrite !(dispatch_file_exists self c container remote_path st Hc).
  split; [|split].
  - intros Hcl Hp.
    destruct (provider c); [now elim Hp| |];
      [unfold Azure_file_exists|unfold GCP_file_exists];
      unfold bind; rewrite (ensure_client_set _ self c st Hc Hcl);
      unfold try_except, call; simpl;
      destruct (sdk _ (env st)) as [[e|b] env1]; simpl;
      (split; [eauto|]); intros e' env' [=]; reflexivity.
  - intros Hcl Hp e env' Hsdk. rewrite Hp.
    unfold S3_file_exists, bind at 1. rewrite (ensure_client_set _ self c st Hc Hcl).
    unfold try_except, bind at 1, call. rewrite Hsdk. simpl.
    destruct (is_ClientError e); simpl; [|reflexivity].
    destruct (String.eqb (error_code e) "404"); reflexivity.
  - intros Hcl x st1 Hauth.
    rewrite (dispatch_authenticate self c st Hc) in Hauth.
    destruct (provider c);
      [unfold S3_file_exists|unfold Azure_file_exists|unfold GCP_file_exists];
      unfold bind at 1;
      now rewrite (ensure_client_unset _ self c st st1 x Hc Hcl Hauth).
Qed.

(** * Further properties of the code *)

(** ** [authenticate] *)

(** The exceptions [authenticate] raises. *)
Definition authentication_failure (x : exc) : Prop :=
  exists msg, x = Exc AuthenticationError msg \/ x = Exc ConnectionError msg.

Lemma authentication_failure_auth msg : authentication_failure (Exc AuthenticationError msg).
Proof. exists msg. now left. Qed.

Lemma authentication_failure_conn msg : authentication_failure (Exc ConnectionError msg).
Proof. exists msg. now right. Qed.

(** A [try] block whose handler translates every exception. *)
Lemma try_except_translates (A : Type) (P : A -> Prop) (Q : exc -> Prop)
    (body : M A) (handler : exc -> M A) (st : State) :
  rets P body -> halts body ->
  (forall e s, exists x, handler e s = (Raises x, s) /\ Q x) ->
  match fst (try_except body handler st) with
  | Returns a => P a
  | Raises x => Q x
  | Hangs => False
  end.
Proof.
  intros Hr Hh Hx. unfold try_except. specialize (Hr st). specialize (Hh st).
  destruct (body st) as [[a|e|] st']; simpl in *; [assumption| |contradiction].
  destruct (Hx e st') as (x & -> & HQ). exact HQ.
Qed.

Ltac translates :=
  intros ? ?;
  repeat match goal with |- context [if ?b then _ else _] => destruct b end;
  eexists; (split; [reflexivity|]);
  auto using authentication_failure_auth, authentication_failure_conn.

Lemma S3_authenticate_outcome self (st : State) :
  match fst (S3_authenticate self st) with
  | Returns b => b = true
  | Raises x => authentication_failure x
  | Hangs => False
  end.
Proof.
  unfold S3_authenticate. apply try_except_translates;
    [rets_auto|halts_auto|translates].
Qed.

Lemma Azure_authenticate_outcome self (st : State) :
  match fst (Azure_authenticate self st) with
  | Returns b => b = true
  | Raises x => authentication_failure x
  | Hangs => False
  end.
Proof.
  unfold Azure_authenticate. apply try_except_translates;
    [rets_auto|halts_auto|translates].
Qed.

Lemma GCP_authenticate_outcome self (st : State) :
  match fst (GCP_authenticate self st) with
  | Returns b => b = true
  | Raises x => authentication_failure x
  | Hangs => False
  end.
Proof.
  unfold GCP_authenticate. apply try_except_translates;
    [rets_auto|halts_auto; apply halts_validate_gcp_config|translates].
Qed.

(** X1: [authenticate] comes back with [True] or raises
    [AuthenticationError] or the connectors' [ConnectionError]; it never
    answers [False].  When the credentials of the provider are not
    configured, the [AuthenticationError] raised inside the [try] block is
    caught by its own [except Exception] clause: what leaves is
    [ConnectionError], no request was sent and no client handle was set. *)
Theorem authenticate_outcomes self (st : State) :
  (forall auth, In auth [S3_authenticate; Azure_authenticate; GCP_authenticate] ->
     match fst (auth self st) with
     | Returns b => b = true
     | Raises x => authentication_failure x
     | Hangs => False
     end)
  /\ (validate_aws_config config = false ->
      S3_authenticate self st
      = (Raises (Exc ConnectionError
                   "AWS connection failed: AWS credentials not configured properly"), st))
  /\ (validate_azure_config config = false ->
      Azure_authenticate self st
      = (Raises (Exc ConnectionError
                   "Azure connection failed: Azure Blob Storage credentials not configured properly"),
         st))
  /\ (fst (validate_gcp_config config st) = Returns false ->
      GCP_authenticate self st
      = (Raises (Exc ConnectionError
                   "GCP connection failed: GCP credentials not configured properly"), st)).
Proof.
  split; [|split; [|split]].
  - intros auth [<-|[<-|[<-|[]]]].
    + apply S3_authenticate_outcome.
    + apply Azure_authenticate_outcome.
    + apply GCP_authenticate_outcome.
  - intros Hv. unfold S3_authenticate, try_except, bind at 1. now rewrite Hv.
  - intros Hv. unfold Azure_authenticate, try_except, bind at 1. now rewrite Hv.
  - intros Hv. unfold GCP_authenticate, try_except, bind at 1.
    unfold validate_gcp_config, path_exists, ret in *.
    destruct (_ && _)%bool; simpl in *.
    + injection Hv as Hv. now rewrite Hv.
    + reflexivity.
Qed.

(** The first attempt of a decorated method decides the call unless it
    raises a retriable exception. *)
Lemma with_retry_decided (A : Type) (func : M A) (st : State) :
  (forall e, fst (func st) = Raises e -> RETRIABLE_EXCEPTIONS e = false) ->
  with_retry None None RETRIABLE_EXCEPTIONS func st = func st.
Proof.
  intros H. pose proof (with_retry_first_attempt A None None RETRIABLE_EXCEPTIONS func st) as Hf.
  destruct (func st) as [[a|e|] st1]; simpl in *; auto.
Qed.

(** The state after a decorated call is the state after the one call of
    the function: the decorator adds no call, no log and no sleep. *)
Lemma with_retry_state (A : Type) (max_attempts delay : option Z)
    (exceptions : exc -> bool) (func : M A) (st : State) :
  snd (with_retry max_attempts delay exceptions func st) = snd (func st).
Proof.
  rewrite with_retry_unfold. destruct (func st) as [[a|e|] st']; try reflexivity.
  destruct (negb (exceptions e)); [reflexivity|].
  destruct (stop_after_attempt _ 1); reflexivity.
Qed.

(** ** What a call leaves of the state *)

(** [m] takes every state to one that [R] relates to it. *)
Definition preserves {A : Type} (R : State -> State -> Prop) (m : M A) : Prop :=
  forall st, R st (snd (m st)).

Section Frames.

(** A relation between the state before and the state after, closed under
    what the world and the log do, and under what happens to the connectors
    of the keys in [touched]. *)
Variable R : State -> State -> Prop.
Variable touched : string -> Prop.
Hypothesis R_refl : forall st, R st st.
Hypothesis R_trans : forall a b c, R a b -> R b c -> R a c.
Hypothesis R_env : forall st e, R st (with_env e st).
Hypothesis R_record : forall st ev, R st (record ev st).
Hypothesis R_client : forall self st, touched self -> R st (snd (set_client self st)).
Hypothesis R_store : forall p c st,
  touched p -> connectors st !! p = None -> R st (snd (store_connector p c st)).

Lemma preserves_ret (A : Type) (a : A) : preserves R (ret a).
Proof. intros st. apply R_refl. Qed.

Lemma preserves_raise (A : Type) (e : exc) : preserves R (@raise A e).
Proof. intros st. apply R_refl. Qed.

Lemma preserves_hang (A : Type) : preserves R (@hang A).
Proof. intros st. apply R_refl. Qed.

Lemma preserves_bind (A B : Type) (m : M A) (k : A -> M B) :
  preserves R m -> (forall a, preserves R (k a)) -> preserves R (bind m k).
Proof.
  intros Hm Hk st. unfold bind. specialize (Hm st).
  destruct (m st) as [[a|e|] st1]; simpl in *; try assumption.
  eapply R_trans; [exact Hm|apply Hk].
Qed.

Lemma preserves_try_except (A : Type) (body : M A) (handler : exc -> M A) :
  preserves R body -> (forall e, preserves R (handler e)) ->
  preserves R (try_except body handler).
Proof.
  intros Hb Hh st. unfold try_except. specialize (Hb st).
  destruct (body st) as [[a|e|] st1]; simpl in *; try assumption.
  eapply R_trans; [exact Hb|apply Hh].
Qed.

Lemma preserves_try_finally (A : Type) (body : M A) (cleanup : M unit) :
  preserves R body -> preserves R cleanup -> preserves R (try_finally body cleanup).
Proof.
  intros Hb Hc st. unfold try_finally. specialize (Hb st).
  destruct (body st) as [[a|e|] st1]; simpl in *; try assumption;
    specialize (Hc st1); destruct (cleanup st1) as [[u|e'|] st2]; simpl in *;
    eapply R_trans; eassumption.
Qed.

Lemma preserves_call (op : sdk_op) : preserves R (call op).
Proof.
  intros st. unfold call. destruct (sdk op (env st)) as [r e']. simpl.
  eapply R_trans; [apply R_env|apply R_record].
Qed.

Lemma preserves_time_sleep (seconds : Z) : preserves R (time_sleep seconds).
Proof.
  intros st. unfold time_sleep. destruct (seconds <? 0); [apply R_refl|].
  destruct (sdk _ (env st)) as [r e']. simpl.
  eapply R_trans; [apply R_env|apply R_record].
Qed.

Lemma preserves_log (level : log_level) (event operation : string) :
  preserves R (log level event operation).
Proof. intros st. apply R_record. Qed.

Lemma preserves_time_time : preserves R time_time.
Proof. intros st. apply R_refl. Qed.

Lemma preserves_path_exists (p : string) : preserves R (path_exists p).
Proof. intros st. apply R_refl. Qed.

Lemma preserves_stat_size (p : string) : preserves R (stat_size p).
Proof. intros st. unfold stat_size. destruct (files (env st) !! p); apply R_refl. Qed.

Lemma preserves_unlink (p : string) : preserves R (unlink p).
Proof.
  intros st. unfold unlink. destruct (files (env st) !! p); [|apply R_refl].
  destruct (bool_decide _); [apply R_refl|apply R_env].
Qed.

Lemma preserves_get_self (self : string) : preserves R (get_self self).
Proof. intros st. unfold get_self. destruct (connectors st !! self); apply R_refl. Qed.

Lemma preserves_lift (A : Type) (r : exc + A) : preserves R (lift r).
Proof. intros st. destruct r; apply R_refl. Qed.

Lemma preserves_with_retry (A : Type) (max_attempts delay : option Z)
    (exceptions : exc -> bool) (func : M A) :
  preserves R func -> preserves R (with_retry max_attempts delay exceptions func).
Proof. intros Hf st. rewrite with_retry_state. apply Hf. Qed.

Lemma preserves_poll_copy (fuel : nat) (dest_container dest_path : string) :
  forall copy_properties,
    preserves R (poll_copy fuel dest_container dest_path copy_properties).
Proof.
  induction fuel as [|fuel IH]; intros props; simpl;
    destruct (String.eqb _ _); try apply preserves_ret; try apply preserves_hang.
  apply preserves_bind; [apply preserves_time_sleep|]. intros _.
  apply preserves_bind; [exact (preserves_call _)|]. intros props'. apply IH.
Qed.

(** One step of a proof that a computation is in [preserves R]. *)
Ltac preserves_step :=
  match goal with
  | |- preserves _ (with_retry _ _ _ _) => apply preserves_with_retry
  | |- preserves _ (try_except _ _) => apply preserves_try_except; [|intros ?]
  | |- preserves _ (try_finally _ _) => apply preserves_try_finally
  | |- preserves _ (bind _ _) => apply preserves_bind; [|intros ?]
  | |- preserves _ (ret _) => apply preserves_ret
  | |- preserves _ (raise _) => apply preserves_raise
  | |- preserves _ (call ?op) => exact (preserves_call op)
  | |- preserves _ (time_sleep _) => apply preserves_time_sleep
  | |- preserves _ (log _ _ _) => apply preserves_log
  | |- preserves _ (log_operation_start _) => apply preserves_log
  | |- preserves _ (log_operation_success _) => apply preserves_log
  | |- preserves _ (log_operation_error _) => apply preserves_log
  | |- preserves _ (log_retry_attempt _) => apply preserves_log
  | |- preserves _ time_time => apply preserves_time_time
  | |- preserves _ (path_exists _) => apply preserves_path_exists
  | |- preserves _ (stat_size _) => apply preserves_stat_size
  | |- preserves _ (unlink _) => apply preserves_unlink
  | |- preserves _ (get_self _) => apply preserves_get_self
  | |- preserves _ (lift _) => apply preserves_lift
  | |- preserves _ (poll_copy _ _ _ _) => apply preserves_poll_copy
  | |- preserves _ (if ?b then _ else _) => destruct b
  | |- preserves _ (let _ := _ in _) => cbv zeta
  | |- preserves _ (match provider ?c with _ => _ end) => destruct (provider c)
  end.

Ltac preserves_auto := repeat preserves_step.

Lemma preserves_set_client self : touched self -> preserves R (set_client self).
Proof. intros H st. now apply R_client. Qed.

Lemma preserves_validate_gcp_config c : preserves R (validate_gcp_config c).
Proof. unfold validate_gcp_config. preserves_auto. Qed.

Lemma preserves_S3_authenticate self : touched self -> preserves R (S3_authenticate self).
Proof. intros H. unfold S3_authenticate. preserves_auto. now apply preserves_set_client. Qed.

Lemma preserves_Azure_authenticate self :
  touched self -> preserves R (Azure_authenticate self).
Proof.
  intros H. unfold Azure_authenticate. preserves_auto; now apply preserves_set_client.
Qed.

Lemma preserves_GCP_authenticate self : touched self -> preserves R (GCP_authenticate self).
Proof.
  intros H. unfold GCP_authenticate. preserves_auto;
    (apply preserves_validate_gcp_config || now apply preserves_set_client).
Qed.

Lemma preserves_ensure_client auth self :
  preserves R (auth self) -> preserves R (ensure_client auth self).
Proof. intros H. unfold ensure_client. preserves_auto. exact H. Qed.

Lemma preserves_local_file_size local_path : preserves R (local_file_size local_path).
Proof. unfold local_file_size. preserves_auto. Qed.

Lemma preserves_elapsed_since start_time : preserves R (elapsed_since start_time).
Proof. unfold elapsed_since. preserves_auto. Qed.

Ltac preserves_conn H :=
  preserves_auto;
  auto using preserves_ensure_client, preserves_S3_authenticate,
    preserves_Azure_authenticate, preserves_GCP_authenticate,
    preserves_local_file_size, preserves_elapsed_since.

Lemma preserves_authenticate self : touched self -> preserves R (authenticate self).
Proof. intros H. unfold authenticate. preserves_conn H. Qed.

Lemma preserves_upload_file self local_path container remote_path kw :
  touched self -> preserves R (upload_file self local_path container remote_path kw).
Proof.
  intros H. unfold upload_file, S3_upload_file, Azure_upload_file, GCP_upload_file.
  preserves_conn H.
Qed.

Lemma preserves_download_file self container remote_path local_path :
  touched self -> preserves R (download_file self container remote_path local_path).
Proof.
  intros H. unfold download_file, S3_download_file, Azure_download_file,
    GCP_download_file.
  preserves_conn H.
Qed.

Lemma preserves_copy_file self sc sp dc dp kw :
  touched self -> preserves R (copy_file self sc sp dc dp kw).
Proof.
  intros H. unfold copy_file, S3_copy_file, Azure_copy_file, GCP_copy_file.
  preserves_conn H.
Qed.

Lemma preserves_delete_file self container remote_path :
  touched self -> preserves R (delete_file self container remote_path).
Proof.
  intros H. unfold delete_file, S3_delete_file, Azure_delete_file, GCP_delete_file.
  preserves_conn H.
Qed.

Lemma preserves_file_exists self container remote_path :
  touched self -> preserves R (file_exists self container remote_path).
Proof.
  intros H. unfold file_exists, S3_file_exists, Azure_file_exists, GCP_file_exists.
  preserves_conn H.
Qed.

Lemma preserves_get_connector p : touched p -> preserves R (_get_connector p).
Proof.
  intros H. unfold _get_connector. apply preserves_bind; [|intros _; preserves_auto].
  intros st. destruct (connectors st !! p) eqn:Hp; [apply R_refl|].
  unfold bind at 1, lift. destruct (get_connector_by_name p) as [e|c]; [apply R_refl|].
  simpl. unfold bind at 1. simpl.
  eapply R_trans; [exact (R_store p c st H Hp)|].
  match goal with
  | |- R _ (snd (?m ?s)) => cut (preserves R m); [intros Hm; apply (Hm s)|]
  end.
  preserves_auto. now apply preserves_authenticate.
Qed.

Lemma preserves_cleanup_temp p : preserves R (cleanup_temp p).
Proof. unfold cleanup_temp. preserves_auto. Qed.

Lemma preserves_bind_with (A B : Type) (Q : A -> Prop) (m : M A) (k : A -> M B) :
  rets Q m -> preserves R m -> (forall a, Q a -> preserves R (k a)) ->
  preserves R (bind m k).
Proof.
  intros HQ Hm Hk st. unfold bind. specialize (Hm st). specialize (HQ st).
  destruct (m st) as [[a|e|] st1]; simpl in *; try assumption.
  eapply R_trans; [exact Hm|now apply Hk].
Qed.

Lemma get_connector_returns p : rets (fun s => s = p) (_get_connector p).
Proof. unfold _get_connector. rets_auto. Qed.

Lemma preserves_copy_via_temp sp sc spath dp dc dpath kw :
  touched sp -> touched dp ->
  preserves R (_copy_via_temp sp sc spath dp dc dpath kw).
Proof.
  intros Hs Hd. unfold _copy_via_temp.
  apply preserves_bind; [apply preserves_time_time|]. intros start_time.
  apply preserves_bind; [apply preserves_time_time|]. intros now. cbv zeta.
  apply preserves_try_finally; [|apply preserves_cleanup_temp].
  eapply preserves_bind_with;
    [apply get_connector_returns|now apply preserves_get_connector|].
  intros source_connector ->.
  apply preserves_bind; [now apply preserves_download_file|]. intros download_result.
  destruct (negb (success download_result)); [apply preserves_ret|].
  eapply preserves_bind_with;
    [apply get_connector_returns|now apply preserves_get_connector|].
  intros dest_connector ->.
  apply preserves_bind; [now apply preserves_upload_file|]. intros upload_result.
  destruct (negb (success upload_result)); [apply preserves_ret|].
  apply preserves_bind; [apply preserves_elapsed_since|]. intros d. apply preserves_ret.
Qed.

Lemma preserves_copy_parsed sp sc spath dp dc dpath kw :
  touched sp -> touched dp ->
  preserves R (copy_parsed sp sc spath dp dc dpath kw).
Proof.
  intros Hs Hd. unfold copy_parsed. apply preserves_bind.
  - destruct (String.eqb sp dp); [|now apply preserves_copy_via_temp].
    eapply preserves_bind_with;
      [apply get_connector_returns|now apply preserves_get_connector|].
    intros connector ->. now apply preserves_copy_file.
  - intros result. preserves_auto.
Qed.

(** The provider names [_parse_cloud_url] gives. *)
Definition provider_names : list string := ["aws"; "azure"; "gcp"].

Lemma parse_cloud_url_provider url p container path :
  _parse_cloud_url url = inr (p, container, path) -> In p provider_names.
Proof.
  unfold _parse_cloud_url. destruct (urlparse url) as [e|parsed]; [discriminate|].
  cbv zeta. unfold provider_names.
  destruct (Str.mem _ ["s3"]); [intros [= <- _ _]; simpl; auto|].
  destruct (Str.mem _ ["azure"]); [intros [= <- _ _]; simpl; auto|].
  destruct (Str.mem _ ["gcs"; "gs"]); [intros [= <- _ _]; simpl; auto|discriminate].
Qed.

Lemma rets_lift (A : Type) (r : exc + A) : rets (fun x => r = inr x) (lift r).
Proof. intros st. now destruct r. Qed.

Lemma preserves_copy_file_direct source_url dest_url kw :
  (forall p, In p provider_names -> touched p) ->
  preserves R (copy_file_direct source_url dest_url kw).
Proof.
  intros Ht. unfold copy_file_direct.
  apply preserves_bind; [apply preserves_time_time|]. intros start_time.
  eapply preserves_bind_with; [apply rets_lift|apply preserves_lift|].
  intros [[sp sc] spath] Hs.
  eapply preserves_bind_with; [apply rets_lift|apply preserves_lift|].
  intros [[dp dc] dpath] Hd.
  apply parse_cloud_url_provider in Hs, Hd.
  unfold elapsed_since. preserves_auto.
  apply preserves_copy_parsed; auto.
Qed.

Lemma preserves_batch_loop kw (transfers : list (string * string)) :
  (forall p, In p provider_names -> touched p) ->
  forall results, preserves R (batch_loop transfers kw results).
Proof.
  intros Ht. induction transfers as [|[source_url dest_url] rest IH]; intros results; simpl.
  - apply preserves_ret.
  - preserves_step; [preserves_step|]. 
    apply preserves_bind; [now apply preserves_copy_file_direct|]. intros result.
    cbv zeta. apply preserves_bind; [preserves_auto|]. intros _. apply IH.
Qed.

Lemma preserves_batch_copy kw (transfers : list (string * string)) :
  (forall p, In p provider_names -> touched p) ->
  preserves R (batch_copy transfers kw).
Proof.
  intros Ht. unfold batch_copy.
  apply preserves_bind; [now apply preserves_batch_loop|]. intros results.
  preserves_auto.
Qed.

(** *** What holds once a call has returned *)

(** [P] is what the call may rely on and [Q] what it establishes; both
    survive whatever [R] allows. *)
Variables P Q : State -> Prop.
Hypothesis P_stable : forall st st', P st -> R st st' -> P st'.
Hypothesis Q_stable : forall st st', Q st -> R st st' -> Q st'.
Hypothesis Q_client : forall self st, touched self -> P st -> Q (snd (set_client self st)).
Hypothesis Q_has_client : forall self c st,
  touched self -> connectors st !! self = Some c -> client c = true -> Q st.

Definition ensures {A : Type} (m : M A) : Prop :=
  forall st, P st -> match m st with (Returns _, st') => Q st' | _ => True end.

Lemma ensures_raise (A : Type) (e : exc) : ensures (@raise A e).
Proof. intros st _. exact I. Qed.

Lemma ensures_bind_l (A B : Type) (m : M A) (k : A -> M B) :
  ensures m -> (forall a, preserves R (k a)) -> ensures (bind m k).
Proof.
  intros Hm Hk st HP. unfold bind. specialize (Hm st HP).
  destruct (m st) as [[a|e|] s1]; try exact I.
  specialize (Hk a s1). destruct (k a s1) as [[b|e|] s2]; try exact I.
  simpl in Hk. eapply Q_stable; eassumption.
Qed.

Lemma ensures_bind_r (A B : Type) (m : M A) (k : A -> M B) :
  preserves R m -> (forall a, ensures (k a)) -> ensures (bind m k).
Proof.
  intros Hm Hk st HP. unfold bind. specialize (Hm st).
  destruct (m st) as [[a|e|] s1]; try exact I.
  simpl in Hm. apply Hk. eapply P_stable; eassumption.
Qed.

Lemma ensures_try_except (A : Type) (body : M A) (handler : exc -> M A) :
  ensures body -> preserves R body -> (forall e, ensures (handler e)) ->
  ensures (try_except body handler).
Proof.
  intros Hb Hp Hh st HP. unfold try_except. specialize (Hb st HP). specialize (Hp st).
  destruct (body st) as [[a|e|] s1]; try assumption.
  simpl in Hp. apply Hh. eapply P_stable; eassumption.
Qed.

Lemma ensures_with_retry (A : Type) (max_attempts delay : option Z)
    (exceptions : exc -> bool) (func : M A) :
  ensures func -> preserves R func ->
  ensures (with_retry max_attempts delay exceptions func).
Proof.
  intros Hf Hp st HP. rewrite with_retry_unfold. specialize (Hf st HP).
  destruct (func st) as [[a|e|] s1]; try assumption.
  destruct (negb (exceptions e)); [exact I|].
  destruct (stop_after_attempt _ 1); exact I.
Qed.

Lemma ensures_set_client self : touched self -> ensures (set_client self).
Proof. intros H st HP. now apply Q_client. Qed.

Ltac raises :=
  intros ?;
  repeat match goal with |- context [if ?b then _ else _] => destruct b end;
  apply ensures_raise.

Lemma ensures_S3_authenticate self : touched self -> ensures (S3_authenticate self).
Proof.
  intros H. unfold S3_authenticate.
  apply ensures_try_except; [| |raises].
  - apply ensures_bind_r; [preserves_auto|]. intros _.
    apply ensures_bind_r; [preserves_auto|]. intros _.
    apply ensures_bind_l; [now apply ensures_set_client|]. intros _. preserves_auto.
  - preserves_auto. now apply preserves_set_client.
Qed.

Lemma ensures_Azure_authenticate self : touched self -> ensures (Azure_authenticate self).
Proof.
  intros H. unfold Azure_authenticate.
  apply ensures_try_except; [| |raises].
  - apply ensures_bind_r; [preserves_auto|]. intros _.
    apply ensures_bind_r; [preserves_auto|]. intros _.
    apply ensures_bind_l; [now apply ensures_set_client|]. intros _. preserves_auto.
  - preserves_auto; now apply preserves_set_client.
Qed.

Lemma ensures_GCP_authenticate self : touched self -> ensures (GCP_authenticate self).
Proof.
  intros H. unfold GCP_authenticate.
  apply ensures_try_except; [| |raises].
  - apply ensures_bind_r; [apply preserves_validate_gcp_config|]. intros valid.
    apply ensures_bind_r; [preserves_auto|]. intros _.
    apply ensures_bind_r; [preserves_auto|]. intros _.
    apply ensures_bind_l; [now apply ensures_set_client|]. intros _. preserves_auto.
  - preserves_auto; (apply preserves_validate_gcp_config || now apply preserves_set_client).
Qed.

Lemma ensures_ensure_client auth self :
  touched self -> ensures (auth self) -> ensures (ensure_client auth self).
Proof.
  intros H Ha st HP. unfold ensure_client, bind, get_self.
  destruct (connectors st !! self) as [c|] eqn:Hc; [|exact I].
  destruct (client c) eqn:Hcl; [exact (Q_has_client self c st H Hc Hcl)|].
  specialize (Ha st HP). destruct (auth self st) as [[b|e|] s1]; assumption.
Qed.

(** A connector method: the authentication if there is no client handle,
    then the rest. *)
Ltac ensures_method H :=
  apply ensures_bind_r; [apply preserves_get_self|]; intros ?;
  match goal with |- ensures (match provider ?c with _ => _ end) => destruct (provider c) end;
  try (apply ensures_with_retry; [|preserves_conn H]);
  (apply ensures_bind_l;
   [apply ensures_ensure_client;
    auto using ensures_S3_authenticate, ensures_Azure_authenticate, ensures_GCP_authenticate
   |intros ?; preserves_conn H]).

Lemma ensures_upload_file self local_path container remote_path kw :
  touched self -> ensures (upload_file self local_path container remote_path kw).
Proof.
  intros H. unfold upload_file, S3_upload_file, Azure_upload_file, GCP_upload_file.
  ensures_method H.
Qed.

Lemma ensures_download_file self container remote_path local_path :
  touched self -> ensures (download_file self container remote_path local_path).
Proof.
  intros H. unfold download_file, S3_download_file, Azure_download_file,
    GCP_download_file.
  ensures_method H.
Qed.

Lemma ensures_copy_file self sc sp dc dp kw :
  touched self -> ensures (copy_file self sc sp dc dp kw).
Proof.
  intros H. unfold copy_file, S3_copy_file, Azure_copy_file, GCP_copy_file.
  ensures_method H.
Qed.

Lemma ensures_delete_file self container remote_path :
  touched self -> ensures (delete_file self container remote_path).
Proof.
  intros H. unfold delete_file, S3_delete_file, Azure_delete_file, GCP_delete_file.
  ensures_method H.
Qed.

Lemma ensures_file_exists self container remote_path :
  touched self -> ensures (file_exists self container remote_path).
Proof.
  intros H. unfold file_exists, S3_file_exists, Azure_file_exists, GCP_file_exists.
  ensures_method H.
Qed.

(** *** What a call can raise *)

(** Every exception [m] raises from a state in [P] is in [E]. *)
Variable E : exc -> Prop.
Hypothesis E_authentication : forall x, authentication_failure x -> E x.
Hypothesis E_permanent : forall x, E x -> RETRIABLE_EXCEPTIONS x = false.
Hypothesis P_cached : forall self st, touched self -> P st -> is_Some (connectors st !! self).

Definition raises_only {A : Type} (m : M A) : Prop :=
  forall st, P st -> match fst (m st) with Raises e => E e | _ => True end.

Lemma raises_only_ret (A : Type) (a : A) : raises_only (ret a).
Proof. intros st _. exact I. Qed.

Lemma raises_only_raise (A : Type) (e : exc) : E e -> raises_only (@raise A e).
Proof. intros H st _. exact H. Qed.

Lemma raises_only_log (level : log_level) (event operation : string) :
  raises_only (log level event operation).
Proof. intros st _. exact I. Qed.

Lemma raises_only_time_time : raises_only time_time.
Proof. intros st _. exact I. Qed.

Lemma raises_only_bind (A B : Type) (m : M A) (k : A -> M B) :
  raises_only m -> preserves R m -> (forall a, raises_only (k a)) ->
  raises_only (bind m k).
Proof.
  intros Hm Hp Hk st HP. unfold bind. specialize (Hm st HP). specialize (Hp st).
  destruct (m st) as [[a|e|] s1]; simpl in *; try assumption.
  apply Hk. eapply P_stable; eassumption.
Qed.

Lemma raises_only_try_except (A : Type) (body : M A) (handler : exc -> M A) :
  preserves R body -> (forall e, raises_only (handler e)) ->
  raises_only (try_except body handler).
Proof.
  intros Hp Hh st HP. unfold try_except. specialize (Hp st).
  destruct (body st) as [[a|e|] s1]; simpl in *; try exact I.
  apply Hh. eapply P_stable; eassumption.
Qed.

Lemma raises_only_with_retry (A : Type) (func : M A) :
  raises_only func -> raises_only (with_retry None None RETRIABLE_EXCEPTIONS func).
Proof.
  intros Hf st HP. rewrite with_retry_decided; [now apply Hf|].
  intros e He. apply E_permanent. specialize (Hf st HP). now rewrite He in Hf.
Qed.

Lemma raises_only_authenticate (auth : string -> M bool) (self : string) :
  (forall st, match fst (auth self st) with
              | Returns b => b = true
              | Raises x => authentication_failure x
              | Hangs => False
              end) ->
  raises_only (auth self).
Proof.
  intros H st _. specialize (H st). destruct (fst (auth self st)); auto.
Qed.

Lemma raises_only_ensure_client auth self :
  touched self -> raises_only (auth self) -> raises_only (ensure_client auth self).
Proof.
  intros Ht Ha st HP. unfold ensure_client, bind, get_self.
  destruct (P_cached self st Ht HP) as [c ->].
  destruct (client c); [exact I|].
  specialize (Ha st HP). destruct (auth self st) as [[b|e|] s1]; simpl in *; auto.
Qed.

(** The handlers of the Azure and the GCP methods: log, and return. *)
Ltac reported :=
  intros ?; cbv zeta;
  apply raises_only_bind; [apply raises_only_log|apply preserves_log|];
  intros ?; apply raises_only_ret.

Ltac raises_method H auth_outcome :=
  apply raises_only_with_retry;
  apply raises_only_bind;
  [apply raises_only_ensure_client;
   [exact H|apply raises_only_authenticate; intros ?; apply auth_outcome]
  |preserves_conn H|intros _].

Lemma raises_only_Azure_copy_file self sc sp dc dp :
  touched self -> raises_only (Azure_copy_file self sc sp dc dp).
Proof.
  intros H. unfold Azure_copy_file. raises_method H Azure_authenticate_outcome.
  apply raises_only_bind; [apply raises_only_time_time|apply preserves_time_time|].
  intros start_time.
  apply raises_only_bind; [apply raises_only_log|apply preserves_log|]. intros _.
  apply raises_only_try_except; [preserves_conn H|reported].
Qed.

Lemma raises_only_GCP_copy_file self sc sp dc dp :
  touched self -> raises_only (GCP_copy_file self sc sp dc dp).
Proof.
  intros H. unfold GCP_copy_file. raises_method H GCP_authenticate_outcome.
  apply raises_only_bind; [apply raises_only_time_time|apply preserves_time_time|].
  intros start_time.
  apply raises_only_bind; [apply raises_only_log|apply preserves_log|]. intros _.
  apply raises_only_try_except; [preserves_conn H|reported].
Qed.

Lemma raises_only_Azure_delete_file self container remote_path :
  touched self -> raises_only (Azure_delete_file self container remote_path).
Proof.
  intros H. unfold Azure_delete_file. raises_method H Azure_authenticate_outcome.
  apply raises_only_try_except; [preserves_conn H|reported].
Qed.

Lemma raises_only_GCP_delete_file self container remote_path :
  touched self -> raises_only (GCP_delete_file self container remote_path).
Proof.
  intros H. unfold GCP_delete_file. raises_method H GCP_authenticate_outcome.
  apply raises_only_try_except; [preserves_conn H|reported].
Qed.

Lemma raises_only_Azure_file_exists self container remote_path :
  touched self -> raises_only (Azure_file_exists self container remote_path).
Proof.
  intros H. unfold Azure_file_exists.
  apply raises_only_bind;
    [apply raises_only_ensure_client;
     [exact H|apply raises_only_authenticate; intros ?; apply Azure_authenticate_outcome]
    |preserves_conn H|intros _].
  apply raises_only_try_except; [preserves_auto|intros ?; apply raises_only_ret].
Qed.

Lemma raises_only_GCP_file_exists self container remote_path :
  touched self -> raises_only (GCP_file_exists self container remote_path).
Proof.
  intros H. unfold GCP_file_exists.
  apply raises_only_bind;
    [apply raises_only_ensure_client;
     [exact H|apply raises_only_authenticate; intros ?; apply GCP_authenticate_outcome]
    |preserves_conn H|intros _].
  apply raises_only_try_except; [preserves_auto|intros ?; apply raises_only_ret].
Qed.

End Frames.

(** ** The connector cache *)

(** The cache after a call that works on the connectors of the keys in [K]:
    every other entry is what it was; an entry that was there is still
    there, with its class, and with its client handle if it had one. *)
Definition frame (K : string -> Prop) (st st' : State) : Prop :=
  (forall k, ~ K k -> connectors st' !! k = connectors st !! k)
  /\ (forall k c, connectors st !! k = Some c ->
        exists c', connectors st' !! k = Some c'
                   /\ provider c' = provider c
                   /\ (client c = true -> client c' = true)).

Lemma frame_refl K st : frame K st st.
Proof. split; [reflexivity|]. intros k c H. now exists c. Qed.

Lemma frame_trans K a b c : frame K a b -> frame K b c -> frame K a c.
Proof.
  intros [H1 H2] [H3 H4]. split.
  - intros k Hk. now rewrite H3, H1.
  - intros k x Hx. destruct (H2 k x Hx) as (y & Hy & Hp & Hc).
    destruct (H4 k y Hy) as (z & Hz & Hp' & Hc'). exists z.
    repeat split; [assumption|congruence|auto].
Qed.

Lemma frame_env K st e : frame K st (with_env e st).
Proof. exact (frame_refl K (with_env e st)). Qed.

Lemma frame_record K st ev : frame K st (record ev st).
Proof. exact (frame_refl K (record ev st)). Qed.

Lemma frame_client (K : string -> Prop) self st :
  K self -> frame K st (snd (set_client self st)).
Proof.
  intros HK. split; simpl.
  - intros k Hk. apply lookup_alter_ne. congruence.
  - intros k c Hc. destruct (decide (self = k)) as [->|Hne].
    + rewrite lookup_alter_eq, Hc. simpl. eexists. repeat split.
    + rewrite lookup_alter_ne by assumption. now exists c.
Qed.

Lemma frame_store (K : string -> Prop) p c st :
  K p -> connectors st !! p = None -> frame K st (snd (store_connector p c st)).
Proof.
  intros HK Hp. split; simpl.
  - intros k Hk. apply lookup_insert_ne. congruence.
  - intros k x Hx. destruct (decide (p = k)) as [->|Hne]; [congruence|].
    rewrite lookup_insert_ne by assumption. now exists x.
Qed.

Ltac framed K :=
  first [ exact (frame_refl K) | exact (frame_trans K) | exact (frame_env K)
        | exact (frame_record K) | exact (frame_client K) | exact (frame_store K)
        | reflexivity | tauto ].

Lemma frame_authenticate self : preserves (frame (eq self)) (authenticate self).
Proof. apply preserves_authenticate with (touched := eq self); framed (eq self). Qed.

Lemma frame_upload_file self local_path container remote_path kw :
  preserves (frame (eq self)) (upload_file self local_path container remote_path kw).
Proof. apply preserves_upload_file with (touched := eq self); framed (eq self). Qed.

Lemma frame_download_file self container remote_path local_path :
  preserves (frame (eq self)) (download_file self container remote_path local_path).
Proof. apply preserves_download_file with (touched := eq self); framed (eq self). Qed.

Lemma frame_copy_file self sc sp dc dp kw :
  preserves (frame (eq self)) (copy_file self sc sp dc dp kw).
Proof. apply preserves_copy_file with (touched := eq self); framed (eq self). Qed.

Lemma frame_delete_file self container remote_path :
  preserves (frame (eq self)) (delete_file self container remote_path).
Proof. apply preserves_delete_file with (touched := eq self); framed (eq self). Qed.

Lemma frame_file_exists self container remote_path :
  preserves (frame (eq self)) (file_exists self container remote_path).
Proof. apply preserves_file_exists with (touched := eq self); framed (eq self). Qed.

Lemma frame_get_connector p : preserves (frame (eq p)) (_get_connector p).
Proof. apply preserves_get_connector with (touched := eq p); framed (eq p). Qed.

(** X2: a method called on a connector changes no other entry of the
    manager's [_connectors]; whatever is done through the manager adds
    entries under [aws], [azure] and [gcp] only; and no call removes or
    replaces an entry that is there, changes its class, or takes away a
    client handle that is set. *)
Theorem connector_cache_frame :
  (forall self, preserves (frame (eq self)) (authenticate self))
  /\ (forall self local_path container remote_path kw,
        preserves (frame (eq self)) (upload_file self local_path container remote_path kw))
  /\ (forall self container remote_path local_path,
        preserves (frame (eq self)) (download_file self container remote_path local_path))
  /\ (forall self sc sp dc dp kw,
        preserves (frame (eq self)) (copy_file self sc sp dc dp kw))
  /\ (forall self container remote_path,
        preserves (frame (eq self)) (delete_file self container remote_path))
  /\ (forall self container remote_path,
        preserves (frame (eq self)) (file_exists self container remote_path))
  /\ (forall p, preserves (frame (eq p)) (_get_connector p))
  /\ (forall source_url dest_url kw,
        preserves (frame (fun k => In k provider_names))
          (copy_file_direct source_url dest_url kw))
  /\ (forall transfers kw,
        preserves (frame (fun k => In k provider_names)) (batch_copy transfers kw)).
Proof.
  repeat match goal with |- _ /\ _ => split end; intros.
  - apply frame_authenticate.
  - apply frame_upload_file.
  - apply frame_download_file.
  - apply frame_copy_file.
  - apply frame_delete_file.
  - apply frame_file_exists.
  - apply frame_get_connector.
  - apply preserves_copy_file_direct with (touched := fun k => In k provider_names);
      framed (fun k => In k provider_names).
  - apply preserves_batch_copy with (touched := fun k => In k provider_names);
      framed (fun k => In k provider_names).
Qed.

(** ** [_get_connector] *)

Lemma get_connector_hit p c (st : State) :
  connectors st !! p = Some c -> _get_connector p st = (Returns p, st).
Proof.
  intros H. unfold _get_connector, bind, get_self, ret. rewrite H. simpl. now rewrite H.
Qed.

Lemma get_connector_miss p c (st : State) :
  connectors st !! p = None -> get_connector_by_name p = inr c ->
  _get_connector p st =
    match authenticate p (snd (store_connector p c st)) with
    | (Returns true, st1) => (get_self p ;;; ret p) st1
    | (Returns false, st1) =>
        (Raises (Exc Exception ("Failed to authenticate with " +:+ p)), st1)
    | (Raises x, st1) => (Raises x, st1)
    | (Hangs, st1) => (Hangs, st1)
    end.
Proof.
  intros H Hc. unfold _get_connector. unfold bind at 1. rewrite H.
  unfold bind at 1, lift. rewrite Hc. simpl. unfold bind at 1. simpl.
  unfold bind at 1.
  destruct (authenticate p _) as [[[]|x|] st1]; reflexivity.
Qed.

Lemma provider_names_connector p :
  In p provider_names ->
  exists k, get_connector_by_name p = inr (mkConnector k false)
            /\ In (p, k) [("aws", AWS_S3); ("azure", AZURE_BLOB); ("gcp", GCP_STORAGE)].
Proof.
  intros [<-|[<-|[<-|[]]]]; eexists; (split; [reflexivity|]); simpl; auto.
Qed.

Lemma authenticate_outcome self (c : Connector) (st : State) :
  connectors st !! self = Some c ->
  match fst (authenticate self st) with
  | Returns b => b = true
  | Raises x => authentication_failure x
  | Hangs => False
  end.
Proof.
  intros Hc. rewrite (dispatch_authenticate self c st Hc).
  destruct (provider c);
    [apply S3_authenticate_outcome|apply Azure_authenticate_outcome
    |apply GCP_authenticate_outcome].
Qed.

(** X3: for the provider of a URL that parses, [_get_connector] returns the
    provider's key or raises what [authenticate] raised, never anything
    else: the factory knows every name the parser gives, and the branch
    "Failed to authenticate with" is never taken.  A connector that is
    cached is returned as it is, without a call or a check of its client
    handle.  The connector is stored before it authenticates: when the
    authentication raises, it stays cached, and the next call returns it
    without authenticating. *)
Theorem get_connector_outcomes url p container path (st : State) :
  _parse_cloud_url url = inr (p, container, path) ->
  match fst (_get_connector p st) with
  | Returns s => s = p
  | Raises x => authentication_failure x
  | Hangs => False
  end
  /\ (forall c, connectors st !! p = Some c -> _get_connector p st = (Returns p, st))
  /\ (forall x st1, _get_connector p st = (Raises x, st1) ->
        connectors st !! p = None
        /\ (exists c, connectors st1 !! p = Some c)
        /\ _get_connector p st1 = (Returns p, st1)).
Proof.
  intros Hp. apply parse_cloud_url_provider in Hp.
  destruct (provider_names_connector p Hp) as (k & Hk & _).
  destruct (connectors st !! p) as [c|] eqn:Hc.
  - rewrite (get_connector_hit p c st Hc). simpl.
    split; [reflexivity|]. split; [intros c' _; reflexivity|]. intros x st1 [=].
  - rewrite (get_connector_miss p _ st Hc Hk).
    set (st0 := snd (store_connector p (mkConnector k false) st)).
    assert (connectors st0 !! p = Some (mkConnector k false)) as H0
      by apply lookup_insert_eq.
    pose proof (authenticate_outcome p _ st0 H0) as Hout.
    pose proof (frame_authenticate p st0) as [_ Hfr].
    destruct (Hfr p _ H0) as (c1 & Hc1 & _).
    destruct (authenticate p st0) as [[b|x|] st1]; simpl in *; [subst b| |contradiction].
    + unfold bind, get_self, ret. rewrite Hc1. simpl.
      split; [reflexivity|]. split; [intros c' [=]|]. intros x st2 [=].
    + split; [assumption|]. split; [intros c' [=]|].
      intros x' st2 [= <- <-]. split; [reflexivity|].
      split; [now exists c1|]. apply (get_connector_hit p c1 st1 Hc1).
Qed.

(** ** What the connector methods raise and what they report *)

Lemma local_file_size_missing local_path (st : State) :
  files (env st) !! local_path = None ->
  local_file_size local_path st
  = (Raises (Exc FileNotFoundError ("Local file '" +:+ local_path +:+ "' not found")), st).
Proof.
  intros H. unfold local_file_size, bind, path_exists. simpl.
  rewrite bool_decide_eq_false_2; [reflexivity|]. rewrite H. now intros [x Hx].
Qed.

Lemma local_file_size_present local_path n (st : State) :
  files (env st) !! local_path = Some n ->
  local_file_size local_path st = (Returns n, st).
Proof.
  intros H. unfold local_file_size, bind, path_exists, stat_size. simpl.
  rewrite bool_decide_eq_true_2 by (rewrite H; eauto). now rewrite H.
Qed.

(** The head of the three [upload_file] methods, up to the size of the
    local file. *)
Lemma upload_head_missing auth self (c : Connector) local_path (st : State)
    (rest : Z -> Z -> M TransferResult) :
  connectors st !! self = Some c -> client c = true ->
  files (env st) !! local_path = None ->
  (ensure_client auth self ;;;
   start_time <- time_time ;;
   file_size <- local_file_size local_path ;;
   rest start_time file_size) st
  = (Raises (Exc FileNotFoundError ("Local file '" +:+ local_path +:+ "' not found")), st).
Proof.
  intros Hc Hcl Hf. unfold bind at 1. rewrite (ensure_client_set _ self c st Hc Hcl).
  unfold bind at 1, time_time. simpl. unfold bind at 1.
  now rewrite (local_file_size_missing local_path st Hf).
Qed.

(** X4: the upload of a local file that does not exist raises
    [FileNotFoundError] from every connector: the check stands before the
    [try] block, so no failed [TransferResult] is returned; nothing was
    sent, nothing was logged, and the error is not retried. *)
Theorem upload_missing_local_file self (c : Connector)
    local_path container remote_path kw (st : State) :
  connectors st !! self = Some c -> client c = true ->
  files (env st) !! local_path = None ->
  upload_file self local_path container remote_path kw st
  = (Raises (Exc FileNotFoundError ("Local file '" +:+ local_path +:+ "' not found")), st).
Proof.
  intros Hc Hcl Hf. unfold upload_file, bind at 1, get_self. rewrite Hc.
  destruct (provider c);
    [unfold S3_upload_file|unfold Azure_upload_file|unfold GCP_upload_file];
    rewrite with_retry_decided;
    rewrite (upload_head_missing _ self c local_path st
               (fun start_time file_size => _) Hc Hcl Hf);
    try reflexivity; simpl; intros e [= <-]; reflexivity.
Qed.

(** A [try] block whose handler returns for every exception raises nothing. *)
Lemma try_except_total (A : Type) (body : M A) (handler : exc -> M A) (st : State) :
  (forall e s, exists r s', handler e s = (Returns r, s')) ->
  forall e, fst (try_except body handler st) <> Raises e.
Proof.
  intros Hh e. unfold try_except. destruct (body st) as [[a|x|] st1]; try discriminate.
  destruct (Hh x st1) as (r & s' & ->). discriminate.
Qed.

Ltac enter_method Hc Hcl :=
  unfold bind at 1; rewrite (ensure_client_set _ _ _ _ Hc Hcl);
  unfold bind at 1, time_time; simpl.

Ltac reports :=
  apply try_except_total; intros ? ?;
  unfold bind, log_operation_error, log; simpl; eauto.

(** X5: with their client handle set, the Azure and the GCP connector
    raise nothing from [copy_file], and nothing from [upload_file] once the
    local file is there: whatever their requests raise comes back as a
    failed [TransferResult].  The S3 connector catches [ClientError] only:
    another exception of its first request leaves [copy_file] as it is. *)
Theorem copy_file_containment self (c : Connector) (st : State) :
  connectors st !! self = Some c -> client c = true ->
  (provider c <> AWS_S3 -> forall sc sp dc dp kw e,
     fst (copy_file self sc sp dc dp kw st) <> Raises e)
  /\ (provider c <> AWS_S3 -> forall local_path container remote_path kw e,
      is_Some (files (env st) !! local_path) ->
      fst (upload_file self local_path container remote_path kw st) <> Raises e)
  /\ (provider c = AWS_S3 -> forall sc sp dc dp kw e env',
      sdk (S3HeadObject sc sp) (env st) = (inl e, env') ->
      is_ClientError e = false -> RETRIABLE_EXCEPTIONS e = false ->
      fst (copy_file self sc sp dc dp kw st) = Raises e).
Proof.
  intros Hc Hcl. split; [|split].
  - intros Hp sc sp dc dp kw. unfold copy_file, bind at 1, get_self. rewrite Hc.
    destruct (provider c); [now elim Hp| |];
      [unfold Azure_copy_file|unfold GCP_copy_file];
      match goal with
      | |- forall e, fst (with_retry _ _ _ ?f st) <> _ =>
          assert (forall e, fst (f st) <> Raises e) as H
            by (enter_method Hc Hcl; unfold bind at 1, log_operation_start, log; simpl;
                reports);
          rewrite with_retry_decided; [exact H|intros e He; elim (H e He)]
      end.
  - intros Hp local_path container remote_path kw e [n Hn].
    revert e. unfold upload_file, bind at 1, get_self. rewrite Hc.
    destruct (provider c); [now elim Hp| |];
      [unfold Azure_upload_file|unfold GCP_upload_file];
      match goal with
      | |- forall e, fst (with_retry _ _ _ ?f st) <> _ =>
          assert (forall e, fst (f st) <> Raises e) as H
            by (enter_method Hc Hcl; unfold bind at 1;
                rewrite (local_file_size_present local_path n st Hn);
                unfold bind at 1, log_operation_start, log; simpl; reports);
          rewrite with_retry_decided; [exact H|intros e He; elim (H e He)]
      end.
  - intros Hp sc sp dc dp kw e env' Hsdk Hce Hre.
    unfold copy_file, bind at 1, get_self. rewrite Hc, Hp. unfold S3_copy_file.
    match goal with
    | |- fst (with_retry _ _ _ ?f st) = _ =>
        assert (exists st1, f st = (Raises e, st1)) as [st1 H]
          by (enter_method Hc Hcl; unfold bind at 1, log_operation_start, log; simpl;
              unfold try_except, bind at 1, call; simpl; rewrite Hsdk; simpl;
              rewrite Hce; eexists; reflexivity);
        rewrite with_retry_decided; rewrite H; [reflexivity|]
    end.
    simpl. now intros e' [= <-].
Qed.

(** The request with which each [download_file] asks for the object before
    it downloads it, the name under which it logs, the URL it reports and
    the message it gives to an exception of that request. *)
Definition probe_request (p : CloudProvider) (container remote_path : string) : sdk_op :=
  match p with
  | AWS_S3 => S3HeadObject container remote_path
  | AZURE_BLOB => AzureGetBlobProperties container remote_path
  | GCP_STORAGE => GcpBlobExists container remote_path
  end.

Definition download_operation (p : CloudProvider) : string :=
  match p with
  | AWS_S3 => "s3_download"
  | AZURE_BLOB => "azure_download"
  | GCP_STORAGE => "gcp_download"
  end.

Definition object_url (p : CloudProvider) (container remote_path : string) : string :=
  match p with
  | AWS_S3 => s3_url container remote_path
  | AZURE_BLOB => azure_url container remote_path
  | GCP_STORAGE => gcs_url container remote_path
  end.

Definition probe_message (p : CloudProvider) (container remote_path : string) (e : exc)
    : string :=
  let not_found := "File '" +:+ object_url p container remote_path +:+ "' not found" in
  match p with
  | AWS_S3 =>
      if String.eqb (error_code e) "NoSuchKey" then not_found
      else "S3 download failed: " +:+ str_exc e
  | AZURE_BLOB =>
      if is_ResourceNotFoundError e then not_found
      else "Azure download failed: " +:+ str_exc e
  | GCP_STORAGE =>
      if is_NotFound e then not_found
      else "GCP download failed: " +:+ str_exc e
  end.

(** The trace of a download that ends at its first request. *)
Definition probe_trace (p : CloudProvider) (container remote_path local_path : string)
    : list Event :=
  [EvCall (OsMkdirParents local_path);
   EvLog INFO "Operation started" (download_operation p);
   EvCall (probe_request p container remote_path);
   EvLog ERROR "Operation failed" (download_operation p)].

(** X6: a download whose first request (the size or existence probe) fails
    returns a failed [TransferResult] and sends no download request: the
    trace ends with the probe and the error log.  The message is "File
    '<url>' not found" for the not-found error of the S3 ([NoSuchKey]) and
    Azure probes and for a [NotFound] raised by the GCP probe, and the
    provider's "download failed" message otherwise; a GCP blob whose
    [exists()] answers [False] is reported through that second message. *)
Theorem download_probe_failure self (c : Connector) container remote_path local_path
    (st : State) (env1 : Env) :
  connectors st !! self = Some c -> client c = true ->
  sdk (OsMkdirParents local_path) (env st) = (inr tt, env1) ->
  (forall e env2,
     sdk (probe_request (provider c) container remote_path) env1 = (inl e, env2) ->
     (provider c = AWS_S3 -> is_ClientError e = true) ->
     let r := download_file self container remote_path local_path st in
     fst r = Returns (result_failed (object_url (provider c) container remote_path)
                        local_path (probe_message (provider c) container remote_path e))
     /\ events (snd r)
        = (events st ++ probe_trace (provider c) container remote_path local_path)%list
     /\ env (snd r) = env2)
  /\ (provider c = GCP_STORAGE -> forall env2,
      sdk (GcpBlobExists container remote_path) env1 = (inr false, env2) ->
      let r := download_file self container remote_path local_path st in
      fst r = Returns (result_failed (gcs_url container remote_path) local_path
                         ("GCP download failed: File '" +:+ gcs_url container remote_path
                          +:+ "' not found"))
      /\ events (snd r)
         = (events st ++ probe_trace GCP_STORAGE container remote_path local_path)%list
      /\ env (snd r) = env2).
Proof.
  intros Hc Hcl Hmk.
  assert (forall r s, download_file self container remote_path local_path st = (Returns r, s) ->
          forall r' evs env2, r = r' -> events s = evs -> env s = env2 ->
          fst (download_file self container remote_path local_path st) = Returns r'
          /\ events (snd (download_file self container remote_path local_path st)) = evs
          /\ env (snd (download_file self container remote_path local_path st)) = env2)
    as Hsplit by (intros r s -> r' evs env2 <- <- <-; repeat split).
  split.
  - intros e env2 Hsdk Hs3 r. subst r.
    destruct (provider c) eqn:Hp; simpl in Hsdk;
      (eapply Hsplit;
       [unfold download_file, bind at 1, get_self; rewrite Hc, Hp;
        unfold S3_download_file, Azure_download_file, GCP_download_file;
        match goal with
        | |- with_retry _ _ _ ?f st = _ =>
            eassert (f st = (Returns _, _)) as H
              by (enter_method Hc Hcl; unfold bind at 1, call; rewrite Hmk; simpl;
                  unfold bind at 1, log_operation_start, log; simpl;
                  unfold try_except, bind at 1, call; simpl; rewrite Hsdk; simpl;
                  try rewrite (Hs3 eq_refl); reflexivity);
            rewrite with_retry_decided; rewrite H;
            [|simpl; discriminate]
        end; reflexivity
       |reflexivity
       |simpl; rewrite <- !app_assoc; reflexivity
       |reflexivity]).
  - intros Hp env2 Hsdk r. subst r.
    eapply Hsplit;
      [unfold download_file, bind at 1, get_self; rewrite Hc, Hp;
       unfold GCP_download_file;
       match goal with
       | |- with_retry _ _ _ ?f st = _ =>
           eassert (f st = (Returns _, _)) as H
             by (enter_method Hc Hcl; unfold bind at 1, call; rewrite Hmk; simpl;
                 unfold bind at 1, log_operation_start, log; simpl;
                 unfold try_except, bind at 1, call; simpl; rewrite Hsdk; simpl;
                 reflexivity);
           rewrite with_retry_decided; rewrite H;
           [|simpl; discriminate]
       end; reflexivity
      |reflexivity
      |simpl; rewrite <- !app_assoc; reflexivity
      |reflexivity].
Qed.

(** ** The legs of the staged copy *)

Lemma bind_returns (A B : Type) (m : M A) (k : A -> M B) (st st' : State) (b : B) :
  bind m k st = (Returns b, st') ->
  exists a s1, m st = (Returns a, s1) /\ k a s1 = (Returns b, st').
Proof.
  unfold bind. destruct (m st) as [[a|e|] s1]; try discriminate. intros H. now exists a, s1.
Qed.

Lemma append_inj_l (p a b : string) : p +:+ a = p +:+ b -> a = b.
Proof. induction p as [|c p IH]; simpl; [auto|]. intros [= H]. auto. Qed.

Lemma get_connector_returns_key p a (st s1 : State) :
  _get_connector p st = (Returns a, s1) -> a = p.
Proof.
  intros H. pose proof (get_connector_returns p st) as Hr. now rewrite H in Hr.
Qed.

Lemma cleanup_temp_connectors p (st : State) :
  connectors (snd (cleanup_temp p st)) = connectors st.
Proof.
  apply (preserves_cleanup_temp (fun a b => connectors b = connectors a));
    intros; first [reflexivity|congruence].
Qed.

(** X7: when the staged copy reports "Download failed: ...", the run was:
    get the source connector, download, remove the staging file.  The
    destination was not looked at: no connector was created for it and none
    was asked anything, and its cache entry is what it was.  The result
    names both objects by provider, container and path and carries the
    message of the failed download. *)
Theorem failed_download_skips_destination sp sc spath dp dc dpath kw (st : State)
    (res : TransferResult) (msg : string) :
  fst (_copy_via_temp sp sc spath dp dc dpath kw st) = Returns res ->
  error_message res = Some ("Download failed: " +:+ msg) ->
  let staging := temp_path (clock (env st)) spath in
  (exists st1 d st2,
     _get_connector sp st = (Returns sp, st1)
     /\ download_file sp sc spath staging st1 = (Returns d, st2)
     /\ success d = false
     /\ msg = default "None" (error_message d)
     /\ res = result_failed (cloud_url sp sc spath) (cloud_url dp dc dpath)
                ("Download failed: " +:+ msg)
     /\ snd (_copy_via_temp sp sc spath dp dc dpath kw st)
        = snd (cleanup_temp staging st2)
     /\ (sp <> dp ->
         connectors (snd (_copy_via_temp sp sc spath dp dc dpath kw st)) !! dp
         = connectors st !! dp)).
Proof.
  intros Hret Hmsg staging.
  remember (_copy_via_temp sp sc spath dp dc dpath kw st) as run eqn:Hrun.
  unfold _copy_via_temp in Hrun. unfold bind at 1 2, time_time in Hrun.
  simpl in Hrun. fold staging in Hrun. unfold try_finally in Hrun.
  match type of Hrun with
  | context [match ?b st with _ => _ end] => destruct (b st) as [[r|e|] stb] eqn:Hb
  end;
    [|destruct (cleanup_temp staging stb) as [[[]|e'|] s]; subst run; discriminate
     |subst run; discriminate].
  pose proof (cleanup_temp_spec staging stb) as (Hcl & _).
  pose proof (cleanup_temp_connectors staging stb) as Hcc.
  destruct (cleanup_temp staging stb) as [o s] eqn:Hclean. simpl in Hcl, Hcc. subst o.
  subst run. simpl in Hret. injection Hret as ->. simpl.
  apply bind_returns in Hb as (a & st1 & Hg & Hb).
  pose proof (get_connector_returns_key _ _ _ _ Hg) as ->.
  apply bind_returns in Hb as (d & st2 & Hd & Hb).
  destruct (success d) eqn:Hsd; simpl in Hb.
  - exfalso.
    apply bind_returns in Hb as (a & st3 & Hg' & Hb).
    apply bind_returns in Hb as (u & st4 & Hu & Hb).
    destruct (success u); simpl in Hb.
    + apply bind_returns in Hb as (t & st5 & _ & Hb). injection Hb as <- _.
      discriminate Hmsg.
    + injection Hb as <- _. discriminate Hmsg.
  - injection Hb as <- <-.
    change (Some ("Download failed: " +:+ default "None" (error_message d))
            = Some ("Download failed: " +:+ msg)) in Hmsg.
    injection Hmsg as Hm. apply append_inj_l in Hm. subst msg.
    exists st1, d, st2.
    split; [assumption|]. split; [assumption|]. split; [assumption|].
    split; [reflexivity|]. split; [reflexivity|].
    split; [now rewrite Hclean|].
    intros Hne. rewrite Hcc.
    pose proof (frame_get_connector sp st) as [H1 _]. rewrite Hg in H1.
    pose proof (frame_download_file sp sc spath staging st1) as [H2 _]. rewrite Hd in H2.
    simpl in H1, H2. rewrite H2, H1 by congruence. reflexivity.
Qed.

(** ** [retry_operation] *)

(** What [time.sleep] raises for a negative length. *)
Definition sleep_refused : exc := Exc ValueError "sleep length must be non-negative".

Lemma retry_loop_outcome (A : Type) (operation : M A) (name : string)
    (max_attempts delay : Z) (attempts : list Z) :
  Forall (fun k => 1 <= k <= max_attempts) attempts ->
  forall (last : option exc) (st : State),
    (attempts = [] -> is_Some last) ->
    (forall e, last = Some e -> exists s, fst (operation s) = Raises e) ->
    match fst (retry_loop operation name max_attempts delay attempts last st) with
    | Returns a => exists s, fst (operation s) = Returns a
    | Raises x =>
        (exists s, fst (operation s) = Raises x)
        \/ (delay < 0 /\ 2 <= max_attempts /\ x = sleep_refused)
    | Hangs => exists s, fst (operation s) = Hangs
    end.
Proof.
  induction 1 as [|attempt rest Hk _ IH]; intros last st Hne Hlast; simpl.
  - destruct (Hne eq_refl) as [e ->]. simpl. left. now apply Hlast.
  - unfold try_except, bind at 1.
    destruct (operation st) as [[a|e|] st1] eqn:Hop; simpl.
    + unfold bind. destruct (1 <? attempt); simpl; exists st; now rewrite Hop.
    + unfold bind at 1, log_retry_attempt, log. simpl.
      destruct (Z.eqb_spec attempt max_attempts).
      * simpl. left. exists st. now rewrite Hop.
      * unfold bind at 1.
        destruct (Z.lt_ge_cases (Z.min (delay * 2 ^ (attempt - 1)) 60) 0) as [Hneg|Hpos].
        -- rewrite (time_sleep_negative _ _ Hneg). simpl. right.
           assert (0 <= 2 ^ (attempt - 1)) by (apply Z.pow_nonneg; lia).
           split; [nia|]. split; [lia|reflexivity].
        -- rewrite (time_sleep_nonneg _ _ Hpos).
           apply IH; [eauto|]. intros e' [= <-]. exists st. now rewrite Hop.
    + exists st. now rewrite Hop.
Qed.

Lemma seqZ_attempts (n : Z) : Forall (fun k => 1 <= k <= n) (seqZ 1 n).
Proof. apply Forall_forall. intros k Hk. apply elem_of_seqZ in Hk. lia. Qed.

(** X8: with an attempt to make, [retry_operation] gives what some call of
    the operation gave, its value or the exception it raised (never a
    wrapper around it), unless the delay is negative: then the first failed
    attempt that is not the last ends in the [ValueError] of [time.sleep],
    raised in the [except] block after the attempt was logged.  A first
    call that returns ends it at once, with no log and no sleep.  With no
    attempt to make (the effective [max_attempts] is 0 or less) the
    operation is not called and the statement after the loop, "raise
    last_exception" with [None], raises [TypeError]. *)
Theorem retry_operation_outcomes (A : Type) (operation : M A) (name : string)
    (max_attempts delay : option Z) (st : State) :
  let n := py_or max_attempts (max_retries config) in
  let d := py_or delay (retry_delay config) in
  (n <= 0 ->
   retry_operation operation name max_attempts delay st
   = (Raises (Exc TypeError "exceptions must derive from BaseException"), st))
  /\ (1 <= n -> forall a st', operation st = (Returns a, st') ->
      retry_operation operation name max_attempts delay st = (Returns a, st'))
  /\ (1 <= n ->
      match fst (retry_operation operation name max_attempts delay st) with
      | Returns a => exists s, fst (operation s) = Returns a
      | Raises x =>
          (exists s, fst (operation s) = Raises x)
          \/ (d < 0 /\ 2 <= n /\ x = sleep_refused)
      | Hangs => exists s, fst (operation s) = Hangs
      end)
  /\ (2 <= n -> d < 0 -> forall e st', operation st = (Raises e, st') ->
      retry_operation operation name max_attempts delay st
      = (Raises sleep_refused, record (EvLog WARNING "Retry attempt" name) st')).
Proof.
  intros n d. unfold retry_operation. fold n d. split; [|split; [|split]].
  - intros Hn. unfold seqZ. replace (Z.to_nat n) with O by lia. reflexivity.
  - intros Hn a st' Hop. rewrite seqZ_head by lia. simpl.
    unfold try_except, bind. now rewrite Hop.
  - intros Hn. apply retry_loop_outcome; [apply seqZ_attempts| |discriminate].
    rewrite seqZ_head by lia. discriminate.
  - intros Hn Hd e st' Hop. rewrite seqZ_head by lia. cbn [retry_loop].
    unfold try_except, bind at 1. rewrite Hop.
    unfold bind at 1, log_retry_attempt, log. cbv beta iota.
    destruct (Z.eqb_spec 1 n); [lia|]. unfold bind at 1.
    now rewrite (time_sleep_negative _ _ (backoff_negative d 1 Hd ltac:(lia))).
Qed.

(** ** The circuit breaker over its life *)

Lemma gate_keeps (self self' : CircuitBreaker) (now : Z) :
  circuit_gate self now = inl self' ->
  failure_count self' = failure_count self
  /\ failure_threshold self' = failure_threshold self
  /\ timeout self' = timeout self.
Proof.
  intros H. destruct (gate_cases _ _ _ H) as [[_ ->]|[_ ->]]; repeat split.
Qed.

Lemma on_success_keeps (self : CircuitBreaker) :
  failure_threshold (on_success self) = failure_threshold self
  /\ timeout (on_success self) = timeout self
  /\ (0 <= failure_count self -> 0 <= failure_count (on_success self))
  /\ (state self <> OPEN -> state (on_success self) = CLOSED).
Proof.
  unfold on_success. destruct (state self) eqn:Hs; simpl; repeat split; auto; try lia.
  intros H. now elim H.
Qed.

Lemma reachable_count (self : CircuitBreaker) : reachable self -> 0 <= failure_count self.
Proof.
  induction 1 as [th to|self self' now _ IH Hg|A self func st _ IH].
  - simpl. lia.
  - destruct (gate_keeps _ _ _ Hg) as (-> & _). exact IH.
  - unfold CircuitBreaker_call.
    destruct (circuit_gate self (clock (env st))) as [self1|e] eqn:Hg; simpl; [|exact IH].
    destruct (gate_keeps _ _ _ Hg) as (Hc & _).
    destruct (func st) as [[a|e|] st1]; simpl.
    + apply on_success_keeps. lia.
    + destruct (on_failure_state self1 (clock (env st1))) as (-> & _). lia.
    + lia.
Qed.

(** X9: over the life of a breaker (created by [__init__], then used
    through [call] only) the threshold and the timeout never change and the
    count is never negative; a breaker that is not closed has reached its
    threshold and has a failure time, so the gate can always compare the
    clock with it.  A call that returns is a call of [func] that returned,
    and it leaves the breaker closed; a call that raises either raises what
    [func] raised, or is the refusal of an open breaker, made without
    calling [func]; and no call that comes back leaves the breaker
    half-open. *)
Theorem circuit_breaker_invariants (self : CircuitBreaker) :
  reachable self ->
  0 <= failure_count self
  /\ (state self <> CLOSED ->
      failure_threshold self <= failure_count self /\ is_Some (last_failure_time self))
  /\ forall (A : Type) (func : M A) (st : State),
       let r := CircuitBreaker_call self func st in
       let self' := snd (fst r) in
       failure_threshold self' = failure_threshold self
       /\ timeout self' = timeout self
       /\ (forall a, fst (fst r) = Returns a ->
             func st = (Returns a, snd r) /\ state self' = CLOSED)
       /\ (forall e, fst (fst r) = Raises e ->
             (e = Exc builtins_ConnectionError "Circuit breaker is OPEN"
              /\ state self = OPEN /\ snd r = st /\ self' = self)
             \/ exists st1, func st = (Raises e, st1))
       /\ (fst (fst r) <> Hangs -> state self' <> HALF_OPEN).
Proof.
  intros Hr. pose proof (reachable_tripped _ Hr) as Ht.
  split; [now apply reachable_count|]. split; [exact Ht|].
  intros A func st r self'. subst self' r. unfold CircuitBreaker_call.
  destruct (circuit_gate self (clock (env st))) as [self1|e] eqn:Hg; simpl.
  - destruct (gate_keeps _ _ _ Hg) as (Hc & Hth & Hto).
    pose proof (gate_not_open _ _ _ Hg) as Hno.
    pose proof (tripped_gate _ _ _ Ht Hg) as Ht1.
    destruct (func st) as [[a|e|] st1] eqn:Hf; simpl.
    + destruct (on_success_keeps self1) as (H1 & H2 & _ & H4).
      split; [congruence|]. split; [congruence|].
      split; [intros a' [= <-]; split; [reflexivity|auto]|].
      split; [intros e [=]|]. intros _. rewrite (H4 Hno). discriminate.
    + destruct (on_failure_state self1 (clock (env st1))) as (H1 & H2 & H3 & H4 & H5).
      split; [congruence|]. split; [congruence|].
      split; [intros a [=]|].
      split; [intros e' [= <-]; right; eexists; reflexivity|].
      intros _. rewrite H5.
      destruct (Z.leb_spec (failure_threshold self1) (failure_count self1 + 1));
        [discriminate|].
      intros Hs. destruct Ht1 as [Hle _]; [congruence|lia].
    + split; [congruence|]. split; [congruence|].
      split; [intros a [=]|]. split; [intros e [=]|]. intros H. now elim H.
  - unfold circuit_gate in Hg. destruct (state self) eqn:Hs; try discriminate.
    destruct Ht as [_ [t Hl]]; [congruence|]. rewrite Hl in Hg.
    destruct (_ <? _); [discriminate|]. injection Hg as <-.
    split; [reflexivity|]. split; [reflexivity|].
    split; [intros a [=]|].
    split; [intros e [= <-]; left; repeat split|].
    intros _. congruence.
Qed.

(** ** The other methods of the manager *)

(** [MultiCloudTransferManager.upload_file], [download_file], [delete_file]
    and [file_exists]: parse the URL, get the connector, call its method.
    The keyword arguments of [download_file] go to the connector, whose
    [download_file] does not read them. *)
Definition MultiCloudTransferManager_upload_file (local_path dest_url : string)
    (kw : kwargs) : M TransferResult :=
  parsed <- lift (_parse_cloud_url dest_url) ;;
  let '(provider, container, remote_path) := parsed in
  connector <- _get_connector provider ;;
  upload_file connector local_path container remote_path kw.

Definition MultiCloudTransferManager_download_file (source_url local_path : string)
    : M TransferResult :=
  parsed <- lift (_parse_cloud_url source_url) ;;
  let '(provider, container, remote_path) := parsed in
  connector <- _get_connector provider ;;
  download_file connector container remote_path local_path.

Definition MultiCloudTransferManager_delete_file (cloud_url : string) : M bool :=
  parsed <- lift (_parse_cloud_url cloud_url) ;;
  let '(provider, container, remote_path) := parsed in
  connector <- _get_connector provider ;;
  delete_file connector container remote_path.

Definition MultiCloudTransferManager_file_exists (cloud_url : string) : M bool :=
  parsed <- lift (_parse_cloud_url cloud_url) ;;
  let '(provider, container, remote_path) := parsed in
  connector <- _get_connector provider ;;
  file_exists connector container remote_path.

(** The manager holds a connector for [p]; it holds one with a client
    handle. *)
Definition cached (p : string) (st : State) : Prop := is_Some (connectors st !! p).

Definition authenticated (p : string) (st : State) : Prop :=
  exists c, connectors st !! p = Some c /\ client c = true.

Lemma cached_frame K p st st' : cached p st -> frame K st st' -> cached p st'.
Proof.
  intros [c Hc] [_ H]. destruct (H p c Hc) as (c' & Hc' & _). now exists c'.
Qed.

Lemma authenticated_frame K p st st' :
  authenticated p st -> frame K st st' -> authenticated p st'.
Proof.
  intros (c & Hc & Hcl) [_ H]. destruct (H p c Hc) as (c' & Hc' & _ & Hcl').
  exists c'. auto.
Qed.

Lemma authenticated_set_client p self st :
  p = self -> cached p st -> authenticated p (snd (set_client self st)).
Proof.
  intros <- [c Hc]. exists (mkConnector (provider c) true). simpl.
  rewrite lookup_alter_eq, Hc. now split.
Qed.

Lemma authenticated_has_client p self c st :
  p = self -> connectors st !! self = Some c -> client c = true -> authenticated p st.
Proof. intros <- Hc Hcl. now exists c. Qed.

Lemma get_connector_cached p a (st s1 : State) :
  _get_connector p st = (Returns a, s1) -> cached p s1.
Proof.
  unfold _get_connector. intros H.
  apply bind_returns in H as ([] & s0 & _ & H).
  apply bind_returns in H as (c & s2 & H & H').
  injection H' as _ <-. unfold get_self in H.
  destruct (connectors s0 !! p) as [c'|] eqn:Hc; [|discriminate].
  injection H as _ <-. now exists c'.
Qed.

Ltac method_ensures lemma p :=
  eapply lemma with (R := frame (eq p)) (touched := eq p)
                    (P := cached p) (Q := authenticated p);
  first [ exact (frame_refl (eq p)) | exact (frame_trans (eq p))
        | exact (frame_env (eq p)) | exact (frame_record (eq p))
        | exact (frame_client (eq p))
        | exact (cached_frame (eq p) p) | exact (authenticated_frame (eq p) p)
        | exact (authenticated_set_client p) | exact (authenticated_has_client p)
        | reflexivity ].

(** What a manager method that got its connector and returned leaves. *)
Lemma manager_method_authenticated (A : Type) (method : string -> M A) url p
    container remote_path (st st' : State) (r : A) :
  _parse_cloud_url url = inr (p, container, remote_path) ->
  ensures (cached p) (authenticated p) (method p) ->
  (parsed <- lift (_parse_cloud_url url) ;;
   let '(provider, _, _) := parsed in
   connector <- _get_connector provider ;;
   method connector) st = (Returns r, st') ->
  authenticated p st'.
Proof.
  intros Hp Hm H. rewrite Hp in H. unfold bind at 1, lift, ret in H.
  apply bind_returns in H as (a & s1 & Hg & H).
  pose proof (get_connector_returns_key _ _ _ _ Hg) as ->.
  specialize (Hm s1 (get_connector_cached _ _ _ _ Hg)). now rewrite H in Hm.
Qed.

Lemma file_exists_one_request p (c : Connector) container remote_path (st : State) :
  connectors st !! p = Some c -> client c = true ->
  exists o env1,
    file_exists p container remote_path st
    = (o, mkState env1 (connectors st)
            (events st ++ [EvCall (exists_request (provider c) container remote_path)])).
Proof.
  intros Hc Hcl. rewrite (dispatch_file_exists p c container remote_path st Hc).
  destruct (provider c);
    [unfold S3_file_exists|unfold Azure_file_exists|unfold GCP_file_exists];
    unfold bind at 1; rewrite (ensure_client_set _ p c st Hc Hcl);
    unfold try_except, bind, call; simpl;
    destruct (sdk _ (env st)) as [[e|b] env1]; simpl;
    repeat match goal with |- context [if ?b then _ else _] => destruct b end;
    eexists; eexists; reflexivity.
Qed.

(** X10: one authentication per provider.  Whenever [upload_file],
    [download_file], [delete_file] or [file_exists] of the manager returns
    (even a failed result), the connector of the URL's provider is cached
    with its client handle set; and on a connector in that state
    [file_exists] sends the one existence request and nothing else: no
    authentication, no log, no change of the cache. *)
Theorem manager_authenticates_once url p container remote_path :
  _parse_cloud_url url = inr (p, container, remote_path) ->
  (forall local_path kw st r st',
     MultiCloudTransferManager_upload_file local_path url kw st = (Returns r, st') ->
     authenticated p st')
  /\ (forall local_path st r st',
       MultiCloudTransferManager_download_file url local_path st = (Returns r, st') ->
       authenticated p st')
  /\ (forall st r st',
       MultiCloudTransferManager_delete_file url st = (Returns r, st') ->
       authenticated p st')
  /\ (forall st r st',
       MultiCloudTransferManager_file_exists url st = (Returns r, st') ->
       authenticated p st')
  /\ (forall st c, connectors st !! p = Some c -> client c = true ->
       let r := MultiCloudTransferManager_file_exists url st in
       events (snd r)
       = (events st ++ [EvCall (exists_request (provider c) container remote_path)])%list
       /\ connectors (snd r) = connectors st).
Proof.
  intros Hp. split; [|split; [|split; [|split]]].
  - intros local_path kw st r st' H.
    eapply (manager_method_authenticated _
              (fun s => upload_file s local_path container remote_path kw)); eauto.
    method_ensures ensures_upload_file p.
    unfold MultiCloudTransferManager_upload_file in H. rewrite Hp in *. exact H.
  - intros local_path st r st' H.
    eapply (manager_method_authenticated _
              (fun s => download_file s container remote_path local_path)); eauto.
    method_ensures ensures_download_file p.
    unfold MultiCloudTransferManager_download_file in H. rewrite Hp in *. exact H.
  - intros st r st' H.
    eapply (manager_method_authenticated _
              (fun s => delete_file s container remote_path)); eauto.
    method_ensures ensures_delete_file p.
    unfold MultiCloudTransferManager_delete_file in H. rewrite Hp in *. exact H.
  - intros st r st' H.
    eapply (manager_method_authenticated _
              (fun s => file_exists s container remote_path)); eauto.
    method_ensures ensures_file_exists p.
    unfold MultiCloudTransferManager_file_exists in H. rewrite Hp in *. exact H.
  - intros st c Hc Hcl r. subst r.
    assert (MultiCloudTransferManager_file_exists url st
            = file_exists p container remote_path st) as ->.
    { unfold MultiCloudTransferManager_file_exists. rewrite Hp.
      unfold bind at 1, lift, ret. unfold bind at 1.
      now rewrite (get_connector_hit p c st Hc). }
    destruct (file_exists_one_request p c container remote_path st Hc Hcl)
      as (o & env1 & ->).
    split; reflexivity.
Qed.

(** The state in which the [try] block of [copy_file_direct] starts. *)
Definition started (st : State) : State :=
  record (EvLog INFO "Operation started" "multi_cloud_copy") st.

(** X11: [upload_file], [download_file], [delete_file] and [file_exists] of
    the manager have no [try] block: a URL that does not parse raises the
    parse error with the state as it was, and an authentication that fails
    raises its error to the caller, whatever the return type announces.
    [copy_file_direct] on two URLs of that provider turns the same failure
    into a failed [TransferResult] whose message is "Multi-cloud copy
    failed: " followed by the text of the error. *)
Theorem manager_methods_raise url local_path kw (st : State) :
  (forall e, _parse_cloud_url url = inl e ->
     MultiCloudTransferManager_upload_file local_path url kw st = (Raises e, st)
     /\ MultiCloudTransferManager_download_file url local_path st = (Raises e, st)
     /\ MultiCloudTransferManager_delete_file url st = (Raises e, st)
     /\ MultiCloudTransferManager_file_exists url st = (Raises e, st))
  /\ (forall p container remote_path x st1,
       _parse_cloud_url url = inr (p, container, remote_path) ->
       _get_connector p st = (Raises x, st1) ->
       MultiCloudTransferManager_upload_file local_path url kw st = (Raises x, st1)
       /\ MultiCloudTransferManager_download_file url local_path st = (Raises x, st1)
       /\ MultiCloudTransferManager_delete_file url st = (Raises x, st1)
       /\ MultiCloudTransferManager_file_exists url st = (Raises x, st1))
  /\ (forall p container remote_path dest_url dest_container dest_path x st1,
       _parse_cloud_url url = inr (p, container, remote_path) ->
       _parse_cloud_url dest_url = inr (p, dest_container, dest_path) ->
       _get_connector p (started st) = (Raises x, st1) ->
       fst (copy_file_direct url dest_url kw st)
       = Returns (mkTransferResult false url dest_url 0
                    (clock (env st1) - clock (env st))
                    (Some ("Multi-cloud copy failed: " +:+ str_exc x)))).
Proof.
  split; [|split].
  - intros e He.
    unfold MultiCloudTransferManager_upload_file, MultiCloudTransferManager_download_file,
      MultiCloudTransferManager_delete_file, MultiCloudTransferManager_file_exists.
    rewrite He. repeat split.
  - intros p container remote_path x st1 Hp Hg.
    unfold MultiCloudTransferManager_upload_file, MultiCloudTransferManager_download_file,
      MultiCloudTransferManager_delete_file, MultiCloudTransferManager_file_exists.
    rewrite Hp. unfold bind, lift, ret. rewrite Hg. repeat split.
  - intros p container remote_path dest_url dest_container dest_path x st1 Hp Hd Hg.
    unfold copy_file_direct, bind at 1 2 3, time_time, lift. rewrite Hp, Hd. simpl.
    unfold bind at 1, log_operation_start, log. simpl.
    unfold try_except, copy_parsed, bind at 1. rewrite String.eqb_refl.
    unfold bind at 1. fold (started st). rewrite Hg. reflexivity.
Qed.

(** ** [test_connections] *)

(** [CloudStorageConnector.test_connection]. *)
Definition test_connection (self : string) : M bool :=
  try_except (authenticate self) (fun _ => ret false).

(** A method called on a connector the caller has just made and keeps in a
    local variable: the object is not in the manager's dict, and it is
    dropped after the call. *)
Definition on_new_connector {A : Type} (c : Connector) (method : string -> M A) : M A :=
  fun st =>
    let '(r, st') :=
      method "connector" (mkState (env st) {["connector" := c]} (events st)) in
    (r, mkState (env st') (connectors st) (events st')).

(** The block [test_connections] has for each provider. *)
Definition connection_test (configured : bool) (provider_name event : string)
    : M (option bool) :=
  if configured
  then
    try_except
      (connector <- lift (get_connector_by_name provider_name) ;;
       result <- on_new_connector connector test_connection ;;
       ret (Some result))
      (fun e => log ERROR event "" ;;; ret (Some false))
  else ret None.

(** [MultiCloudTransferManager.test_connections]; the dict it returns, in
    the order of its keys. *)
Definition test_connections : M (list (string * option bool)) :=
  aws_s3 <- connection_test (validate_aws_config config) "aws"
              "AWS S3 connection test failed" ;;
  azure_blob <- connection_test (validate_azure_config config) "azure"
                  "Azure Blob connection test failed" ;;
  gcp_configured <- validate_gcp_config config ;;
  gcp_storage <- connection_test gcp_configured "gcp"
                   "GCP Storage connection test failed" ;;
  ret [("aws_s3", aws_s3); ("azure_blob", azure_blob); ("gcp_storage", gcp_storage)].

Lemma test_connection_returns self (st : State) :
  exists b st', test_connection self st = (Returns b, st').
Proof.
  unfold test_connection, try_except.
  pose proof (halts_authenticate self st) as H.
  destruct (authenticate self st) as [[b|e|] st']; simpl in H; eauto. now elim H.
Qed.

Lemma connection_test_spec (configured : bool) provider_name event (st : State) :
  In provider_name provider_names ->
  exists r st',
    connection_test configured provider_name event st = (Returns r, st')
    /\ connectors st' = connectors st
    /\ (r = None <-> configured = false)
    /\ (configured = false -> st' = st).
Proof.
  intros Hn. unfold connection_test. destruct configured.
  - destruct (provider_names_connector _ Hn) as (k & -> & _).
    unfold try_except, bind at 1, lift, ret. unfold bind at 1, on_new_connector.
    match goal with
    | |- context [test_connection ?self ?s] =>
        destruct (test_connection_returns self s) as (b & s' & ->)
    end.
    simpl. eexists _, _. split; [reflexivity|]. simpl.
    split; [reflexivity|]. split; [split; discriminate|discriminate].
  - eexists _, _. split; [reflexivity|]. repeat split; auto.
Qed.

(** X12: [test_connections] always returns, with the three entries
    [aws_s3], [azure_blob], [gcp_storage] in this order, and raises nothing
    whatever the providers answer.  The entries of AWS and of Azure are
    [None] exactly when the configuration of the provider does not
    validate, and the entry of GCP is [None] when its credentials or its
    project are not set; with no provider configured nothing is sent and
    nothing is logged.  The connectors it tests are its own: the manager's
    cache is what it was, so a passed test does not spare the first
    operation its authentication. *)
Theorem test_connections_outcomes (st : State) :
  exists aws_s3 azure_blob gcp_storage st',
    test_connections st
    = (Returns [("aws_s3", aws_s3); ("azure_blob", azure_blob);
                ("gcp_storage", gcp_storage)], st')
    /\ connectors st' = connectors st
    /\ (aws_s3 = None <-> validate_aws_config config = false)
    /\ (azure_blob = None <-> validate_azure_config config = false)
    /\ ((Str.truthy (google_application_credentials config)
         && Str.truthy (google_cloud_project_id config))%bool = false ->
        gcp_storage = None)
    /\ (validate_aws_config config = false ->
        validate_azure_config config = false ->
        (Str.truthy (google_application_credentials config)
         && Str.truthy (google_cloud_project_id config))%bool = false ->
        st' = st).
Proof.
  unfold test_connections.
  destruct (connection_test_spec (validate_aws_config config) "aws"
              "AWS S3 connection test failed" st)
    as (aws & st1 & H1 & Hc1 & Hn1 & Hs1); [simpl; auto|].
  destruct (connection_test_spec (validate_azure_config config) "azure"
              "Azure Blob connection test failed" st1)
    as (azure & st2 & H2 & Hc2 & Hn2 & Hs2); [simpl; auto|].
  unfold bind at 1. rewrite H1. unfold bind at 1. rewrite H2.
  unfold bind at 1.
  assert (exists valid, validate_gcp_config config st2 = (Returns valid, st2)
                        /\ ((Str.truthy (google_application_credentials config)
                             && Str.truthy (google_cloud_project_id config))%bool = false ->
                            valid = false)) as (valid & -> & Hv).
  { unfold validate_gcp_config. destruct (_ && _)%bool.
    - eexists. split; [reflexivity|discriminate].
    - eexists. split; [reflexivity|reflexivity]. }
  destruct (connection_test_spec valid "gcp" "GCP Storage connection test failed" st2)
    as (gcp & st3 & H3 & Hc3 & Hn3 & Hs3); [simpl; auto|].
  unfold bind at 1. rewrite H3.
  exists aws, azure, gcp, st3. split; [reflexivity|].
  split; [congruence|]. split; [exact Hn1|]. split; [exact Hn2|].
  split.
  - intros Hg. apply Hn3. auto.
  - intros Ha Hz Hg. rewrite (Hs3 (Hv Hg)), (Hs2 Hz), (Hs1 Ha). reflexivity.
Qed.

(** ** [cleanup] and the staging files *)

(** [Path(d).exists()] for a directory: the answer of the operating system. *)
Variable dir_exists : string -> Env -> bool.

Fixpoint has_slash (s : string) : bool :=
  match s with
  | EmptyString => false
  | String c r => (Ascii.eqb c "/" || has_slash r)%bool
  end.

Fixpoint strip_prefix (prefix s : string) : option string :=
  match prefix with
  | EmptyString => Some s
  | String c prefix' =>
      match s with
      | String c' s' => if Ascii.eqb c c' then strip_prefix prefix' s' else None
      | EmptyString => None
      end
  end.

(** [p] names an entry of the directory [dir] itself. *)
Definition child_of (dir p : string) : bool :=
  match strip_prefix (dir +:+ "/") p with
  | Some name => (negb (String.eqb name "") && negb (has_slash name))%bool
  | None => false
  end.

(** [dir.iterdir()]: the files of the directory, in some order.  [files]
    holds regular files only, so [is_file()] is true of each entry that is
    still there. *)
Definition iterdir (dir : string) : M (list string) :=
  fun st =>
    (Returns (List.filter (child_of dir) (List.map fst (map_to_list (files (env st))))), st).

(** The [for] loop of [cleanup] over the entries still to visit. *)
Fixpoint cleanup_loop (entries : list string) : M unit :=
  match entries with
  | [] => ret tt
  | temp_file :: rest =>
      is_file <- path_exists temp_file ;;
      (if is_file
       then unlink temp_file ;;; log DEBUG "Cleaned up temp file" temp_file
       else ret tt) ;;;
      cleanup_loop rest
  end.

(** [MultiCloudTransferManager.cleanup]. *)
Definition cleanup : M unit :=
  try_except
    (ex <- (fun st => (Returns (dir_exists _temp_dir (env st)), st)) ;;
     if ex
     then entries <- iterdir _temp_dir ;; cleanup_loop entries
     else ret tt)
    (fun e => log WARNING "Error during cleanup" "").

(** The state after the file [f] is removed and the removal logged. *)
Definition removed (f : string) (st : State) : State :=
  record (EvLog DEBUG "Cleaned up temp file" f)
    (with_env (mkEnv (clock (env st)) (delete f (files (env st)))
                 (undeletable (env st)) (remote (env st))) st).

Lemma cleanup_loop_cons (f : string) (rest : list string) (st : State) :
  cleanup_loop (f :: rest) st =
    match files (env st) !! f with
    | None => cleanup_loop rest st
    | Some _ =>
        if bool_decide (f ∈ undeletable (env st))
        then (Raises (Exc OSError "Permission denied"), st)
        else cleanup_loop rest (removed f st)
    end.
Proof.
  simpl. unfold bind at 1, path_exists. simpl.
  destruct (files (env st) !! f) as [n|] eqn:Hf.
  - rewrite bool_decide_eq_true_2 by eauto.
    unfold bind at 1. unfold bind at 1, unlink. rewrite Hf.
    case_bool_decide; reflexivity.
  - rewrite bool_decide_eq_false_2 by (intros [x Hx]; discriminate). reflexivity.
Qed.

Lemma cleanup_loop_spec (entries : list string) :
  forall st : State,
    let r := cleanup_loop entries st in
    fst r <> Hangs
    /\ connectors (snd r) = connectors st
    /\ (forall p, files (env (snd r)) !! p = files (env st) !! p
                  \/ (In p entries /\ files (env (snd r)) !! p = None))
    /\ ((forall p, In p entries -> is_Some (files (env st) !! p) ->
                   p ∉ undeletable (env st)) ->
        fst r = Returns tt /\ forall p, In p entries -> files (env (snd r)) !! p = None).
Proof.
  induction entries as [|f rest IH]; intros st r; subst r.
  - simpl. repeat split; try discriminate; auto. intros p [].
  - rewrite cleanup_loop_cons.
    destruct (files (env st) !! f) as [n|] eqn:Hf.
    + case_bool_decide as Hu; simpl.
      * split; [discriminate|]. split; [reflexivity|]. split; [auto|].
        intros H. exfalso. apply (H f); [now left|rewrite Hf; eauto|exact Hu].
      * specialize (IH (removed f st)).
        simpl in IH. destruct IH as (Hh & Hc & Hfiles & Hall).
        split; [exact Hh|]. split; [exact Hc|]. split.
        -- intros p. destruct (Hfiles p) as [H|[Hin H]];
             [|right; split; [now right|exact H]].
           rewrite H. destruct (decide (f = p)) as [->|Hne].
           ++ right. split; [now left|]. apply lookup_delete_eq.
           ++ left. now apply lookup_delete_ne.
        -- intros Hdel. destruct Hall as [Hret Hnone].
           { intros p Hin [x Hx]. apply Hdel; [now right|].
             destruct (decide (f = p)) as [->|Hne].
             - rewrite lookup_delete_eq in Hx. discriminate.
             - rewrite lookup_delete_ne in Hx by assumption. eauto. }
           split; [exact Hret|]. intros p [<-|Hin]; [|now apply Hnone].
           destruct (Hfiles f) as [H|[_ H]]; [|exact H].
           rewrite H. apply lookup_delete_eq.
    + specialize (IH st). simpl in IH. destruct IH as (Hh & Hc & Hfiles & Hall).
      split; [exact Hh|]. split; [exact Hc|]. split.
      * intros p. destruct (Hfiles p) as [H|[Hin H]];
          [now left|right; split; [now right|exact H]].
      * intros Hdel. destruct Hall as [Hret Hnone]; [intros p Hin; apply Hdel; now right|].
        split; [exact Hret|]. intros p [<-|Hin]; [|now apply Hnone].
        destruct (Hfiles f) as [H|[_ H]]; [|exact H]. now rewrite H.
Qed.

Lemma iterdir_lists dir p (st : State) :
  In p (List.filter (child_of dir) (List.map fst (map_to_list (files (env st)))))
  <-> is_Some (files (env st) !! p) /\ child_of dir p = true.
Proof.
  rewrite filter_In, in_map_iff. split.
  - intros [([q x] & <- & Hin) Hc]. split; [|exact Hc].
    apply list_elem_of_In, elem_of_map_to_list in Hin. simpl. eauto.
  - intros [[x Hx] Hc]. split; [|exact Hc]. exists (p, x). split; [reflexivity|].
    now apply list_elem_of_In, elem_of_map_to_list.
Qed.

Lemma cleanup_run (st : State) :
  cleanup st =
    if dir_exists _temp_dir (env st)
    then
      match cleanup_loop
              (List.filter (child_of _temp_dir)
                 (List.map fst (map_to_list (files (env st))))) st with
      | (Raises e, st') =>
          (Returns tt, record (EvLog WARNING "Error during cleanup" "") st')
      | r => r
      end
    else (Returns tt, st).
Proof.
  unfold cleanup, try_except, bind at 1. simpl.
  destruct (dir_exists _temp_dir (env st)); [|reflexivity].
  unfold bind, iterdir. simpl.
  destruct (cleanup_loop _ st) as [[[]|e|] st']; reflexivity.
Qed.

Lemma cleanup_spec (st : State) :
  let r := cleanup st in
  fst r = Returns tt
  /\ connectors (snd r) = connectors st
  /\ (forall p, child_of _temp_dir p = false ->
        files (env (snd r)) !! p = files (env st) !! p)
  /\ (forall p, files (env (snd r)) !! p = files (env st) !! p
                \/ files (env (snd r)) !! p = None)
  /\ (dir_exists _temp_dir (env st) = true ->
      (forall p, child_of _temp_dir p = true -> p ∉ undeletable (env st)) ->
      forall p, child_of _temp_dir p = true -> files (env (snd r)) !! p = None).
Proof.
  intros r. subst r. rewrite cleanup_run.
  destruct (dir_exists _temp_dir (env st)) eqn:Hd; simpl.
  - set (entries := List.filter _ _).
    destruct (cleanup_loop_spec entries st) as (Hh & Hc & Hfiles & Hall).
    assert (forall p, In p entries <-> is_Some (files (env st) !! p)
                                       /\ child_of _temp_dir p = true) as Hin
      by (intros p; apply iterdir_lists).
    assert (forall p, child_of _temp_dir p = false ->
                      files (env (snd (cleanup_loop entries st))) !! p
                      = files (env st) !! p) as Hout.
    { intros p Hp. destruct (Hfiles p) as [H|[H _]]; [exact H|].
      apply Hin in H as [_ H]. congruence. }
    assert (forall p, files (env (snd (cleanup_loop entries st))) !! p
                      = files (env st) !! p
                      \/ files (env (snd (cleanup_loop entries st))) !! p = None) as Hless
      by (intros p; destruct (Hfiles p) as [H|[_ H]]; auto).
    assert ((forall p, child_of _temp_dir p = true -> p ∉ undeletable (env st)) ->
            fst (cleanup_loop entries st) = Returns tt
            /\ forall p, child_of _temp_dir p = true ->
                  files (env (snd (cleanup_loop entries st))) !! p = None) as Hgone.
    { intros Hdel. destruct Hall as [Hret Hnone].
      { intros q Hq _. apply Hdel. now apply Hin in Hq as [_ Hq]. }
      split; [exact Hret|]. intros p Hp.
      destruct (files (env st) !! p) as [x|] eqn:Hx.
      - apply Hnone, Hin. split; [rewrite Hx; eauto|exact Hp].
      - destruct (Hfiles p) as [H|[_ H]]; [congruence|exact H]. }
    clear Hfiles Hall Hin.
    destruct (cleanup_loop entries st) as [[[]|e|] st']; simpl in *;
      try (now elim Hh); (split; [reflexivity|]); (split; [exact Hc|]);
      (split; [exact Hout|]); (split; [exact Hless|]); intros _ Hdel;
      destruct (Hgone Hdel) as [Hret Hnone]; [exact Hnone|discriminate].
  - repeat split; auto. intros [=].
Qed.

(** X13: [cleanup] always returns and raises nothing: an entry that cannot
    be deleted ends the loop, and is only logged.  It deletes files and
    does nothing else to the file system: a file that is not an entry of
    [temp_transfers] itself is what it was, and every path holds what it
    held or nothing.  When the directory exists and none of its files
    refuses to be deleted, no file is left in it. *)
Theorem cleanup_outcomes (st : State) :
  let r := cleanup st in
  fst r = Returns tt
  /\ connectors (snd r) = connectors st
  /\ (forall p, child_of _temp_dir p = false ->
        files (env (snd r)) !! p = files (env st) !! p)
  /\ (forall p, files (env (snd r)) !! p = files (env st) !! p
                \/ files (env (snd r)) !! p = None)
  /\ (dir_exists _temp_dir (env st) = true ->
      (forall p, child_of _temp_dir p = true -> p ∉ undeletable (env st)) ->
      forall p, child_of _temp_dir p = true -> files (env (snd r)) !! p = None).
Proof. exact (cleanup_spec st). Qed.

Lemma has_slash_append (a b : string) :
  has_slash (a +:+ b) = (has_slash a || has_slash b)%bool.
Proof.
  induction a as [|c a IH]; simpl; [reflexivity|]. now rewrite IH, orb_assoc.
Qed.

Lemma basename_from_cons (acc : string) (c : ascii) (r : string) :
  Str.basename_from acc (String c r)
  = if Ascii.eqb c "/" then Str.basename_from r r else Str.basename_from acc r.
Proof. destruct c as [[] [] [] [] [] [] [] []]; reflexivity. Qed.

Lemma basename_from_no_slash (s : string) :
  forall acc pre, acc = pre +:+ s -> has_slash pre = false ->
                  has_slash (Str.basename_from acc s) = false.
Proof.
  induction s as [|c r IH]; intros acc pre -> Hpre.
  - simpl. rewrite has_slash_append, Hpre. reflexivity.
  - rewrite basename_from_cons. destruct (Ascii.eqb c "/") eqn:Hc.
    + now apply (IH r "").
    + apply (IH _ (pre +:+ String c "")).
      * clear. induction pre as [|c' pre IHp]; [reflexivity|].
        change (String c' (pre +:+ String c r) = String c' ((pre +:+ String c "") +:+ r)).
        now rewrite IHp.
      * rewrite has_slash_append, Hpre. simpl. now rewrite Hc.
Qed.

Lemma basename_from_plain (s : string) :
  forall acc, has_slash s = false -> Str.basename_from acc s = acc.
Proof.
  induction s as [|c r IH]; intros acc H; [reflexivity|].
  rewrite basename_from_cons. simpl in H. apply orb_false_elim in H as [-> H]. auto.
Qed.

Lemma basename_of_child (dir name : string) :
  has_slash name = false -> Str.basename (dir +:+ "/" +:+ name) = name.
Proof.
  intros H. unfold Str.basename. generalize (dir +:+ "/" +:+ name) at 1.
  induction dir as [|c dir IH]; intros acc.
  - change ("" +:+ "/" +:+ name) with (String "/" name).
    rewrite basename_from_cons. simpl. now apply basename_from_plain.
  - change (String c dir +:+ "/" +:+ name) with (String c (dir +:+ "/" +:+ name)).
    rewrite basename_from_cons. destruct (Ascii.eqb c "/"); apply IH.
Qed.

Lemma digits_no_slash (d : Decimal.uint) :
  has_slash (NilEmpty.string_of_uint d) = false.
Proof. induction d; simpl; auto. Qed.

Lemma string_of_uint_no_slash (d : Decimal.uint) :
  has_slash (NilZero.string_of_uint d) = false.
Proof. destruct d; try reflexivity; apply (digits_no_slash (_ d)). Qed.

Lemma of_Z_no_slash (n : Z) : has_slash (Str.of_Z n) = false.
Proof.
  unfold Str.of_Z, NilZero.string_of_int.
  destruct (Z.to_int n); simpl; apply string_of_uint_no_slash.
Qed.

(** X14: the staging file of a transfer is an entry of [temp_transfers]
    itself, whatever the source path holds: its name is "temp_", the
    second, "_" and the base name of the source path, and has no slash.  So
    a staging file that was left behind is one of the files [cleanup]
    removes.  The name depends on the source only through the base name:
    two objects of the same base name, staged in the same second, share
    their staging file. *)
Theorem staging_file_name (now : Z) (source_path : string) :
  let name := "temp_" +:+ Str.of_Z now +:+ "_" +:+ Str.basename source_path in
  temp_path now source_path = _temp_dir +:+ "/" +:+ name
  /\ has_slash name = false
  /\ child_of _temp_dir (temp_path now source_path) = true
  /\ (forall dir1 dir2 base, has_slash base = false ->
        temp_path now (dir1 +:+ "/" +:+ base) = temp_path now (dir2 +:+ "/" +:+ base))
  /\ (forall st : State,
        dir_exists _temp_dir (env st) = true ->
        (forall p, child_of _temp_dir p = true -> p ∉ undeletable (env st)) ->
        files (env (snd (cleanup st))) !! temp_path now source_path = None).
Proof.
  intros name.
  assert (has_slash name = false) as Hname.
  { unfold name. rewrite !has_slash_append, of_Z_no_slash. simpl.
    unfold Str.basename. now apply (basename_from_no_slash source_path source_path ""). }
  assert (child_of _temp_dir (temp_path now source_path) = true) as Hchild.
  { change (temp_path now source_path) with ("temp_transfers" +:+ "/" +:+ name).
    unfold child_of, _temp_dir.
    assert (strip_prefix ("temp_transfers" +:+ "/") ("temp_transfers" +:+ "/" +:+ name)
            = Some name) as -> by reflexivity.
    rewrite Hname. reflexivity. }
  split; [reflexivity|]. split; [exact Hname|]. split; [exact Hchild|]. split.
  - intros dir1 dir2 base Hb. unfold temp_path. now rewrite !basename_of_child.
  - intros st Hd Hdel. destruct (cleanup_spec st) as (_ & _ & _ & _ & H). now apply H.
Qed.

(** ** The log of an orchestrated copy *)

(** The trace after a call holds the trace before it, and what the call
    added. *)
Definition grows (st st' : State) : Prop :=
  exists added, events st' = (events st ++ added)%list.

Lemma grows_refl st : grows st st.
Proof. exists []. now rewrite app_nil_r. Qed.

Lemma grows_trans a b c : grows a b -> grows b c -> grows a c.
Proof. intros [l Hl] [m Hm]. exists (l ++ m)%list. now rewrite Hm, Hl, <- app_assoc. Qed.

Lemma grows_env st e : grows st (with_env e st).
Proof. exact (grows_refl (with_env e st)). Qed.

Lemma grows_record st ev : grows st (record ev st).
Proof. now exists [ev]. Qed.

Lemma grows_client (self : string) st : True -> grows st (snd (set_client self st)).
Proof. intros _. exact (grows_refl (snd (set_client self st))). Qed.

Lemma grows_store (p : string) (c : Connector) st :
  True -> connectors st !! p = None -> grows st (snd (store_connector p c st)).
Proof. intros _ _. exact (grows_refl (snd (store_connector p c st))). Qed.

Ltac grown :=
  first [ exact grows_refl | exact grows_trans | exact grows_env | exact grows_record
        | exact grows_client | exact grows_store | exact I ].

Lemma grows_copy_attempt sp sc spath dp dc dpath kw :
  preserves grows
    (if String.eqb sp dp
     then connector <- _get_connector sp ;; copy_file connector sc spath dc dpath kw
     else _copy_via_temp sp sc spath dp dc dpath kw).
Proof.
  destruct (String.eqb sp dp).
  - eapply preserves_bind_with with (Q := fun s => s = sp);
      [exact grows_trans|apply get_connector_returns| |].
    + apply preserves_get_connector with (touched := fun _ => True); grown.
    + intros connector ->.
      apply preserves_copy_file with (touched := fun _ => True); grown.
  - apply preserves_copy_via_temp with (touched := fun _ => True); grown.
Qed.

Lemma grows_copy_parsed sp sc spath dp dc dpath kw :
  preserves grows (copy_parsed sp sc spath dp dc dpath kw).
Proof. apply preserves_copy_parsed with (touched := fun _ => True); grown. Qed.

Lemma lift_returns (A : Type) (x : exc + A) (a : A) (st s : State) :
  lift x st = (Returns a, s) -> x = inr a /\ s = st.
Proof. destruct x as [e|b]; [discriminate|]. now intros [= -> ->]. Qed.

(** X15: the trace of a [copy_file_direct] that returned holds, after what
    was there, the start event of "multi_cloud_copy", then what the copy
    itself did, and last the outcome event: "Operation completed
    successfully" exactly when the result says success, "Operation failed"
    otherwise. *)
Theorem copy_file_direct_log source_url dest_url kw (st st' : State)
    (r : TransferResult) :
  copy_file_direct source_url dest_url kw st = (Returns r, st') ->
  exists during,
    events st'
    = (events st ++ [EvLog INFO "Operation started" "multi_cloud_copy"] ++ during
       ++ [if success r
           then EvLog INFO "Operation completed successfully" "multi_cloud_copy"
           else EvLog ERROR "Operation failed" "multi_cloud_copy"])%list.
Proof.
  intros H. unfold copy_file_direct in H.
  apply bind_returns in H as (t & s0 & Ht & H). injection Ht as <- <-.
  apply bind_returns in H as ([[sp sc] spath] & s0 & Hs & H).
  apply lift_returns in Hs as [_ ->].
  apply bind_returns in H as ([[dp dc] dpath] & s1 & Hd & H).
  apply lift_returns in Hd as [_ ->].
  apply bind_returns in H as ([] & s2 & Hlog & H).
  injection Hlog as <-. fold (started st) in H.
  unfold try_except in H.
  destruct (copy_parsed sp sc spath dp dc dpath kw (started st)) as [[r0|e|] s3] eqn:Hcp;
    [|pose proof (grows_copy_parsed sp sc spath dp dc dpath kw (started st)) as [during Hg];
      rewrite Hcp in Hg; simpl in Hg
     |discriminate].
  - injection H as -> ->. unfold copy_parsed in Hcp.
    apply bind_returns in Hcp as (res & s4 & Hin & Hcp).
    pose proof (grows_copy_attempt sp sc spath dp dc dpath kw (started st)) as [during Hg].
    rewrite Hin in Hg. simpl in Hg.
    apply bind_returns in Hcp as ([] & s5 & Hout & Hcp). injection Hcp as -> ->.
    exists during.
    destruct (success r); injection Hout as <-; simpl; rewrite Hg; simpl;
      now rewrite <- !app_assoc.
  - unfold bind, log_operation_error, log, elapsed_since, time_time, ret in H. simpl in H.
    injection H as <- <-. exists during. simpl. rewrite Hg. simpl.
    now rewrite <- !app_assoc.
Qed.

(** ** What the Azure and the GCP connector can raise *)

Lemma authentication_failure_permanent x :
  authentication_failure x -> RETRIABLE_EXCEPTIONS x = false.
Proof. intros [msg [->| ->]]; reflexivity. Qed.

Lemma cached_lookup p self st : p = self -> cached p st -> is_Some (connectors st !! self).
Proof. now intros <-. Qed.

Ltac method_raises lemma p :=
  eapply lemma with (R := frame (eq p)) (touched := eq p)
                    (P := cached p) (E := authentication_failure);
  first [ exact (frame_refl (eq p)) | exact (frame_trans (eq p))
        | exact (frame_env (eq p)) | exact (frame_record (eq p))
        | exact (frame_client (eq p))
        | exact (cached_frame (eq p) p)
        | exact authentication_failure_permanent
        | exact (cached_lookup p)
        | exact (fun x H => H)
        | reflexivity ].

(** X16: whatever [copy_file], [delete_file] and [file_exists] of the Azure
    and of the GCP connector raise is the [AuthenticationError] or
    [ConnectionError] of the authentication they start with when there is
    no client handle: an exception that is not retriable, and never a
    [RetryError]. *)
Theorem lazy_authentication_only self (c : Connector) (st : State) :
  connectors st !! self = Some c -> provider c <> AWS_S3 ->
  (forall sc sp dc dp kw,
     match fst (copy_file self sc sp dc dp kw st) with
     | Raises e => authentication_failure e
     | _ => True
     end)
  /\ (forall container remote_path,
       match fst (delete_file self container remote_path st) with
       | Raises e => authentication_failure e
       | _ => True
       end)
  /\ (forall container remote_path,
       match fst (file_exists self container remote_path st) with
       | Raises e => authentication_failure e
       | _ => True
       end)
  /\ (forall e, authentication_failure e ->
       RETRIABLE_EXCEPTIONS e = false /\ forall x, e <> RetryError x).
Proof.
  intros Hc Hp. assert (cached self st) as Hcached by (now exists c).
  split; [|split; [|split]].
  - intros sc sp dc dp kw. unfold copy_file, bind at 1, get_self. rewrite Hc.
    destruct (provider c); [now elim Hp| |].
    + assert (raises_only (cached self) authentication_failure
                (Azure_copy_file self sc sp dc dp)) as H
        by (method_raises raises_only_Azure_copy_file self).
      exact (H st Hcached).
    + assert (raises_only (cached self) authentication_failure
                (GCP_copy_file self sc sp dc dp)) as H
        by (method_raises raises_only_GCP_copy_file self).
      exact (H st Hcached).
  - intros container remote_path. unfold delete_file, bind at 1, get_self. rewrite Hc.
    destruct (provider c); [now elim Hp| |].
    + assert (raises_only (cached self) authentication_failure
                (Azure_delete_file self container remote_path)) as H
        by (method_raises raises_only_Azure_delete_file self).
      exact (H st Hcached).
    + assert (raises_only (cached self) authentication_failure
                (GCP_delete_file self container remote_path)) as H
        by (method_raises raises_only_GCP_delete_file self).
      exact (H st Hcached).
  - intros container remote_path.
    rewrite (dispatch_file_exists self c container remote_path st Hc).
    destruct (provider c); [now elim Hp| |].
    + assert (raises_only (cached self) authentication_failure
                (Azure_file_exists self container remote_path)) as H
        by (method_raises raises_only_Azure_file_exists self).
      exact (H st Hcached).
    + assert (raises_only (cached self) authentication_failure
                (GCP_file_exists self container remote_path)) as H
        by (method_raises raises_only_GCP_file_exists self).
      exact (H st Hcached).
  - intros e He. split; [now apply authentication_failure_permanent|].
    intros x ->. destruct He as [msg [H|H]]; discriminate.
Qed.

(** ** A verification request that fails *)

(** The call that builds the client handle of each connector, and what
    [authenticate] requires of the configuration before it makes it. *)
Definition client_constructor (p : CloudProvider) : sdk_op :=
  match p with
  | AWS_S3 => Boto3Client
  | AZURE_BLOB =>
      if Str.truthy (azure_storage_connection_string config)
      then AzureFromConnectionString
      else AzureBlobServiceClient
  | GCP_STORAGE => GcpClient
  end.

Definition configured (p : CloudProvider) (st : State) : Prop :=
  match p with
  | AWS_S3 => validate_aws_config config = true
  | AZURE_BLOB => validate_azure_config config = true
  | GCP_STORAGE => fst (validate_gcp_config config st) = Returns true
  end.

Lemma validate_gcp_config_state c (st : State) : snd (validate_gcp_config c st) = st.
Proof. unfold validate_gcp_config. now destruct (_ && _)%bool. Qed.

Lemma authenticate_sets_client self (c : Connector) (st : State) :
  connectors st !! self = Some c -> configured (provider c) st ->
  (forall e env1, sdk (client_constructor (provider c)) (env st) <> (inl e, env1)) ->
  exists o s,
    authenticate self st = (o, s)
    /\ connectors s = alter (fun c => mkConnector (provider c) true) self (connectors st).
Proof.
  intros Hc Hconf Hnew. rewrite (dispatch_authenticate self c st Hc).
  destruct (provider c); simpl in Hconf, Hnew.
  - unfold S3_authenticate, try_except, bind at 1. rewrite Hconf. simpl.
    unfold bind at 1, call.
    destruct (sdk Boto3Client (env st)) as [[e|[]] env1] eqn:H1; [now elim (Hnew e env1)|].
    simpl. unfold bind at 1. simpl. unfold bind at 1, call. simpl.
    destruct (sdk Boto3Resource env1) as [[e|[]] env2]; simpl.
    + repeat match goal with |- context [if ?b then _ else _] => destruct b end;
        eexists _, _; split; reflexivity.
    + unfold bind at 1, call. simpl.
      destruct (sdk S3ListBuckets env2) as [[e|[]] env3]; simpl;
        repeat match goal with |- context [if ?b then _ else _] => destruct b end;
        eexists _, _; split; reflexivity.
  - unfold Azure_authenticate, try_except, bind at 1. rewrite Hconf. simpl.
    unfold bind at 1.
    destruct (Str.truthy (azure_storage_connection_string config)); unfold call;
      match goal with
      | |- context [sdk ?op (env st)] =>
          destruct (sdk op (env st)) as [[e|[]] env1] eqn:H1; [now elim (Hnew e env1)|]
      end;
      simpl; unfold bind at 1; simpl; unfold bind at 1, call; simpl;
      destruct (sdk AzureListContainers env1) as [[e|[]] env2]; simpl;
      repeat match goal with |- context [if ?b then _ else _] => destruct b end;
      eexists _, _; split; reflexivity.
  - unfold GCP_authenticate, try_except, bind at 1.
    pose proof (validate_gcp_config_state config st) as Hst.
    destruct (validate_gcp_config config st) as [o s0]. simpl in Hconf, Hst. subst o s0.
    simpl. unfold bind at 1. simpl. unfold bind at 1, call.
    destruct (sdk GcpClient (env st)) as [[e|[]] env1] eqn:H1; [now elim (Hnew e env1)|].
    simpl. unfold bind at 1. simpl. unfold bind at 1, call. simpl.
    destruct (sdk GcpListBuckets env1) as [[e|[]] env2]; simpl;
      repeat match goal with |- context [if ?b then _ else _] => destruct b end;
      eexists _, _; split; reflexivity.
Qed.

(** X17: the client handle is assigned before the request that verifies the
    credentials is sent.  So once the configuration validates and the client
    constructor returns, the connector has its client handle after
    [authenticate], whether [authenticate] returned or raised: a connector
    whose credentials were refused passes the "if not self._client" check of
    every later method, and [file_exists] then sends its request without
    authenticating again. *)
Theorem client_handle_survives self (c : Connector) (st : State) :
  connectors st !! self = Some c -> configured (provider c) st ->
  (forall e env1, sdk (client_constructor (provider c)) (env st) <> (inl e, env1)) ->
  let st1 := snd (authenticate self st) in
  connectors st1 !! self = Some (mkConnector (provider c) true)
  /\ (forall container remote_path,
        exists o env1,
          file_exists self container remote_path st1
          = (o, mkState env1 (connectors st1)
                  (events st1
                   ++ [EvCall (exists_request (provider c) container remote_path)]))).
Proof.
  intros Hc Hconf Hnew st1. subst st1.
  destruct (authenticate_sets_client self c st Hc Hconf Hnew) as (o & s & -> & Hs).
  simpl.
  assert (connectors s !! self = Some (mkConnector (provider c) true)) as H
    by (now rewrite Hs, lookup_alter_eq, Hc).
  split; [exact H|]. intros container remote_path.
  exact (file_exists_one_request self _ container remote_path s H eq_refl).
Qed.

(** ** The paths a result names *)

(** The result names its source and its destination by [src] and [dst]. *)
Definition names (src dst : string) (r : TransferResult) : Prop :=
  source_path r = src /\ destination_path r = dst.

Lemma names_ok src dst bytes duration : names src dst (result_ok src dst bytes duration).
Proof. now split. Qed.

Lemma names_failed src dst msg : names src dst (result_failed src dst msg).
Proof. now split. Qed.

Ltac rets_names := repeat rets_step; auto using names_ok, names_failed.

Lemma S3_copy_file_names self sc sp dc dp kw :
  rets (names (s3_url sc sp) (s3_url dc dp)) (S3_copy_file self sc sp dc dp kw).
Proof. unfold S3_copy_file. rets_names. Qed.

Lemma Azure_copy_file_names self sc sp dc dp :
  rets (names (azure_url sc sp) (azure_url dc dp)) (Azure_copy_file self sc sp dc dp).
Proof. unfold Azure_copy_file. rets_names. Qed.

Lemma GCP_copy_file_names self sc sp dc dp :
  rets (names (gcs_url sc sp) (gcs_url dc dp)) (GCP_copy_file self sc sp dc dp).
Proof. unfold GCP_copy_file. rets_names. Qed.

Lemma copy_file_names self (c : Connector) sc sp dc dp kw (st : State) :
  connectors st !! self = Some c ->
  match fst (copy_file self sc sp dc dp kw st) with
  | Returns r => names (object_url (provider c) sc sp) (object_url (provider c) dc dp) r
  | _ => True
  end.
Proof.
  intros Hc. unfold copy_file, bind at 1, get_self. rewrite Hc.
  destruct (provider c); simpl.
  - apply S3_copy_file_names.
  - apply Azure_copy_file_names.
  - apply GCP_copy_file_names.
Qed.

Lemma copy_via_temp_names sp sc spath dp dc dpath kw :
  rets (names (cloud_url sp sc spath) (cloud_url dp dc dpath))
    (_copy_via_temp sp sc spath dp dc dpath kw).
Proof. unfold _copy_via_temp, elapsed_since. rets_names. Qed.

(** X19: the two routes of a copy name the objects differently.  A copy
    made by one connector names them with the scheme of that connector
    ([s3://], [azure://], [gcs://]); a staged copy names them with the
    provider name in the place of the scheme ([aws://], [azure://],
    [gcp://]).  For the same object the two agree for Azure only, and the
    staged names of S3 and GCS objects have a scheme that
    [_parse_cloud_url] does not accept. *)
Theorem result_paths :
  (forall self c sc sp dc dp kw (st : State),
     connectors st !! self = Some c ->
     match fst (copy_file self sc sp dc dp kw st) with
     | Returns r => names (object_url (provider c) sc sp) (object_url (provider c) dc dp) r
     | _ => True
     end)
  /\ (forall sp sc spath dp dc dpath kw,
        rets (names (cloud_url sp sc spath) (cloud_url dp dc dpath))
          (_copy_via_temp sp sc spath dp dc dpath kw))
  /\ (forall container path,
        cloud_url "aws" container path <> object_url AWS_S3 container path
        /\ cloud_url "gcp" container path <> object_url GCP_STORAGE container path
        /\ cloud_url "azure" container path = object_url AZURE_BLOB container path)
  /\ (forall p container path parsed,
        In p ["aws"; "gcp"] ->
        urlparse (cloud_url p container path) = inr parsed ->
        Str.lower (Url.scheme parsed) = p ->
        _parse_cloud_url (cloud_url p container path)
        = inl (Exc ValueError ("Unsupported URL scheme: " +:+ p))).
Proof.
  split; [|split; [|split]].
  - intros. now apply copy_file_names.
  - intros. apply copy_via_temp_names.
  - intros container path. repeat split; try discriminate.
  - intros p container path parsed Hp Hparse Hscheme.
    rewrite (parse_cloud_url_unfold _ parsed Hparse). cbv zeta. rewrite Hscheme.
    destruct Hp as [<-|[<-|[]]]; reflexivity.
Qed.

(** ** The retries are bounded *)

(** The events [log_retry_attempt] logs, one per failed attempt, and the
    sleeps. *)
Definition is_retry_attempt (ev : Event) : bool :=
  match ev with
  | EvLog WARNING event _ => String.eqb event "Retry attempt"
  | _ => false
  end.

Definition is_sleep (ev : Event) : bool :=
  match ev with
  | EvCall (TimeSleep _) => true
  | _ => false
  end.

(** The number of events of the trace that satisfy [f]. *)
Definition count (f : Event -> bool) (st : State) : nat :=
  length (List.filter f (events st)).







End Model.

(** * Concrete runs *)

Module Demo.

(** Goals of concrete runs are closed by evaluation, conjunct by conjunct. *)
Ltac evaluate :=
  repeat match goal with |- _ /\ _ => split end; vm_compute; reflexivity.

(** A world without a backend state: every request is answered at once,
    takes one unit of time, and a download writes 5 bytes to its local
    path; [fails] picks the requests that raise. *)
Definition reply (op : sdk_op) : sdk_ret op :=
  match op with
  | S3HeadObject _ _ => 5
  | AzureGetBlobProperties _ _ => mkBlobProperties 5 "success"
  | AzureBlobExists _ _ | GcpBlobExists _ _ => true
  | GcpBlobReload _ _ => Some 5
  | _ => tt
  end.

Definition effect (op : sdk_op) (e : @Env unit) : @Env unit :=
  match op with
  | S3DownloadFile _ _ p | GcpDownloadToFilename _ _ p | AzureDownloadBlob _ _ p =>
      mkEnv (clock e) (<[p := 5]> (files e)) (undeletable e) (remote e)
  | _ => e
  end.

Definition tick (e : @Env unit) : @Env unit :=
  mkEnv (clock e + 1) (files e) (undeletable e) (remote e).

Definition scripted (fails : sdk_op -> option exc) (op : sdk_op) (e : @Env unit)
    : (exc + sdk_ret op) * @Env unit :=
  match fails op with
  | Some x => (inl x, tick e)
  | None => (inr (reply op), tick (effect op e))
  end.

Definition no_failure (op : sdk_op) : option exc := None.

(** Credentials for AWS and Azure, three attempts, two seconds of delay. *)
Definition config0 : Config :=
  mkConfig (Some "key") (Some "secret") (Some "account") (Some "key") None
    None None 3 2.


(** No credentials at all. *)
Definition config_empty : Config :=
  mkConfig None None None None None None None 3 2.

Definition st0 : @State unit := mkState (mkEnv 0 ∅ ∅ tt) ∅ [].

(** The manager holds an S3 connector whose client handle is set. *)
Definition st_s3 : @State unit :=
  mkState (mkEnv 0 ∅ ∅ tt) {[ "aws" := mkConnector AWS_S3 true ]} [].

(** The manager holds an Azure connector that has not authenticated yet. *)
Definition st_azure : @State unit :=
  mkState (mkEnv 0 ∅ ∅ tt) {[ "azure" := mkConnector AZURE_BLOB false ]} [].

(** The operating system refuses to unlink the staging file. *)
Definition st_locked : @State unit :=
  mkState (mkEnv 0 ∅ {[ "temp_transfers/temp_0_k.txt" ]} tt) ∅ [].

Definition copy (fails : sdk_op -> option exc) :=
  copy_file_direct (scripted fails) config0 10 Url.urlparse.

Definition batch (fails : sdk_op -> option exc) :=
  batch_copy (scripted fails) config0 10 Url.urlparse.

(** The URLs of the repository's test of [_parse_cloud_url]. *)
Example parse_s3 :
  _parse_cloud_url Url.urlparse "s3://bucket/folder/file.txt"
  = inr ("aws", "bucket", "folder/file.txt").
Proof. reflexivity. Qed.

Example parse_azure :
  _parse_cloud_url Url.urlparse "azure://container/path/file.txt"
  = inr ("azure", "container", "path/file.txt").
Proof. reflexivity. Qed.

Example parse_gcs :
  _parse_cloud_url Url.urlparse "gcs://bucket/file.txt" = inr ("gcp", "bucket", "file.txt").
Proof. reflexivity. Qed.

Example parse_gs_upper_empty_path :
  _parse_cloud_url Url.urlparse "GS://bucket" = inr ("gcp", "bucket", "").
Proof. reflexivity. Qed.

Example parse_invalid :
  _parse_cloud_url Url.urlparse "invalid://bucket/file.txt"
  = inl (Exc ValueError "Unsupported URL scheme: invalid").
Proof. reflexivity. Qed.

(** C7 at the URL [S3://Bucket/folder/file.txt]. *)
Lemma parse_cloud_url_witness :
  Url.urlparse "S3://Bucket/folder/file.txt"
  = inr (Url.mkParseResult "s3" "Bucket" "/folder/file.txt" "" "" "")
  /\ _parse_cloud_url Url.urlparse "S3://Bucket/folder/file.txt"
     = inr ("aws", "Bucket", "folder/file.txt").
Proof.
  split; [vm_compute; reflexivity|].
  pose proof (parse_cloud_url_spec (Remote := unit) Url.urlparse
                "S3://Bucket/folder/file.txt"
                (Url.mkParseResult "s3" "Bucket" "/folder/file.txt" "" "" "")
                ltac:(vm_compute; reflexivity)) as H.
  cbv zeta in H. destruct H as [H _].
  exact (H ltac:(vm_compute; reflexivity)).
Defined.

(** *** The circuit breaker *)

Definition failing : @M unit bool := raise (Exc builtins_TimeoutError "timed out").

Definition succeeding : @M unit bool := ret true.

(** A breaker of threshold 1 after one failed call at time 0. *)
Definition tripped_breaker : CircuitBreaker :=
  snd (fst (CircuitBreaker_call (CircuitBreaker_init 1 60) failing st0)).

(** C5 at [tripped_breaker]: it is open, and a call made before the timeout
    is refused with the breaker and the state untouched. *)
Lemma circuit_breaker_witness :
  reachable (Remote := unit) tripped_breaker
  /\ state tripped_breaker = OPEN
  /\ CircuitBreaker_call tripped_breaker succeeding st0
     = (Raises (Exc builtins_ConnectionError "Circuit breaker is OPEN"),
        tripped_breaker, st0).
Proof.
  assert (reachable (Remote := unit) tripped_breaker) as Hr
    by apply reachable_call, reachable_init.
  split; [exact Hr|]. split; [reflexivity|].
  destruct (circuit_breaker_state_machine tripped_breaker Hr bool succeeding st0)
    as (_ & _ & _ & _ & H5).
  apply (H5 eq_refl 0 eq_refl ltac:(vm_compute; discriminate) bool succeeding).
Defined.

(** Two failures around a success open a breaker of threshold 2. *)
Example failures_accumulate_across_successes :
  state (snd (fst (run_calls (CircuitBreaker_init 2 60)
                     [failing; succeeding; failing] st0))) = OPEN.
Proof. reflexivity. Qed.

(** C10 at a breaker of threshold 2: a failure and a success leave it
    closed with the count at 1, and the next failure opens it. *)
Lemma closed_success_witness :
  state (snd (fst (run_calls (CircuitBreaker_init 2 60) [failing; succeeding] st0)))
  = CLOSED
  /\ failure_count
       (snd (fst (run_calls (CircuitBreaker_init 2 60) [failing; succeeding] st0))) = 1
  /\ state (snd (fst (CircuitBreaker_call
                        (snd (fst (run_calls (CircuitBreaker_init 2 60)
                                     [failing; succeeding] st0)))
                        failing
                        (snd (run_calls (CircuitBreaker_init 2 60)
                                [failing; succeeding] st0))))) = OPEN.
Proof.
  pose proof (closed_success_keeps_failure_count bool (CircuitBreaker_init 2 60)
                [failing; succeeding] st0) as (_ & _ & Hrun & Hopen).
  specialize (Hrun eq_refl). specialize (Hopen eq_refl). cbv zeta in Hrun, Hopen.
  assert (failure_count (CircuitBreaker_init 2 60)
          + failures (fst (fst (run_calls (CircuitBreaker_init 2 60)
                                  [failing; succeeding] st0)))
          < failure_threshold (CircuitBreaker_init 2 60)) as Hlt
    by (vm_compute; reflexivity).
  destruct (Hrun Hlt) as [Hs Hc].
  split; [exact Hs|]. split; [rewrite Hc; vm_compute; reflexivity|].
  apply (Hopen Hlt failing (Exc builtins_TimeoutError "timed out") st0).
  - vm_compute. reflexivity.
  - vm_compute. discriminate.
Defined.

(** *** The retry wrappers *)

(** The [ConnectionError] the connectors raise is their own class, not the
    builtin one, and is not among the retriable classes. *)
Example connectors_ConnectionError_not_retriable :
  RETRIABLE_EXCEPTIONS (Exc ConnectionError "AWS connection failed") = false
  /\ RETRIABLE_EXCEPTIONS (Exc builtins_ConnectionError "connection refused") = true
  /\ RETRIABLE_EXCEPTIONS (Exc builtins_TimeoutError "timed out") = true.
Proof. repeat split. Qed.


(** Fails with an authentication error on its first call, returns 7 on
    every later one; each call leaves an event. *)
Definition flaky : @M unit Z :=
  fun st =>
    (match events st with
     | [] => Raises (Exc AuthenticationError "bad credentials")
     | _ => Returns 7
     end,
     record (EvLog DEBUG "called" "flaky") st).

Definition is_call_of_flaky (ev : Event) : bool :=
  match ev with
  | EvLog DEBUG event _ => String.eqb event "called"
  | _ => false
  end.

Definition calls_of_flaky (st : @State unit) : nat :=
  length (List.filter is_call_of_flaky (events st)).


(** The decorator itself does not call [flaky] again. *)
Example with_retry_permanent_error :
  fst (with_retry (scripted no_failure) config0 None None RETRIABLE_EXCEPTIONS flaky st0)
  = Raises (Exc AuthenticationError "bad credentials")
  /\ calls_of_flaky
       (snd (with_retry (scripted no_failure) config0 None None RETRIABLE_EXCEPTIONS
               flaky st0)) = 1%nat.
Proof. evaluate. Qed.



(** *** The orchestrator *)

(** Against C3 as stated: the copy from a URL of scheme [ftp] returns no
    result; the [ValueError] of the parse reaches the caller. *)
Lemma parse_failure_counterexample :
  fst (copy no_failure "ftp://host/file.txt" "s3://bucket/file.txt" [] st0)
  = Raises (Exc ValueError "Unsupported URL scheme: ftp")
  /\ ~ (exists r, fst (copy no_failure "ftp://host/file.txt" "s3://bucket/file.txt" [] st0)
                  = Returns r).
Proof.
  split; [vm_compute; reflexivity|].
  intros [r H]. vm_compute in H. discriminate.
Qed.

(** C3 at the same pair of URLs. *)
Lemma parse_failure_witness :
  pair_error Url.urlparse "ftp://host/file.txt" "s3://bucket/file.txt"
  = Some (Exc ValueError "Unsupported URL scheme: ftp")
  /\ copy no_failure "ftp://host/file.txt" "s3://bucket/file.txt" [] st0
     = (Raises (Exc ValueError "Unsupported URL scheme: ftp"), st0).
Proof.
  split; [vm_compute; reflexivity|].
  exact (proj1 (copy_file_direct_parse_failure (scripted no_failure) config0 10
                  Url.urlparse "ftp://host/file.txt" "s3://bucket/file.txt" [] st0
                  (Exc ValueError "Unsupported URL scheme: ftp")
                  ltac:(vm_compute; reflexivity))).
Defined.

(** Against C1 as stated: a copy from S3 to Azure succeeds, the operating
    system refuses the unlink, and the staging file is still there. *)
Lemma staging_file_counterexample :
  (exists r, fst (copy no_failure "s3://src/k.txt" "azure://dst/k.txt" [] st_locked)
             = Returns r /\ success r = true)
  /\ files (env (snd (copy no_failure "s3://src/k.txt" "azure://dst/k.txt" [] st_locked)))
       !! temp_path (clock (env st_locked)) "k.txt" = Some 5.
Proof.
  split; [eexists|]; evaluate.
Qed.

(** The upload of the staged copy is refused. *)
Definition upload_denied (op : sdk_op) : option exc :=
  match op with
  | AzureUploadBlob _ _ _ _ => Some (Exc (HttpResponseError 403) "Forbidden")
  | _ => None
  end.

(** C1 at a copy from S3 to Azure whose upload fails: the download has
    written the staging file, the result is a failure of the upload leg,
    and the file is gone. *)
Lemma staging_file_witness :
  (exists r,
     fst (copy_file_direct (scripted upload_denied) config0 10 Url.urlparse
            "s3://src/k.txt" "azure://dst/k.txt" [] st0) = Returns r
     /\ error_message r = Some "Upload failed: Azure upload failed: Forbidden")
  /\ files (env (snd (copy_file_direct (scripted upload_denied) config0 10 Url.urlparse
                        "s3://src/k.txt" "azure://dst/k.txt" [] st0)))
       !! temp_path (clock (env st0)) "k.txt" = None.
Proof.
  split; [eexists; evaluate|].
  pose proof (copy_via_temp_removes_staging_file (scripted upload_denied) config0 10
                Url.urlparse "aws" "src" "k.txt" "azure" "dst" "k.txt" [] st0) as [_ H].
  specialize (H "s3://src/k.txt" "azure://dst/k.txt"
                ltac:(vm_compute; reflexivity) ltac:(vm_compute; reflexivity)
                ltac:(vm_compute; reflexivity)).
  cbv zeta in H. destruct H as [_ H]. apply H.
  vm_compute. intros Hin. discriminate Hin.
Defined.

(** The listing of the buckets is denied, so the S3 connector cannot
    authenticate. *)
Definition list_buckets_denied (op : sdk_op) : option exc :=
  match op with
  | S3ListBuckets => Some (Exc (ClientError "AccessDenied") "Access Denied")
  | _ => None
  end.

(** Against C6 as stated: the failed result of a copy whose connector could
    not authenticate carries a duration of 3, not 0. *)
Lemma failed_result_counterexample :
  exists r,
    fst (copy list_buckets_denied "s3://src/1.txt" "s3://dst/1.txt" [] st0) = Returns r
    /\ success r = false
    /\ duration_seconds r = 3.
Proof. eexists. evaluate. Qed.

(** C6 at the same copy: whatever it returns is well formed and, failed,
    carries no bytes. *)
Lemma transfer_result_witness :
  match fst (copy_file_direct (scripted list_buckets_denied) config0 10 Url.urlparse
               "s3://src/1.txt" "s3://dst/1.txt" [] st0) with
  | Returns r => orchestrated_inv r
  | _ => True
  end.
Proof.
  pose proof (transfer_result_invariant (scripted list_buckets_denied) config0 10
                Url.urlparse) as (_ & _ & _ & _ & H & _).
  specialize (H "s3://src/1.txt" "s3://dst/1.txt" [] st0).
  destruct (fst (copy_file_direct (scripted list_buckets_denied) config0 10 Url.urlparse
                   "s3://src/1.txt" "s3://dst/1.txt" [] st0)); try exact I.
  exact (proj1 H).
Defined.

(** The object [missing.txt] does not exist. *)
Definition missing (op : sdk_op) : option exc :=
  match op with
  | S3HeadObject _ key =>
      if String.eqb key "missing.txt"
      then Some (Exc (ClientError "404") "Not Found")
      else None
  | _ => None
  end.

Definition transfers0 : list (string * string) :=
  [("s3://src/1.txt", "azure://dst/1.txt"); ("s3://src/missing.txt", "azure://dst/2.txt")].

(** The end-to-end scenario of the specification: two outcomes, the first a
    success with bytes, the second a failure with a message. *)
Example batch_scenario :
  exists r1 r2,
    fst (batch missing transfers0 [] st0) = Returns [r1; r2]
    /\ success r1 = true /\ bytes_transferred r1 = 5
    /\ success r2 = false
    /\ error_message r2 = Some "Download failed: S3 download failed: Not Found".
Proof. do 2 eexists. evaluate. Qed.




(** *** [delete_file] and [file_exists] *)

Definition delete_no_such_key (op : sdk_op) : option exc :=
  match op with
  | S3DeleteObject _ _ => Some (Exc (ClientError "NoSuchKey") "Not Found")
  | _ => None
  end.

Definition delete_unreachable (op : sdk_op) : option exc :=
  match op with
  | S3DeleteObject _ _ => Some (Exc BotoCoreError "Could not connect to the endpoint URL")
  | _ => None
  end.

Definition head_status (code : string) (op : sdk_op) : option exc :=
  match op with
  | S3HeadObject _ _ => Some (Exc (ClientError code) "An error occurred")
  | _ => None
  end.

(** C8 at an S3 connector whose delete request fails with a [ClientError]. *)
Lemma delete_file_witness :
  connectors st_s3 !! "aws" = Some (mkConnector AWS_S3 true)
  /\ fst (delete_file (scripted delete_no_such_key) config0 "aws" "bucket" "key" st_s3)
     = Returns false.
Proof.
  assert (connectors st_s3 !! "aws" = Some (mkConnector AWS_S3 true)) as Hc
    by (vm_compute; reflexivity).
  split; [exact Hc|].
  destruct (delete_file_outcomes (scripted delete_no_such_key) config0 "aws"
              (mkConnector AWS_S3 true) "bucket" "key" st_s3 Hc) as [H _].
  exact (H eq_refl (Exc (ClientError "NoSuchKey") "Not Found") (tick (env st_s3))
           eq_refl eq_refl).
Defined.

(** Against C8 as stated: the S3 connector raises when the delete request
    fails with an exception that is not a [ClientError], and the Azure
    connector raises when it has no credentials to authenticate with. *)
Lemma delete_file_counterexample :
  fst (delete_file (scripted delete_unreachable) config0 "aws" "bucket" "key" st_s3)
  = Raises (Exc BotoCoreError "Could not connect to the endpoint URL")
  /\ fst (delete_file (scripted no_failure) config_empty "azure" "container" "blob" st_azure)
     = Raises (Exc ConnectionError
                 "Azure connection failed: Azure Blob Storage credentials not configured properly").
Proof. evaluate. Qed.

(** C9 at an S3 connector whose existence request fails with code 404. *)
Lemma file_exists_witness :
  connectors st_s3 !! "aws" = Some (mkConnector AWS_S3 true)
  /\ fst (file_exists (scripted (head_status "404")) config0 "aws" "bucket" "key" st_s3)
     = Returns false.
Proof.
  assert (connectors st_s3 !! "aws" = Some (mkConnector AWS_S3 true)) as Hc
    by (vm_compute; reflexivity).
  split; [exact Hc|].
  destruct (file_exists_outcomes (scripted (head_status "404")) config0 "aws"
              (mkConnector AWS_S3 true) "bucket" "key" st_s3 Hc) as (_ & H & _).
  exact (H eq_refl eq_refl (Exc (ClientError "404") "An error occurred")
           (tick (env st_s3)) eq_refl).
Defined.

(** Against C9 as stated: access denied (code 403) leaves the S3 connector's
    [file_exists] as a raised [ClientError], not as [False]. *)
Lemma file_exists_counterexample :
  fst (file_exists (scripted (head_status "403")) config0 "aws" "bucket" "key" st_s3)
  = Raises (Exc (ClientError "403") "An error occurred").
Proof. vm_compute; reflexivity. Qed.

End Demo.

(** * Further concrete runs *)

Module Runs.

Import Demo.

(** The manager holds a GCP connector whose client handle is set, and an S3
    connector that has not authenticated yet. *)
Definition st_gcp : @State unit :=
  mkState (mkEnv 0 ∅ ∅ tt) {[ "gcp" := mkConnector GCP_STORAGE true ]} [].

Definition st_s3_new : @State unit :=
  mkState (mkEnv 0 ∅ ∅ tt) {[ "aws" := mkConnector AWS_S3 false ]} [].

(** The copy request of the GCP connector fails. *)
Definition copy_blob_gone (op : sdk_op) : option exc :=
  match op with
  | GcpCopyBlob _ _ _ _ => Some (Exc NotFound "gone")
  | _ => None
  end.

(** X3 at the URL [s3://bucket/key], when the listing of the buckets is
    denied: the first call raises the authentication error, and the
    connector it leaves in the cache is returned by the second. *)
Lemma get_connector_witness :
  _parse_cloud_url Url.urlparse "s3://bucket/key" = inr ("aws", "bucket", "key")
  /\ fst (_get_connector (scripted list_buckets_denied) config0 "aws" st0)
     = Raises (Exc ConnectionError "AWS connection error: Access Denied")
  /\ fst (_get_connector (scripted list_buckets_denied) config0 "aws"
            (snd (_get_connector (scripted list_buckets_denied) config0 "aws" st0)))
     = Returns "aws".
Proof.
  split; [vm_compute; reflexivity|]. split; [vm_compute; reflexivity|].
  destruct (get_connector_outcomes (scripted list_buckets_denied) config0 Url.urlparse
              "s3://bucket/key" "aws" "bucket" "key" st0
              ltac:(vm_compute; reflexivity)) as (_ & _ & H).
  destruct (H (Exc ConnectionError "AWS connection error: Access Denied")
              (snd (_get_connector (scripted list_buckets_denied) config0 "aws" st0))
              ltac:(vm_compute; reflexivity)) as (_ & _ & ->).
  reflexivity.
Defined.

(** X4 at an S3 connector and a local file that is not there. *)
Lemma upload_missing_witness :
  connectors st_s3 !! "aws" = Some (mkConnector AWS_S3 true)
  /\ files (env st_s3) !! "report.csv" = None
  /\ upload_file (scripted no_failure) config0 "aws" "report.csv" "bucket" "key" [] st_s3
     = (Raises (Exc FileNotFoundError "Local file 'report.csv' not found"), st_s3).
Proof.
  split; [vm_compute; reflexivity|]. split; [vm_compute; reflexivity|].
  exact (upload_missing_local_file (scripted no_failure) config0 "aws"
           (mkConnector AWS_S3 true) "report.csv" "bucket" "key" [] st_s3
           ltac:(vm_compute; reflexivity) eq_refl ltac:(vm_compute; reflexivity)).
Defined.

(** X5 at a GCP connector whose copy request fails: a failed result, not
    the exception. *)
Lemma containment_witness :
  connectors st_gcp !! "gcp" = Some (mkConnector GCP_STORAGE true)
  /\ fst (copy_file (scripted copy_blob_gone) config0 10 "gcp" "b" "k" "b2" "k2" [] st_gcp)
     <> Raises (Exc NotFound "gone").
Proof.
  split; [vm_compute; reflexivity|].
  destruct (copy_file_containment (scripted copy_blob_gone) config0 10 "gcp"
              (mkConnector GCP_STORAGE true) st_gcp
              ltac:(vm_compute; reflexivity) eq_refl) as (H & _).
  exact (H ltac:(discriminate) "b" "k" "b2" "k2" [] (Exc NotFound "gone")).
Defined.

Example copy_blob_gone_result :
  fst (copy_file (scripted copy_blob_gone) config0 10 "gcp" "b" "k" "b2" "k2" [] st_gcp)
  = Returns (result_failed "gcs://b/k" "gcs://b2/k2" "GCP copy failed: gone").
Proof. vm_compute; reflexivity. Qed.

(** X6 at an S3 download whose [head_object] answers [NoSuchKey]. *)
Lemma probe_failure_witness :
  connectors st_s3 !! "aws" = Some (mkConnector AWS_S3 true)
  /\ fst (download_file (scripted (head_status "NoSuchKey")) config0 "aws" "bucket" "key"
            "out/key" st_s3)
     = Returns (result_failed "s3://bucket/key" "out/key"
                  "File 's3://bucket/key' not found")
  /\ events (snd (download_file (scripted (head_status "NoSuchKey")) config0 "aws"
                    "bucket" "key" "out/key" st_s3))
     = [EvCall (OsMkdirParents "out/key");
        EvLog INFO "Operation started" "s3_download";
        EvCall (S3HeadObject "bucket" "key");
        EvLog ERROR "Operation failed" "s3_download"].
Proof.
  split; [vm_compute; reflexivity|].
  destruct (download_probe_failure (scripted (head_status "NoSuchKey")) config0 "aws"
              (mkConnector AWS_S3 true) "bucket" "key" "out/key" st_s3
              (tick (env st_s3))
              ltac:(vm_compute; reflexivity) eq_refl ltac:(vm_compute; reflexivity))
    as (H & _).
  destruct (H (Exc (ClientError "NoSuchKey") "An error occurred") (tick (tick (env st_s3)))
              ltac:(vm_compute; reflexivity) ltac:(reflexivity)) as (H1 & H2 & _).
  split; [exact H1|exact H2].
Defined.

(** X7 at a copy from S3 to Azure of an object that is not there: no Azure
    connector was made. *)
Lemma failed_download_witness :
  fst (_copy_via_temp (scripted missing) config0 "aws" "src" "missing.txt"
         "azure" "dst" "2.txt" [] st0)
  = Returns (result_failed "aws://src/missing.txt" "azure://dst/2.txt"
               "Download failed: S3 download failed: Not Found")
  /\ connectors (snd (_copy_via_temp (scripted missing) config0 "aws" "src" "missing.txt"
                        "azure" "dst" "2.txt" [] st0)) !! "azure"
     = connectors st0 !! "azure".
Proof.
  assert (fst (_copy_via_temp (scripted missing) config0 "aws" "src" "missing.txt"
                 "azure" "dst" "2.txt" [] st0)
          = Returns (result_failed "aws://src/missing.txt" "azure://dst/2.txt"
                       "Download failed: S3 download failed: Not Found")) as Hrun
    by (vm_compute; reflexivity).
  split; [exact Hrun|].
  destruct (failed_download_skips_destination (scripted missing) config0
              "aws" "src" "missing.txt" "azure" "dst" "2.txt" [] st0
              (result_failed "aws://src/missing.txt" "azure://dst/2.txt"
                 "Download failed: S3 download failed: Not Found")
              "S3 download failed: Not Found" Hrun eq_refl)
    as (st1 & d & st2 & _ & _ & _ & _ & _ & _ & H).
  exact (H ltac:(discriminate)).
Defined.

(** X9 at the breaker of threshold 1 that one failure opened. *)
Lemma breaker_invariants_witness :
  reachable (Remote := unit) tripped_breaker
  /\ 0 <= failure_count tripped_breaker
  /\ failure_threshold
       (snd (fst (CircuitBreaker_call tripped_breaker succeeding st0)))
     = failure_threshold tripped_breaker.
Proof.
  assert (reachable (Remote := unit) tripped_breaker) as Hr
    by apply reachable_call, reachable_init.
  split; [exact Hr|].
  destruct (circuit_breaker_invariants tripped_breaker Hr) as (H1 & _ & H3).
  split; [exact H1|].
  exact (proj1 (H3 bool succeeding st0)).
Defined.

(** X10 at the URL [s3://bucket/key] and a manager whose S3 connector has
    its client handle: [file_exists] sends one request. *)
Lemma authenticates_once_witness :
  _parse_cloud_url Url.urlparse "s3://bucket/key" = inr ("aws", "bucket", "key")
  /\ events (snd (MultiCloudTransferManager_file_exists (scripted no_failure) config0
                    Url.urlparse "s3://bucket/key" st_s3))
     = (events st_s3 ++ [EvCall (S3HeadObject "bucket" "key")])%list.
Proof.
  split; [vm_compute; reflexivity|].
  destruct (manager_authenticates_once (scripted no_failure) config0 Url.urlparse
              "s3://bucket/key" "aws" "bucket" "key" ltac:(vm_compute; reflexivity))
    as (_ & _ & _ & _ & H).
  exact (proj1 (H st_s3 (mkConnector AWS_S3 true) ltac:(vm_compute; reflexivity) eq_refl)).
Defined.

(** After a first [file_exists] by a manager that holds nothing, the S3
    connector is cached with its client handle. *)
Example first_call_authenticates :
  connectors (snd (MultiCloudTransferManager_file_exists (scripted no_failure) config0
                     Url.urlparse "s3://bucket/key" st0)) !! "aws"
  = Some (mkConnector AWS_S3 true).
Proof. vm_compute; reflexivity. Qed.

(** X15 at a copy inside S3. *)
Definition s3_copy : outcome TransferResult * @State unit :=
  copy_file_direct (scripted no_failure) config0 10 Url.urlparse
    "s3://src/1.txt" "s3://dst/1.txt" [] st0.

Lemma copy_log_witness :
  s3_copy = (Returns (result_ok "s3://src/1.txt" "s3://dst/1.txt" 5 2), snd s3_copy)
  /\ exists during,
       events (snd s3_copy)
       = (events st0 ++ [EvLog INFO "Operation started" "multi_cloud_copy"] ++ during
          ++ [EvLog INFO "Operation completed successfully" "multi_cloud_copy"])%list.
Proof.
  assert (s3_copy = (Returns (result_ok "s3://src/1.txt" "s3://dst/1.txt" 5 2),
                     snd s3_copy)) as Hrun by (vm_compute; reflexivity).
  split; [exact Hrun|].
  exact (copy_file_direct_log (scripted no_failure) config0 10 Url.urlparse
           "s3://src/1.txt" "s3://dst/1.txt" [] st0 (snd s3_copy)
           (result_ok "s3://src/1.txt" "s3://dst/1.txt" 5 2) Hrun).
Defined.

(** X16 at an Azure connector without credentials: what [delete_file]
    raises is the error of the authentication. *)
Lemma lazy_authentication_witness :
  connectors st_azure !! "azure" = Some (mkConnector AZURE_BLOB false)
  /\ match fst (delete_file (scripted no_failure) config_empty "azure" "container" "blob"
                  st_azure) with
     | Raises e => authentication_failure e
     | _ => True
     end.
Proof.
  split; [vm_compute; reflexivity|].
  destruct (lazy_authentication_only (scripted no_failure) config_empty 10 "azure"
              (mkConnector AZURE_BLOB false) st_azure
              ltac:(vm_compute; reflexivity) ltac:(discriminate)) as (_ & H & _).
  exact (H "container" "blob").
Defined.

(** X17 at an S3 connector whose credentials the listing of the buckets
    refuses: [authenticate] raises, and the client handle is set. *)
Lemma client_handle_witness :
  connectors st_s3_new !! "aws" = Some (mkConnector AWS_S3 false)
  /\ fst (authenticate (scripted list_buckets_denied) config0 "aws" st_s3_new)
     = Raises (Exc ConnectionError "AWS connection error: Access Denied")
  /\ connectors (snd (authenticate (scripted list_buckets_denied) config0 "aws" st_s3_new))
       !! "aws"
     = Some (mkConnector AWS_S3 true).
Proof.
  split; [vm_compute; reflexivity|]. split; [vm_compute; reflexivity|].
  exact (proj1 (client_handle_survives (scripted list_buckets_denied) config0 "aws"
                  (mkConnector AWS_S3 false) st_s3_new
                  ltac:(vm_compute; reflexivity) eq_refl
                  ltac:(intros e env1; vm_compute; intros H; discriminate H))).
Defined.

(** *** [test_connections] and [cleanup] *)

(** With credentials for AWS and Azure and none for GCP, and the listing of
    the buckets denied. *)
Example test_connections_run :
  fst (test_connections (scripted list_buckets_denied) config0 st0)
  = Returns [("aws_s3", Some false); ("azure_blob", Some true); ("gcp_storage", None)]
  /\ connectors (snd (test_connections (scripted list_buckets_denied) config0 st0)) = ∅.
Proof. evaluate. Qed.

(** Two staging files and a file elsewhere; the second run finds one of
    the staging files locked. *)
Definition st_leftovers (locked : gset string) : @State unit :=
  mkState
    (mkEnv 0
       (<["temp_transfers/temp_0_a.txt" := 5]>
          (<["temp_transfers/temp_7_b.txt" := 5]> {[ "data/report.csv" := 9 ]}))
       locked tt)
    ∅ [].

Definition always (dir : string) (e : @Env unit) : bool := true.

Example cleanup_removes_staging_files :
  fst (cleanup always (st_leftovers ∅)) = Returns tt
  /\ files (env (snd (cleanup always (st_leftovers ∅)))) = {[ "data/report.csv" := 9 ]}.
Proof. evaluate. Qed.

Example cleanup_logs_refusal :
  fst (cleanup always (st_leftovers {[ "temp_transfers/temp_0_a.txt" ]})) = Returns tt
  /\ files (env (snd (cleanup always (st_leftovers {[ "temp_transfers/temp_0_a.txt" ]}))))
       !! "temp_transfers/temp_0_a.txt" = Some 5
  /\ last (events (snd (cleanup always
                          (st_leftovers {[ "temp_transfers/temp_0_a.txt" ]}))))
     = Some (EvLog WARNING "Error during cleanup" "").
Proof. evaluate. Qed.

(** The staging files of [a/x.txt] and [b/x.txt], started in the same
    second. *)
Example staging_files_collide :
  temp_path 1700000000 "a/x.txt" = "temp_transfers/temp_1700000000_x.txt"
  /\ temp_path 1700000000 "b/x.txt" = "temp_transfers/temp_1700000000_x.txt".
Proof. evaluate. Qed.

(** The factory takes a name with whitespace around it, a separator
    character included, and names the supported providers when it refuses
    one. *)
Example get_connector_by_name_strips :
  get_connector_by_name (String (ascii_of_nat 28) " AWS ") = inr (mkConnector AWS_S3 false)
  /\ get_connector_by_name "ftp"
     = inl (Exc ValueError
              "Unsupported provider 'ftp'. Supported: ['aws/s3', 'azure/blob', 'gcp/gcs']").
Proof. evaluate. Qed.

(** [retry_operation] with no attempt to make. *)
Example retry_operation_without_attempts :
  retry_operation (scripted no_failure) config0 succeeding "op" (Some (-1)) None st0
  = (Raises (Exc TypeError "exceptions must derive from BaseException"), st0).
Proof. vm_compute; reflexivity. Qed.

(** *** Further runs of the properties above *)

(** X1 without any credentials: the error that leaves the S3
    [authenticate] is the connectors' [ConnectionError], and the state is
    what it was. *)
Lemma authenticate_witness :
  validate_aws_config config_empty = false
  /\ S3_authenticate (scripted no_failure) config_empty "aws" st_s3_new
     = (Raises (Exc ConnectionError
                  "AWS connection failed: AWS credentials not configured properly"),
        st_s3_new).
Proof.
  split; [reflexivity|].
  destruct (authenticate_outcomes (scripted no_failure) config_empty "aws" st_s3_new)
    as (_ & H & _).
  exact (H eq_refl).
Defined.

(** X8 under three attempts: a call that returns ends the operation at
    once; with a negative delay the first failed attempt ends in the
    [ValueError] of [time.sleep], after its log and before any second
    call; and with [max_attempts = -1] the operation is not called. *)
Lemma retry_operation_witness :
  retry_operation (scripted no_failure) config0 succeeding "op" None None st0
  = (Returns true, st0)
  /\ retry_operation (scripted no_failure) config0 failing "op" None (Some (-1)) st0
     = (Raises sleep_refused, record (EvLog WARNING "Retry attempt" "op") st0)
  /\ retry_operation (scripted no_failure) config0 succeeding "op" (Some (-1)) None st0
     = (Raises (Exc TypeError "exceptions must derive from BaseException"), st0).
Proof.
  pose proof (retry_operation_outcomes (scripted no_failure) config0 bool succeeding "op"
                None None st0) as H1.
  pose proof (retry_operation_outcomes (scripted no_failure) config0 bool failing "op"
                None (Some (-1)) st0) as H2.
  pose proof (retry_operation_outcomes (scripted no_failure) config0 bool succeeding "op"
                (Some (-1)) None st0) as H3.
  cbv zeta in H1, H2, H3.
  destruct H1 as (_ & H1 & _). destruct H2 as (_ & _ & _ & H2). destruct H3 as (H3 & _).
  split; [|split].
  - exact (H1 ltac:(vm_compute; discriminate) true st0 eq_refl).
  - exact (H2 ltac:(vm_compute; discriminate) ltac:(vm_compute; reflexivity)
             (Exc builtins_TimeoutError "timed out") st0 eq_refl).
  - exact (H3 ltac:(vm_compute; discriminate)).
Defined.

(** X11 at a URL of scheme [ftp]: [delete_file] raises, and the state is
    what it was. *)
Lemma manager_raises_witness :
  _parse_cloud_url Url.urlparse "ftp://host/1.txt"
  = inl (Exc ValueError "Unsupported URL scheme: ftp")
  /\ MultiCloudTransferManager_delete_file (scripted no_failure) config0 Url.urlparse
       "ftp://host/1.txt" st0
     = (Raises (Exc ValueError "Unsupported URL scheme: ftp"), st0).
Proof.
  assert (_parse_cloud_url Url.urlparse "ftp://host/1.txt"
          = inl (Exc ValueError "Unsupported URL scheme: ftp")) as Hp
    by (vm_compute; reflexivity).
  split; [exact Hp|].
  destruct (manager_methods_raise (scripted no_failure) config0 10 Url.urlparse
              "ftp://host/1.txt" "report.csv" [] st0) as (H & _).
  destruct (H _ Hp) as (_ & _ & H3 & _).
  exact H3.
Defined.

(** X13 at two staging files that can be deleted: none is left. *)
Lemma cleanup_witness :
  always _temp_dir (env (st_leftovers ∅)) = true
  /\ child_of _temp_dir "temp_transfers/temp_7_b.txt" = true
  /\ files (env (snd (cleanup always (st_leftovers ∅)))) !! "temp_transfers/temp_7_b.txt"
     = None.
Proof.
  split; [reflexivity|].
  assert (child_of _temp_dir "temp_transfers/temp_7_b.txt" = true) as Hc
    by (vm_compute; reflexivity).
  split; [exact Hc|].
  destruct (cleanup_outcomes always (st_leftovers ∅)) as (_ & _ & _ & _ & H).
  apply (H eq_refl); [|exact Hc].
  intros p _. vm_compute. intros Hin. discriminate Hin.
Defined.

(** X14 at the objects [a/x.txt] and [b/x.txt]. *)
Lemma staging_name_witness :
  has_slash "x.txt" = false
  /\ temp_path 1700000000 ("a" +:+ "/" +:+ "x.txt")
     = temp_path 1700000000 ("b" +:+ "/" +:+ "x.txt").
Proof.
  split; [reflexivity|].
  destruct (staging_file_name (Remote := unit) always 1700000000 "a/x.txt")
    as (_ & _ & _ & H & _).
  exact (H "a" "b" "x.txt" eq_refl).
Defined.

(** A call that is refused by the network, and leaves an event. *)
Definition unreachable : @M unit Z :=
  fun st =>
    (Raises (Exc builtins_ConnectionError "connection refused"),
     record (EvLog DEBUG "called" "unreachable") st).


(** The decorated call is one call of the function, whatever the number of
    attempts; [retry_operation] makes the three. *)
Example with_retry_one_call :
  with_retry (scripted no_failure) config0 None None RETRIABLE_EXCEPTIONS unreachable st0
  = (Raises before_sleep_error, record (EvLog DEBUG "called" "unreachable") st0)
  /\ fst (retry_operation (scripted no_failure) config0 unreachable "op" None None st0)
     = Raises (Exc builtins_ConnectionError "connection refused")
  /\ count is_retry_attempt
       (snd (retry_operation (scripted no_failure) config0 unreachable "op" None None st0))
     = 3%nat
  /\ count is_sleep
       (snd (retry_operation (scripted no_failure) config0 unreachable "op" None None st0))
     = 2%nat.
Proof. evaluate. Qed.

(** X19 at the name a staged copy gives to the object [key] of the S3
    bucket [bucket]: the manager does not take it as a URL. *)
Lemma result_paths_witness :
  Url.urlparse (cloud_url "aws" "bucket" "key")
  = inr (Url.mkParseResult "aws" "bucket" "/key" "" "" "")
  /\ _parse_cloud_url Url.urlparse (cloud_url "aws" "bucket" "key")
     = inl (Exc ValueError ("Unsupported URL scheme: " +:+ "aws")).
Proof.
  assert (Url.urlparse (cloud_url "aws" "bucket" "key")
          = inr (Url.mkParseResult "aws" "bucket" "/key" "" "" "")) as Hp
    by (vm_compute; reflexivity).
  split; [exact Hp|].
  destruct (result_paths (scripted no_failure) config0 10 Url.urlparse) as (_ & _ & _ & H).
  exact (H "aws" "bucket" "key" _ (or_introl eq_refl) Hp eq_refl).
Defined.

(** X2 at the authentication of a cached S3 connector: the entry keeps its
    class. *)
Lemma cache_frame_witness :
  frame (eq "aws") st_s3_new
    (snd (authenticate (scripted no_failure) config0 "aws" st_s3_new)).
Proof.
  exact (proj1 (connector_cache_frame (scripted no_failure) config0 10 Url.urlparse)
           "aws" st_s3_new).
Defined.

(** X12 with credentials for AWS and Azure and none for GCP. *)
Lemma test_connections_witness :
  exists aws_s3 azure_blob st',
    test_connections (scripted list_buckets_denied) config0 st0
    = (Returns [("aws_s3", aws_s3); ("azure_blob", azure_blob); ("gcp_storage", None)],
       st')
    /\ connectors st' = connectors st0.
Proof.
  destruct (test_connections_outcomes (scripted list_buckets_denied) config0 st0)
    as (aws_s3 & azure_blob & gcp_storage & st' & Hrun & Hc & _ & _ & Hg & _).
  rewrite (Hg eq_refl) in Hrun. now exists aws_s3, azure_blob, st'.
Defined.

End Runs.
